(** * Gemini MCP client: command building, failure classification,
      result extraction and batch orchestration

    A shallow embedding of [src/gemini-client.ts], of the error mapping of
    [src/utils/error-handling.ts] and of the constants of
    [src/constants/defaults.ts], with the properties of the specification
    stated and proved over it.

    Conventions of the embedding.
    - A JavaScript string is the list of its UTF-16 code units ([jsstring]).
      String literals of the source are written as Rocq strings (UTF-8 in
      this file) and decoded by [js].
    - A JavaScript number that holds a fraction (temperature, confidence) is
      an exact rational; [NaN] is a separate constructor.  Rounding of
      IEEE doubles is not modelled.
    - The regular expressions of the source are values of [regex], run by a
      greedy backtracking matcher ([rx]) that follows the order in which the
      ECMAScript matcher explores alternatives.
    - What the client obtains from outside (the child process, the file
      system, the clock, the printing of a number) is a [Variable] of
      [Section Client]. *)

From Stdlib Require Import List Bool Arith ZArith NArith QArith Lia.
From Stdlib Require Import Ascii String DecimalString.
Import ListNotations.

Close Scope Q_scope.
Open Scope nat_scope.

(** ** JavaScript strings *)

Definition jsstring := list N.

(** UTF-8 bytes to Unicode code points.  Malformed sequences decode to
    U+FFFD; the literals of this file are well formed. *)
Fixpoint utf8_points (fuel : nat) (bs : list N) : list N :=
  match fuel with
  | O => []
  | S fuel' =>
    match bs with
    | [] => []
    | b0 :: r0 =>
      if (b0 <? 128)%N then b0 :: utf8_points fuel' r0
      else if (b0 <? 224)%N then
        match r0 with
        | b1 :: r1 =>
            ((b0 - 192) * 64 + (b1 - 128))%N :: utf8_points fuel' r1
        | _ => [65533%N]
        end
      else if (b0 <? 240)%N then
        match r0 with
        | b1 :: b2 :: r2 =>
            ((b0 - 224) * 4096 + (b1 - 128) * 64 + (b2 - 128))%N
              :: utf8_points fuel' r2
        | _ => [65533%N]
        end
      else
        match r0 with
        | b1 :: b2 :: b3 :: r3 =>
            ((b0 - 240) * 262144 + (b1 - 128) * 4096
             + (b2 - 128) * 64 + (b3 - 128))%N :: utf8_points fuel' r3
        | _ => [65533%N]
        end
    end
  end.

(** A code point as one UTF-16 code unit, or as a surrogate pair. *)
Definition utf16_units (cp : N) : list N :=
  if (cp <? 65536)%N then [cp]
  else [(55296 + (cp - 65536) / 1024)%N; (56320 + (cp - 65536) mod 1024)%N].

Definition bytes_of_string (s : string) : list N :=
  map N_of_ascii (list_ascii_of_string s).

(** The JavaScript string denoted by a literal. *)
Definition js (s : string) : jsstring :=
  let bs := bytes_of_string s in
  flat_map utf16_units (utf8_points (List.length bs) bs).

Definition cu_eqb (a b : N) : bool := N.eqb a b.

Fixpoint jsstring_eqb (a b : jsstring) : bool :=
  match a, b with
  | [], [] => true
  | x :: a', y :: b' => cu_eqb x y && jsstring_eqb a' b'
  | _, _ => false
  end.

(** *** Character classes *)

(** [\d]: the ASCII digits. *)
Definition is_digit (c : N) : bool := ((48 <=? c) && (c <=? 57))%N.

(** [\s], which is also what [trim] strips: WhiteSpace and LineTerminator
    of ECMAScript. *)
Definition is_space (c : N) : bool :=
  (((9 <=? c) && (c <=? 13)) || (c =? 32) || (c =? 160) || (c =? 5760)
   || ((8192 <=? c) && (c <=? 8202)) || (c =? 8232) || (c =? 8233)
   || (c =? 8239) || (c =? 8287) || (c =? 12288) || (c =? 65279))%N.

Definition LF : N := 10%N.

(** Membership of a code unit in the characters of a literal, for classes
    such as [[-*•]]. *)
Definition one_of (chars : jsstring) (c : N) : bool :=
  existsb (cu_eqb c) chars.

Definition not_LF (c : N) : bool := negb (cu_eqb c LF).

(** *** String methods *)

Fixpoint takeWhile (p : N -> bool) (s : jsstring) : jsstring :=
  match s with
  | c :: s' => if p c then c :: takeWhile p s' else []
  | [] => []
  end.

Fixpoint dropWhile (p : N -> bool) (s : jsstring) : jsstring :=
  match s with
  | c :: s' => if p c then dropWhile p s' else s
  | [] => []
  end.

(** [String.prototype.trim]. *)
Definition trim (s : jsstring) : jsstring :=
  rev (dropWhile is_space (rev (dropWhile is_space s))).

(** [s.split(sep)] for a separator that is one code unit out of a class:
    [text.split('\n')] and [value.split(/[,、]/)].  The result always has at
    least one element. *)
Fixpoint split_on (sep : N -> bool) (s : jsstring) : list jsstring :=
  match s with
  | [] => [[]]
  | c :: s' =>
    if sep c then [] :: split_on sep s'
    else match split_on sep s' with
         | cur :: more => (c :: cur) :: more
         | [] => [[c]]
         end
  end.

Fixpoint starts_with (needle s : jsstring) : bool :=
  match needle, s with
  | [], _ => true
  | x :: n', y :: s' => cu_eqb x y && starts_with n' s'
  | _ :: _, [] => false
  end.

(** [s.includes(needle)]. *)
Fixpoint includes (s needle : jsstring) : bool :=
  starts_with needle s ||
  match s with
  | [] => false
  | _ :: s' => includes s' needle
  end.

(** *** Numbers *)

Inductive number : Type :=
| Num (q : Q)
| NaN.

Definition digit_val (c : N) : Z := Z.of_N c - 48.

Definition digits_val (ds : jsstring) : Z :=
  fold_left (fun acc c => 10 * acc + digit_val c)%Z ds 0%Z.

(** [parseFloat] on the decimal literals the client hands it: the longest
    prefix of the shape digits, then optionally a dot and digits.  No digit
    at all gives [NaN].  Sign, exponent, leading blanks and [Infinity] do not
    occur in the argument, which is always capture 1 of the confidence
    pattern, and are left out. *)
Definition parseFloat (s : jsstring) : number :=
  let ip := takeWhile is_digit s in
  let r := dropWhile is_digit s in
  let fp := match r with
            | c :: r' => if cu_eqb c 46 then takeWhile is_digit r' else []
            | [] => []
            end in
  match ip, fp with
  | [], [] => NaN
  | _, _ =>
    Num (inject_Z (digits_val ip)
         + Qmake (digits_val fp) (Pos.pow 10 (Pos.of_nat (List.length fp))))%Q
  end.

(** [a > b] on numbers; any comparison with [NaN] is false. *)
Definition num_gt (a : number) (b : Q) : bool :=
  match a with
  | Num q => negb (Qle_bool q b)
  | NaN => false
  end.

Definition num_div (a : number) (b : Q) : number :=
  match a with
  | Num q => Num (q / b)%Q
  | NaN => NaN
  end.

(** Decimal text of an integer, as a template literal prints it. *)
Definition Z_toString (z : Z) : jsstring :=
  bytes_of_string (NilZero.string_of_int (Z.to_int z)).

(** ** Regular expressions *)

(** The fragment of ECMAScript patterns the client uses.  Every repetition
    in the source is over a single character class, so [Star] and [Plus]
    take a class.  No capture group stands under an [Opt]. *)
Inductive regex : Type :=
| Bos                                   (* ^ (no m flag) *)
| Cls (p : N -> bool)                   (* one character of a class *)
| Lit (l : jsstring)                    (* literal characters *)
| Star (p : N -> bool)                  (* class*, greedy *)
| Plus (p : N -> bool)                  (* class+, greedy *)
| Opt (r : regex)                       (* r?, greedy *)
| Seq (r1 r2 : regex)
| Group (r : regex).                    (* capturing group *)

(** A continuation receives the position reached, the rest of the input and
    the captures closed so far. *)
Definition cont := nat -> jsstring -> list jsstring ->
                   option (nat * list jsstring).

(** Greedy repetition of a class: take one more character if that leads to
    a match, otherwise stop here. *)
Fixpoint star (p : N -> bool) (pos : nat) (s : jsstring)
    (caps : list jsstring) (k : cont) : option (nat * list jsstring) :=
  match s with
  | c :: s' =>
    if p c then
      match star p (S pos) s' caps k with
      | Some x => Some x
      | None => k pos s caps
      end
    else k pos s caps
  | [] => k pos s caps
  end.

Fixpoint rx (r : regex) (pos : nat) (s : jsstring) (caps : list jsstring)
    (k : cont) : option (nat * list jsstring) :=
  match r with
  | Bos => if Nat.eqb pos 0 then k pos s caps else None
  | Cls p =>
    match s with
    | c :: s' => if p c then k (S pos) s' caps else None
    | [] => None
    end
  | Lit l =>
    if starts_with l s
    then k (pos + List.length l) (skipn (List.length l) s) caps
    else None
  | Star p => star p pos s caps k
  | Plus p =>
    match s with
    | c :: s' => if p c then star p (S pos) s' caps k else None
    | [] => None
    end
  | Opt r' =>
    match rx r' pos s caps k with
    | Some x => Some x
    | None => k pos s caps
    end
  | Seq r1 r2 =>
    rx r1 pos s caps (fun pos' s' caps' => rx r2 pos' s' caps' k)
  | Group r' =>
    rx r' pos s caps
       (fun pos' s' caps' => k pos' s' (caps' ++ [firstn (pos' - pos) s]))
  end.

(** The array a successful [match] returns: [m[0]] is [matched], [m[i]] for
    [i >= 1] is [nth_error groups (i - 1)]. *)
Record MatchResult : Type := mkMatch {
  index : nat;
  matched : jsstring;
  groups : list jsstring
}.

Definition accept : cont := fun pos _ caps => Some (pos, caps).

(** Try the pattern at [pos], then at every later position. *)
Fixpoint search (r : regex) (pos : nat) (s : jsstring) : option MatchResult :=
  match rx r pos s [] accept with
  | Some (e, caps) => Some (mkMatch pos (firstn (e - pos) s) caps)
  | None =>
    match s with
    | [] => None
    | _ :: s' => search r (S pos) s'
    end
  end.

(** [s.match(re)] for a pattern without the g flag; [None] is [null]. *)
Definition String_match (s : jsstring) (r : regex) : option MatchResult :=
  search r 0 s.

(** [m[i]] for [i >= 1]; [None] is [undefined]. *)
Definition group (m : MatchResult) (i : nat) : option jsstring :=
  nth_error (groups m) (i - 1).

Definition truthy {A : Type} (o : option A) : bool :=
  match o with Some _ => true | None => false end.

(** [s.replace(re, by)] for a pattern without the g flag. *)
Definition String_replace (s : jsstring) (r : regex) (by_ : jsstring)
    : jsstring :=
  match String_match s r with
  | Some m =>
    firstn (index m) s ++ by_
      ++ skipn (index m + List.length (matched m)) s
  | None => s
  end.

(** ** Exceptions *)

Inductive Result (E A : Type) : Type :=
| Ok (a : A)
| Err (e : E).

Arguments Ok {E A} a.
Arguments Err {E A} e.

Definition bind {E A B : Type} (c : Result E A) (k : A -> Result E B)
    : Result E B :=
  match c with
  | Ok a => k a
  | Err e => Err e
  end.

Notation "x <- c ;; k" := (bind c (fun x => k))
  (at level 61, c at next level, right associativity).

(** ** Types ([src/types.ts]) *)

Inductive AnalysisType : Type := describe | ocr | classify | detect_objects.
Inductive DetailLevel : Type := brief | standard | detailed.
Inductive Language : Type := ja | en | auto.

Record GeminiAnalysisConfig : Type := mkConfig {
  model : jsstring;
  temperature : Q;
  maxOutputTokens : Q;
  language : Language
}.

(** [Partial<GeminiAnalysisConfig>]: [None] is a property the object does
    not have. *)
Record PartialConfig : Type := mkPartial {
  p_model : option jsstring;
  p_temperature : option Q;
  p_maxOutputTokens : option Q;
  p_language : option Language
}.

Record ImageAnalysisOptions : Type := mkOptions {
  analysisType : AnalysisType;
  detailLevel : DetailLevel;
  includeConfidence : bool;
  extractColors : bool;
  detectFaces : bool;
  readQRCodes : bool;
  includeMetadata : bool
}.

Record ImageMetadata : Type := mkMetadata {
  filename : jsstring;
  size : Z;
  dimensions : Z * Z;
  format : jsstring;
  exif : list (jsstring * jsstring)
}.

Record ColorInfo : Type := mkColor {
  color : jsstring;
  percentage : number;
  rgb : Z * Z * Z
}.

Record AnalysisResult : Type := mkResult {
  description : jsstring;
  objects : list jsstring;
  text : jsstring;
  metadata : ImageMetadata;
  confidence : number;
  colors : list ColorInfo;
  processingTime : Z
}.

Inductive ErrorCode : Type :=
| GEMINI_AUTH_ERROR
| IMAGE_TOO_LARGE
| ANALYSIS_TIMEOUT
| INVALID_IMAGE_FORMAT
| RATE_LIMIT_EXCEEDED
| FILE_NOT_FOUND
| NETWORK_ERROR.

(** Values stored in the [details] record of an error. *)
Inductive jsvalue : Type :=
| VStr (s : jsstring)
| VNum (z : Z)
| VNull.

Record GeminiMCPError : Type := mkError {
  code : ErrorCode;
  message : jsstring;
  details : list (string * jsvalue)
}.

(** What a [throw] carries: a [GeminiMCPError], or any other [Error], kept
    by its message. *)
Inductive thrown : Type :=
| ThrowGemini (e : GeminiMCPError)
| ThrowError (msg : jsstring).

(** Calling a method on [undefined]. *)
Definition TypeError_undefined (method : string) : thrown :=
  ThrowError (js "Cannot read properties of undefined (reading '"
              ++ js method ++ js "')").

(** [m[i]] used as the receiver of a method call. *)
Definition receiver (m : MatchResult) (i : nat) (method : string)
    : Result thrown jsstring :=
  match group m i with
  | Some g => Ok g
  | None => Err (TypeError_undefined method)
  end.

(** ** Constants ([src/constants/defaults.ts]) *)

Definition DEFAULT_GEMINI_CONFIG : GeminiAnalysisConfig :=
  mkConfig (js "gemini-2.5-pro") 0.7%Q 2048%Q ja.

Definition DEFAULT_MAX_CONCURRENT_REQUESTS : nat := 3.

Definition DEFAULT_CONFIDENCE_SCORE : number := Num 0.8%Q.

(** [getMaxConcurrentRequests] of the configuration manager. *)
Definition getMaxConcurrentRequests : nat := DEFAULT_MAX_CONCURRENT_REQUESTS.

(** ** Error mapping ([src/utils/error-handling.ts]) *)

Module createGeminiErrors.

Definition authenticationFailed (d : list (string * jsvalue))
    : GeminiMCPError :=
  mkError GEMINI_AUTH_ERROR (js "Gemini API認証に失敗しました") d.

Definition rateLimitExceeded (d : list (string * jsvalue)) : GeminiMCPError :=
  mkError RATE_LIMIT_EXCEEDED (js "レート制限に達しました") d.

Definition analysisTimeout (timeout : Z) (d : list (string * jsvalue))
    : GeminiMCPError :=
  mkError ANALYSIS_TIMEOUT
    (js "分析がタイムアウトしました (" ++ Z_toString timeout ++ js "ms)")
    (("timeout"%string, VNum timeout) :: d).

Definition networkError (msg : jsstring) (d : list (string * jsvalue))
    : GeminiMCPError :=
  mkError NETWORK_ERROR (js "ネットワークエラー: " ++ msg) d.

End createGeminiErrors.

(** The exit code of a child: [None] is [null]. *)
Definition code_value (c : option Z) : jsvalue :=
  match c with Some z => VNum z | None => VNull end.

Definition code_text (c : option Z) : jsstring :=
  match c with Some z => Z_toString z | None => js "null" end.

(** The object literal [{ stderr, stdout, code }]. *)
Definition child_details (stderr stdout : jsstring) (c : option Z)
    : list (string * jsvalue) :=
  [("stderr"%string, VStr stderr); ("stdout"%string, VStr stdout);
   ("code"%string, code_value c)].

Definition mapChildProcessError (stderr stdout : jsstring) (c : option Z)
    : GeminiMCPError :=
  if includes stderr (js "Authentication failed")
     || includes stderr (js "Unauthorized")
  then createGeminiErrors.authenticationFailed (child_details stderr stdout c)
  else if includes stderr (js "Rate limit") || includes stderr (js "quota")
  then createGeminiErrors.rateLimitExceeded (child_details stderr stdout c)
  else createGeminiErrors.networkError
         (js "Gemini CLI実行エラー (code: " ++ code_text c ++ js ")")
         (child_details stderr stdout c).

(** [mapProcessError(error)], the [Error] given by its message. *)
Definition mapProcessError (msg : jsstring) : GeminiMCPError :=
  if includes msg (js "timeout")
  then createGeminiErrors.analysisTimeout 0
         [("originalError"%string, VStr msg)]
  else createGeminiErrors.networkError
         (js "プロセス実行エラー: " ++ msg)
         [("originalError"%string, VStr msg)].

(** ** The client ([src/gemini-client.ts]) *)

Record GeminiClient : Type := mkClient {
  config : GeminiAnalysisConfig
}.

(** *** Instruction text *)

(** The table [prompts] of [buildAnalysisPrompt]. *)
Definition prompts (t : AnalysisType) : jsstring :=
  match t with
  | describe => js "画像に写っているものを詳しく説明してください。"
  | ocr => js "画像内のテキストを正確に読み取って抽出してください。"
  | classify => js "画像のカテゴリを分類し、タグを付けてください。"
  | detect_objects => js "画像内のオブジェクトを検出して一覧にしてください。"
  end.

Definition buildAnalysisPrompt (this : GeminiClient)
    (options : ImageAnalysisOptions) : jsstring :=
  let prompt := prompts (analysisType options) in
  let prompt :=
    match detailLevel options with
    | brief => prompt ++ js " 簡潔にまとめてください。"
    | detailed => prompt ++ js " 可能な限り詳細に分析してください。"
    | standard => prompt
    end in
  let prompt :=
    if includeConfidence options
    then prompt ++ js " 各項目について信頼度スコアも含めてください。"
    else prompt in
  let prompt :=
    if extractColors options
    then prompt ++ js " 主要な色情報も分析してください。"
    else prompt in
  let prompt :=
    if detectFaces options
    then prompt ++ js " 人物の顔が写っている場合は検出してください。"
    else prompt in
  let prompt :=
    if readQRCodes options
    then prompt ++ js " QRコードがある場合は読み取ってください。"
    else prompt in
  match language (config this) with
  | en => js "Please respond in English. " ++ prompt
  | ja => js "日本語で回答してください。" ++ prompt
  | auto => prompt
  end.

(** *** Patterns of the result extractor

    Three of them carry the i flag.  None of their literal characters has a
    case mapping, so the flag changes nothing and is not modelled. *)

Definition colon_chars : jsstring := Eval vm_compute in js "：:".
Definition bullet_chars : jsstring := Eval vm_compute in js "-*•".
Definition percent_chars : jsstring := Eval vm_compute in js "%％".
Definition comma_chars : jsstring := Eval vm_compute in js ",、".
Definition dot : jsstring := Eval vm_compute in js ".".

(** [/^[-*•]\s+/] *)
Definition re_bullet : regex :=
  Seq Bos (Seq (Cls (one_of bullet_chars)) (Plus is_space)).

(** [/^\d+\.\s+/] *)
Definition re_numbered : regex :=
  Seq Bos (Seq (Plus is_digit) (Seq (Lit dot) (Plus is_space))).

(** [/カテゴリ[：:]\s*([^\n]+)/i] *)
Definition re_category : regex :=
  Seq (Lit (js "カテゴリ"))
      (Seq (Cls (one_of colon_chars))
           (Seq (Star is_space) (Group (Plus not_LF)))).

(** [/タグ[：:]\s*([^\n]+)/i] *)
Definition re_tag : regex :=
  Seq (Lit (js "タグ"))
      (Seq (Cls (one_of colon_chars))
           (Seq (Star is_space) (Group (Plus not_LF)))).

(** [/信頼度[：:]?\s*(\d+(?:\.\d+)?)[%％]?/] *)
Definition re_confidence : regex :=
  Seq (Lit (js "信頼度"))
      (Seq (Opt (Cls (one_of colon_chars)))
           (Seq (Star is_space)
                (Seq (Group (Seq (Plus is_digit)
                                 (Opt (Seq (Lit dot) (Plus is_digit)))))
                     (Opt (Cls (one_of percent_chars)))))).

(** [/色[：:]([^\n]+)/i] *)
Definition re_color : regex :=
  Seq (Lit (js "色"))
      (Seq (Cls (one_of colon_chars)) (Group (Plus not_LF))).

(** *** Result extraction *)

Definition extractObjectsList (raw : jsstring) : list jsstring :=
  let lines := split_on (cu_eqb LF) raw in
  let objects :=
    filter (fun item => 0 <? List.length item)
      (map (fun line =>
              trim (String_replace (String_replace line re_bullet [])
                                   re_numbered []))
         (filter (fun line => truthy (String_match line re_bullet)
                              || truthy (String_match line re_numbered))
            lines)) in
  objects.

(** The pieces of a matched value: [value.split(/[,、]/).map(c => c.trim())]. *)
Definition split_trim (value : jsstring) : list jsstring :=
  map trim (split_on (one_of comma_chars) value).

Definition extractCategories (raw : jsstring)
    : Result thrown (list jsstring) :=
  let categories := [] in
  categories <-
    match String_match raw re_category with
    | Some categoryMatches =>
      value <- receiver categoryMatches 1 "split" ;;
      Ok (categories ++ split_trim value)
    | None => Ok categories
    end ;;
  match String_match raw re_tag with
  | Some tagMatches =>
    value <- receiver tagMatches 1 "split" ;;
    Ok (categories ++ split_trim value)
  | None => Ok categories
  end.

(** [parseFloat(m[1])]: [undefined] converts to a string that is no number. *)
Definition parseFloat_arg (a : option jsstring) : number :=
  match a with
  | Some s => parseFloat s
  | None => NaN
  end.

Definition extractConfidenceScore (raw : jsstring) : number :=
  match String_match raw re_confidence with
  | Some confidenceMatch =>
    let score := parseFloat_arg (group confidenceMatch 1) in
    if num_gt score 1 then num_div score 100 else score
  | None => DEFAULT_CONFIDENCE_SCORE
  end.

Definition basicColors : list jsstring :=
  [js "赤"; js "青"; js "緑"; js "黄"; js "黒"; js "白"; js "茶"; js "紫";
   js "オレンジ"].

Definition extractColorInfo (raw : jsstring)
    : Result thrown (list ColorInfo) :=
  let colors := [] in
  match String_match raw re_color with
  | Some colorMatches =>
    colorText <- receiver colorMatches 1 "includes" ;;
    Ok (fold_left
          (fun colors color =>
             if includes colorText color
             then colors ++ [mkColor color (Num 0.1%Q) (0, 0, 0)%Z]
             else colors)
          basicColors colors)
  | None => Ok colors
  end.

(** *** Configuration *)

(** One property of the object spread [{ ...base, ...over }]. *)
Definition spread {A : Type} (base : A) (over : option A) : A :=
  match over with
  | Some v => v
  | None => base
  end.

Definition updateConfig (this : GeminiClient) (newConfig : PartialConfig)
    : GeminiClient :=
  mkClient
    (mkConfig
       (spread (model (config this)) (p_model newConfig))
       (spread (temperature (config this)) (p_temperature newConfig))
       (spread (maxOutputTokens (config this)) (p_maxOutputTokens newConfig))
       (spread (language (config this)) (p_language newConfig))).

Definition getConfig (this : GeminiClient) : GeminiAnalysisConfig :=
  config this.

(** *** The close handler of the child process

    [child.on('close', code => ...)]: what the promise of
    [executeGeminiCommand] settles with. *)
Definition onClose (stdout stderr : jsstring) (c : option Z)
    : Result thrown jsstring :=
  match c with
  | Some 0%Z => Ok (trim stdout)
  | _ => Err (ThrowGemini (mapChildProcessError stderr stdout c))
  end.

(** *** What an analysis obtains from outside *)

(** How the child process ends: the close event with both buffers and the
    exit code ([None] is [null]), or the error event. *)
Inductive ChildOutcome : Type :=
| Closed (stdout stderr : jsstring) (c : option Z)
| Errored (msg : jsstring).

(** The surroundings of one call of [analyzeImage]: the child that [spawn]
    starts for an argument list, what [extractBasicImageMetadata] gives for a
    path, and the milliseconds between the two readings of the clock. *)
Record Invocation : Type := mkInvocation {
  spawn_npx : list jsstring -> ChildOutcome;
  extractBasicImageMetadata : jsstring -> Result thrown ImageMetadata;
  elapsed : Z
}.

(** The part of a batch that the caller and the log observe. *)
Record BatchRun : Type := mkRun {
  results : list AnalysisResult;          (* the array returned *)
  logged : list GeminiMCPError;           (* console.error, oldest first *)
  windows : list (list jsstring)          (* the slices dispatched, in order *)
}.

Section Client.

(** [Number.prototype.toString]. *)
Variable Number_toString : Q -> jsstring.

(** [env n] describes the surroundings of the analysis of input number [n]
    (from 0) of a batch; a single analysis is number 0. *)
Variable env : nat -> Invocation.

Definition buildGeminiCommand (this : GeminiClient)
    (prompt imagePath : jsstring) : list jsstring :=
  let args := [js "@google-ai/generative-ai-cli";
               js "--prompt"; prompt;
               js "--file"; imagePath] in
  let args :=
    if negb (jsstring_eqb (model (config this)) (model DEFAULT_GEMINI_CONFIG))
    then args ++ [js "--model"; model (config this)]
    else args in
  let args :=
    if negb (Qeq_bool (temperature (config this))
                      (temperature DEFAULT_GEMINI_CONFIG))
    then args ++ [js "--temperature";
                  Number_toString (temperature (config this))]
    else args in
  let args :=
    if negb (Qeq_bool (maxOutputTokens (config this))
                      (maxOutputTokens DEFAULT_GEMINI_CONFIG))
    then args ++ [js "--max-tokens";
                  Number_toString (maxOutputTokens (config this))]
    else args in
  args.

Definition executeGeminiCommand (n : nat) (args : list jsstring)
    : Result thrown jsstring :=
  match spawn_npx (env n) args with
  | Closed stdout stderr c => onClose stdout stderr c
  | Errored msg => Err (ThrowGemini (mapProcessError msg))
  end.

Definition extractImageMetadata (n : nat) (imagePath : jsstring)
    : Result thrown ImageMetadata :=
  extractBasicImageMetadata (env n) imagePath.

Definition parseAnalysisResult (n : nat) (rawResult imagePath : jsstring)
    (options : ImageAnalysisOptions) (processingTime' : Z)
    : Result thrown AnalysisResult :=
  metadata' <- extractImageMetadata n imagePath ;;
  let description' := rawResult in
  let objects' := [] in
  let text' := [] in
  let confidence' := Num 0.8%Q in
  let colors' := [] in
  switched <-
    match analysisType options with
    | ocr => Ok (rawResult, objects')
    | detect_objects => Ok (text', extractObjectsList rawResult)
    | classify =>
      categories <- extractCategories rawResult ;;
      Ok (text', categories)
    | describe => Ok (text', objects')
    end ;;
  let '(text', objects') := switched in
  let confidence' :=
    if includeConfidence options
    then extractConfidenceScore rawResult
    else confidence' in
  colors' <-
    (if extractColors options
     then extractColorInfo rawResult
     else Ok colors') ;;
  Ok (mkResult description' objects' text' metadata' confidence' colors'
               processingTime').

Definition analyzeImage (this : GeminiClient) (n : nat)
    (imagePath : jsstring) (options : ImageAnalysisOptions)
    : Result GeminiMCPError AnalysisResult :=
  let attempt :=
    let prompt := buildAnalysisPrompt this options in
    let command := buildGeminiCommand this prompt imagePath in
    result <- executeGeminiCommand n command ;;
    parseAnalysisResult n result imagePath options (elapsed (env n)) in
  match attempt with
  | Ok analysisResult => Ok analysisResult
  | Err (ThrowGemini error) => Err error
  | Err (ThrowError msg) => Err (mapProcessError msg)
  end.

(** [a.slice(from, to)] for [from <= to]. *)
Definition slice {A : Type} (a : list A) (from to : nat) : list A :=
  firstn (to - from) (skipn from a).

(** One settled promise of a window: a value is pushed onto [results], a
    reason is written to the log. *)
Definition settle (run : BatchRun)
    (result : Result GeminiMCPError AnalysisResult) : BatchRun :=
  match result with
  | Ok value => mkRun (results run ++ [value]) (logged run) (windows run)
  | Err reason => mkRun (results run) (logged run ++ [reason]) (windows run)
  end.

(** The loop of [batchAnalyze] from index [i] on.  The promises of a window
    are created in input order and [Promise.allSettled] keeps that order.
    [fuel] bounds the number of windows; [None] means it ran out. *)
Fixpoint batchLoop (fuel maxConcurrency : nat) (this : GeminiClient)
    (imagePaths : list jsstring) (options : ImageAnalysisOptions)
    (i : nat) (run : BatchRun) : option BatchRun :=
  if i <? List.length imagePaths then
    match fuel with
    | O => None
    | S fuel' =>
      let batch := slice imagePaths i (i + maxConcurrency) in
      let batchResults :=
        map (fun '(n, path) => analyzeImage this n path options)
            (combine (seq i (List.length batch)) batch) in
      let run :=
        fold_left settle batchResults
          (mkRun (results run) (logged run) (windows run ++ [batch])) in
      batchLoop fuel' maxConcurrency this imagePaths options
                (i + maxConcurrency) run
    end
  else Some run.

(** [batchAnalyze] for a given value of the local [maxConcurrency]. *)
Definition batchAnalyzeWith (maxConcurrency : nat) (this : GeminiClient)
    (imagePaths : list jsstring) (options : ImageAnalysisOptions)
    : option BatchRun :=
  batchLoop (List.length imagePaths) maxConcurrency this imagePaths options
            0 (mkRun [] [] []).

Definition batchAnalyze (this : GeminiClient)
    (imagePaths : list jsstring) (options : ImageAnalysisOptions)
    : option BatchRun :=
  batchAnalyzeWith getMaxConcurrentRequests this imagePaths options.

(** *** The batch seen from outside

    What each input settles with, numbered from [i], and the two lists a
    sequence of settlements splits into. *)
Fixpoint outcomesFrom (this : GeminiClient) (options : ImageAnalysisOptions)
    (i : nat) (paths : list jsstring)
    : list (Result GeminiMCPError AnalysisResult) :=
  match paths with
  | [] => []
  | path :: rest =>
    analyzeImage this i path options :: outcomesFrom this options (S i) rest
  end.

End Client.

Definition fulfilled {E A : Type} (o : Result E A) : list A :=
  match o with Ok v => [v] | Err _ => [] end.

Definition rejected {E A : Type} (o : Result E A) : list E :=
  match o with Ok _ => [] | Err e => [e] end.

(** Windows of size [c], the last one possibly shorter and never empty. *)
Fixpoint window_shape (c : nat) (ws : list (list jsstring)) : Prop :=
  match ws with
  | [] => True
  | w :: rest =>
    match rest with
    | [] => 1 <= List.length w <= c
    | _ :: _ => List.length w = c /\ window_shape c rest
    end
  end.

(** ** Sample surroundings

    Concrete inputs on which the definitions above are run. *)
Module Sample.

(** Prints the integral part; exact on integers. *)
Definition toString (q : Q) : jsstring :=
  Z_toString (Qnum q / Zpos (Qden q)).

Definition client : GeminiClient := mkClient DEFAULT_GEMINI_CONFIG.

Definition options : ImageAnalysisOptions :=
  mkOptions detect_objects standard true false false false true.

Definition stat (path : jsstring) : Result thrown ImageMetadata :=
  Ok (mkMetadata path 1024 (0, 0)%Z (js "jpg") []).

Definition answer : jsstring :=
  js "- cat" ++ [LF] ++ js "- dog" ++ [LF] ++ js "信頼度: 85%".

(** The child of every input exits with 0, except that of input 2, which
    exits with 1 after writing to standard error. *)
Definition env (n : nat) : Invocation :=
  if Nat.eqb n 2
  then mkInvocation (fun _ => Closed [] (js "Error: Rate limit exceeded")
                                     (Some 1%Z))
                    stat 7%Z
  else mkInvocation (fun _ => Closed answer [] (Some 0%Z)) stat 12%Z.

Definition paths : list jsstring :=
  [js "/img/a.jpg"; js "/img/b.jpg"; js "/img/c.jpg"; js "/img/d.jpg";
   js "/img/e.jpg"].

End Sample.

(** ** Vocabulary of the specification *)

(** [needle] occurs in [s]. *)
Definition contains (s needle : jsstring) : Prop :=
  exists pre post, s = pre ++ needle ++ post.

(** The standard-error text reports an authentication failure. *)
Definition auth_phrase (stderr : jsstring) : Prop :=
  contains stderr (js "Authentication failed")
  \/ contains stderr (js "Unauthorized").

(** The standard-error text reports a rate limit or an exhausted quota. *)
Definition rate_phrase (stderr : jsstring) : Prop :=
  contains stderr (js "Rate limit") \/ contains stderr (js "quota").

(** The parts an instruction is assembled from, in the words of the
    specification: a base template per analysis type, a qualifier per detail
    level, a clause per flag, a preamble per language. *)
Definition base_template (t : AnalysisType) : jsstring := prompts t.

Definition detail_qualifier (d : DetailLevel) : jsstring :=
  match d with
  | brief => js " 簡潔にまとめてください。"
  | standard => []
  | detailed => js " 可能な限り詳細に分析してください。"
  end.

Inductive Flag : Type := FConfidence | FColors | FFaces | FQR.

(** The flags in the order in which their clauses are appended. *)
Definition flag_order : list Flag := [FConfidence; FColors; FFaces; FQR].

Definition flag_active (options : ImageAnalysisOptions) (f : Flag) : bool :=
  match f with
  | FConfidence => includeConfidence options
  | FColors => extractColors options
  | FFaces => detectFaces options
  | FQR => readQRCodes options
  end.

Definition flag_clause (f : Flag) : jsstring :=
  match f with
  | FConfidence => js " 各項目について信頼度スコアも含めてください。"
  | FColors => js " 主要な色情報も分析してください。"
  | FFaces => js " 人物の顔が写っている場合は検出してください。"
  | FQR => js " QRコードがある場合は読み取ってください。"
  end.

Definition language_preamble (l : Language) : jsstring :=
  match l with
  | ja => js "日本語で回答してください。"
  | en => js "Please respond in English. "
  | auto => []
  end.

(** The instruction as the specification words it. *)
Definition instruction_as_specified (l : Language)
    (options : ImageAnalysisOptions) : jsstring :=
  language_preamble l
  ++ (base_template (analysisType options)
      ++ detail_qualifier (detailLevel options)
      ++ List.concat
           (map flag_clause (filter (flag_active options) flag_order))).

(** The three arguments every invocation carries. *)
Definition base_arguments (prompt imagePath : jsstring) : list jsstring :=
  [js "@google-ai/generative-ai-cli"; js "--prompt"; prompt;
   js "--file"; imagePath].

(** ** Meaning of the patterns

    [den r pos w cs]: the pattern [r], started at position [pos], matches
    the word [w] and closes the capture groups [cs] while doing so. *)
Fixpoint den (r : regex) (pos : nat) (w : jsstring) (cs : list jsstring)
    : Prop :=
  match r with
  | Bos => pos = 0 /\ w = [] /\ cs = []
  | Cls p => (exists c, w = [c] /\ p c = true) /\ cs = []
  | Lit l => w = l /\ cs = []
  | Star p => forallb p w = true /\ cs = []
  | Plus p => w <> [] /\ forallb p w = true /\ cs = []
  | Opt r' => (w = [] /\ cs = []) \/ den r' pos w cs
  | Seq r1 r2 =>
    exists w1 w2 c1 c2,
      w = w1 ++ w2 /\ cs = c1 ++ c2
      /\ den r1 pos w1 c1 /\ den r2 (pos + List.length w1) w2 c2
  | Group r' => exists c, den r' pos w c /\ cs = c ++ [w]
  end.

(** ** List extraction in elementary terms *)

(** A line that opens with a bullet and at least one blank. *)
Definition bullet_item (line : jsstring) : bool :=
  match line with
  | c :: w :: _ => one_of bullet_chars c && is_space w
  | _ => false
  end.

(** A line that opens with digits, a period and at least one blank. *)
Definition numbered_item (line : jsstring) : bool :=
  match takeWhile is_digit line, dropWhile is_digit line with
  | _ :: _, d :: w :: _ => cu_eqb d 46 && is_space w
  | _, _ => false
  end.

(** Removal of the opening bullet with its blanks. *)
Definition strip_bullet (line : jsstring) : jsstring :=
  if bullet_item line then dropWhile is_space (tl line) else line.

(** Removal of the opening number with its period and blanks. *)
Definition strip_number (line : jsstring) : jsstring :=
  if numbered_item line
  then dropWhile is_space (tl (dropWhile is_digit line))
  else line.

(** List extraction read literally: a line is kept as soon as it begins
    with a bullet character, or with digits and a period; the marker and the
    blanks around the rest are removed. *)
Definition begins_with_marker (line : jsstring) : bool :=
  match line with
  | c :: _ =>
    one_of bullet_chars c
    || (is_digit c
        && match dropWhile is_digit line with
           | d :: _ => cu_eqb d 46
           | [] => false
           end)
  | [] => false
  end.

Definition remove_marker (line : jsstring) : jsstring :=
  match line with
  | c :: rest =>
    if one_of bullet_chars c then rest else tl (dropWhile is_digit line)
  | [] => []
  end.

Definition listExtraction_as_stated (raw : jsstring) : list jsstring :=
  filter (fun item => 0 <? List.length item)
    (map (fun line => trim (remove_marker line))
       (filter begins_with_marker (split_on (cu_eqb LF) raw))).


(** A decimal literal: digits, then possibly a period and digits. *)
Definition decimal_literal (g : jsstring) : Prop :=
  exists ds frac,
    g = ds ++ frac /\ ds <> [] /\ forallb is_digit ds = true
    /\ (frac = []
        \/ exists fs, frac = dot ++ fs /\ fs <> []
                      /\ forallb is_digit fs = true).

From Stdlib Require Import Qround Lqa.

(** ** Further vocabulary *)

(** The object spread of two partial configurations,
    [{ ...first, ...second }]. *)
Definition partial_spread (first second : PartialConfig) : PartialConfig :=
  mkPartial
    (match p_model second with Some v => Some v | None => p_model first end)
    (match p_temperature second with
     | Some v => Some v | None => p_temperature first end)
    (match p_maxOutputTokens second with
     | Some v => Some v | None => p_maxOutputTokens first end)
    (match p_language second with
     | Some v => Some v | None => p_language first end).

(** A whole configuration passed where a partial one is expected. *)
Definition full_update (c : GeminiAnalysisConfig) : PartialConfig :=
  mkPartial (Some (model c)) (Some (temperature c))
            (Some (maxOutputTokens c)) (Some (language c)).

(** A piece of a matched value: no blank at either end, no comma of either
    kind, no line feed. *)
Definition clean_piece (x : jsstring) : Prop :=
  match x with [] => True | c :: _ => is_space c = false end
  /\ match rev x with [] => True | c :: _ => is_space c = false end
  /\ forallb (fun c => negb (one_of comma_chars c)) x = true
  /\ forallb not_LF x = true.

(** The record [extractColorInfo] emits for a colour name. *)
Definition placeholder_color (name : jsstring) : ColorInfo :=
  mkColor name (Num 0.1%Q) (0, 0, 0)%Z.

(** ** More of the error mapping ([src/utils/error-handling.ts]) *)

Module createGeminiErrors_file.

(** [fileNotFound(filePath, details)]; [details] has no [filePath] key at
    any call site. *)
Definition fileNotFound (filePath : jsstring) (d : list (string * jsvalue))
    : GeminiMCPError :=
  mkError FILE_NOT_FOUND (js "ファイルが見つかりません: " ++ filePath)
          (("filePath"%string, VStr filePath) :: d).

End createGeminiErrors_file.

(** [mapFileSystemError(error, filePath)]; an [error] that is no
    [GeminiMCPError] is given by its message. *)
Definition mapFileSystemError (error : thrown) (filePath : jsstring)
    : GeminiMCPError :=
  match error with
  | ThrowGemini e => e
  | ThrowError errorMessage =>
    if includes errorMessage (js "ENOENT")
       || includes errorMessage (js "no such file")
    then createGeminiErrors_file.fileNotFound filePath
           [("originalError"%string, VStr errorMessage)]
    else createGeminiErrors.networkError
           (js "ファイルアクセスエラー: " ++ errorMessage)
           [("filePath"%string, VStr filePath);
            ("originalError"%string, VStr errorMessage)]
  end.

Inductive Severity : Type := low | medium | high | critical.

Definition getErrorSeverity (error : thrown) : Severity :=
  match error with
  | ThrowGemini e =>
    match code e with
    | GEMINI_AUTH_ERROR => critical
    | RATE_LIMIT_EXCEEDED => high
    | ANALYSIS_TIMEOUT => medium
    | FILE_NOT_FOUND => low
    | INVALID_IMAGE_FORMAT => low
    | _ => medium
    end
  | ThrowError _ => medium
  end.

(** ** Strings and arrays, continued *)

(** [s.lastIndexOf(c)] for a one-character search string; -1 when [c] does
    not occur. *)
Fixpoint lastIndexOf_from (s : jsstring) (c : N) (i found : Z) : Z :=
  match s with
  | [] => found
  | x :: s' => lastIndexOf_from s' c (i + 1) (if cu_eqb x c then i else found)
  end.

Definition lastIndexOf (s : jsstring) (c : N) : Z :=
  lastIndexOf_from s c 0 (-1).

(** An index argument of [slice], taken relative to the end when negative
    and clamped to the length. *)
Definition relative_index (len k : Z) : nat :=
  Z.to_nat (if (k <? 0)%Z then Z.max (len + k) 0 else Z.min k len).

(** [a.slice(from)] and [a.slice(from, to)], on strings and arrays. *)
Definition slice_from {A : Type} (a : list A) (from : Z) : list A :=
  skipn (relative_index (Z.of_nat (List.length a)) from) a.

Definition slice_range {A : Type} (a : list A) (from to : Z) : list A :=
  let len := Z.of_nat (List.length a) in
  firstn (relative_index len to - relative_index len from)
         (skipn (relative_index len from) a).

(** [parts.join(sep)]. *)
Fixpoint join_with (sep : jsstring) (parts : list jsstring) : jsstring :=
  match parts with
  | [] => []
  | [p] => p
  | p :: rest => p ++ sep ++ join_with sep rest
  end.

(** [array.includes(x)] on an array of strings. *)
Definition Array_includes (a : list jsstring) (x : jsstring) : bool :=
  existsb (jsstring_eqb x) a.

(** [re.test(s)]. *)
Definition RegExp_test (r : regex) (s : jsstring) : bool :=
  truthy (String_match s r).

(** A [Map] from strings to counts, in insertion order. *)
Definition CountMap := list (jsstring * nat).

Fixpoint Map_get (m : CountMap) (k : jsstring) : option nat :=
  match m with
  | [] => None
  | (k', v) :: m' => if jsstring_eqb k' k then Some v else Map_get m' k
  end.

Fixpoint Map_set (m : CountMap) (k : jsstring) (v : nat) : CountMap :=
  match m with
  | [] => [(k, v)]
  | (k', v') :: m' =>
    if jsstring_eqb k' k then (k', v) :: m' else (k', v') :: Map_set m' k v
  end.

(** The sum of the counts of a map. *)
Definition Map_total (m : CountMap) : nat :=
  fold_right (fun kv acc => snd kv + acc) 0 m.

(** Strings of ASCII characters, on which [toLowerCase] only touches the
    letters A to Z. *)
Definition ascii_only (s : jsstring) : Prop :=
  forallb (fun c => (c <? 128)%N) s = true.

Definition ascii_lower (c : N) : N :=
  if ((65 <=? c) && (c <=? 90))%N then (c + 32)%N else c.

Definition lowers_ascii (toLowerCase : jsstring -> jsstring) : Prop :=
  forall s, ascii_only s -> toLowerCase s = map ascii_lower s.

(** ** File names ([src/utils/file.ts]) and image validation
      ([src/utils/validation.ts]) *)

Definition SUPPORTED_IMAGE_FORMATS : list jsstring :=
  [js ".jpg"; js ".jpeg"; js ".png"; js ".webp"; js ".gif"].

Record ImageValidationResult : Type := mkValidation {
  isValid : bool;
  v_format : option jsstring;             (* [None] is [undefined] *)
  v_errors : list jsstring;
  v_warnings : list jsstring
}.

(** The pattern [invalidChars]: one of the characters less-than,
    greater-than, colon, double quote, bar, question mark, asterisk. *)
Definition invalidChars : regex :=
  Cls (one_of [60; 62; 58; 34; 124; 63; 42]%N).

Section FileNames.

(** [String.prototype.toLowerCase]. *)
Variable toLowerCase : jsstring -> jsstring.

Definition getFileExtension (filePath : jsstring) : jsstring :=
  slice_from (toLowerCase filePath) (lastIndexOf filePath 46).

Definition getFileNameWithExtension (filePath : jsstring) : jsstring :=
  last (split_on (cu_eqb 47) filePath) [].

Definition getFileName (filePath : jsstring) : jsstring :=
  let name := getFileNameWithExtension filePath in
  let lastDotIndex := lastIndexOf name 46 in
  if (0 <? lastDotIndex)%Z then slice_range name 0 lastDotIndex else name.

Definition isImageFile (filePath : jsstring) : bool :=
  let extension := getFileExtension filePath in
  Array_includes SUPPORTED_IMAGE_FORMATS extension.

Definition validateImageBasic (filePath : jsstring) : ImageValidationResult :=
  let errors := [] in
  let warnings := [] in
  let format := None in
  match filePath with
  | [] => mkValidation false None (errors ++ [js "ファイルパスが無効です"])
                       warnings
  | _ :: _ =>
    let extension := getFileExtension filePath in
    let '(format, errors, warnings) :=
      match extension with
      | [] => (format, errors ++ [js "ファイル拡張子がありません"], warnings)
      | _ :: _ =>
        if negb (Array_includes SUPPORTED_IMAGE_FORMATS extension)
        then (format,
              errors ++ [js "サポートされていない画像形式: " ++ extension],
              warnings ++ [js "サポート形式: "
                           ++ join_with (js ", ") SUPPORTED_IMAGE_FORMATS])
        else (Some (slice_from extension 1), errors, warnings)
      end in
    let fileName := getFileNameWithExtension filePath in
    let warnings :=
      if 255 <? List.length fileName
      then warnings ++ [js "ファイル名が長すぎます (255文字以下推奨)"]
      else warnings in
    let warnings :=
      if RegExp_test invalidChars fileName
      then warnings ++ [js "ファイル名に特殊文字が含まれています"]
      else warnings in
    mkValidation (Nat.eqb (List.length errors) 0) format errors warnings
  end.

Record ValidationStatistics : Type := mkStatistics {
  st_total : nat;
  st_valid : nat;
  st_invalid : nat;
  st_formats : CountMap
}.

Record FilesValidation : Type := mkFilesValidation {
  fv_valid : list jsstring;
  fv_invalid : list (jsstring * ImageValidationResult);
  fv_statistics : ValidationStatistics
}.

(** One turn of the loop of [validateImageFiles]. *)
Definition validateImageFiles_step
    (acc : list jsstring * list (jsstring * ImageValidationResult) * CountMap)
    (filePath : jsstring)
    : list jsstring * list (jsstring * ImageValidationResult) * CountMap :=
  let '(valid, invalid, formats) := acc in
  let result := validateImageBasic filePath in
  if isValid result then
    let formats :=
      match v_format result with
      | Some (c :: f) =>
        let count := match Map_get formats (c :: f) with
                     | Some n => n       (* 0 is falsy: [|| 0] gives 0 *)
                     | None => 0
                     end in
        Map_set formats (c :: f) (count + 1)
      | _ => formats
      end in
    (valid ++ [filePath], invalid, formats)
  else (valid, invalid ++ [(filePath, result)], formats).

Definition validateImageFiles (filePaths : list jsstring) : FilesValidation :=
  let '(valid, invalid, formats) :=
    fold_left validateImageFiles_step filePaths ([], [], []) in
  mkFilesValidation valid invalid
    (mkStatistics (List.length filePaths) (List.length valid)
                  (List.length invalid) formats).

(** One turn of the loop of [filterValidImageFiles]. *)
Definition filterValidImageFiles_step
    (acc : list jsstring * list (jsstring * jsstring)) (filePath : jsstring)
    : list jsstring * list (jsstring * jsstring) :=
  let '(validFiles, rejectedFiles) := acc in
  if isImageFile filePath then
    let validation := validateImageBasic filePath in
    if isValid validation
    then (validFiles ++ [filePath], rejectedFiles)
    else (validFiles,
          rejectedFiles
          ++ [(filePath, join_with (js ", ") (v_errors validation))])
  else (validFiles,
        rejectedFiles ++ [(filePath, js "サポートされていない画像形式")]).

Definition filterValidImageFiles (filePaths : list jsstring)
    : list jsstring * list (jsstring * jsstring) :=
  fold_left filterValidImageFiles_step filePaths ([], []).

End FileNames.

Module SampleFiles.

(** Lower case of the letters A to Z. *)
Definition toLowerCase (s : jsstring) : jsstring := map ascii_lower s.

Definition paths : list jsstring :=
  [js "/photos/Cat.JPG"; js "/photos/notes.txt"; js "/photos/README";
   js "/photos/dog.png"; js "/photos.old/bird"; js "/photos/fish.jpg"].

End SampleFiles.

(** ** Judging results and images ([src/utils/validation.ts]) *)

(** [a >= b] and [a < b] on numbers; a comparison with [NaN] is false. *)
Definition num_ge (a : number) (b : Q) : bool :=
  match a with
  | Num q => Qle_bool b q
  | NaN => false
  end.

Definition Qlt_bool (a b : Q) : bool := negb (Qle_bool b a).

Module Confidence.

Inductive Level : Type := very_low | low | medium | high | very_high.

Record Verdict : Type := mkVerdict {
  isReliable : bool;
  level : Level;
  recommendation : jsstring
}.

Definition validateAnalysisConfidence (confidence : number) : Verdict :=
  if num_ge confidence 0.9 then
    mkVerdict true very_high (js "結果は非常に信頼できます")
  else if num_ge confidence 0.7 then
    mkVerdict true high (js "結果は信頼できます")
  else if num_ge confidence 0.5 then
    mkVerdict true medium
      (js "結果は妥当ですが、確認することを推奨します")
  else if num_ge confidence 0.3 then
    mkVerdict false low
      (js "結果の信頼度が低いため、再分析を検討してください")
  else
    mkVerdict false very_low
      (js "結果の信頼度が非常に低いため、他の方法を試してください").

(** The levels in increasing order. *)
Definition rank (l : Level) : nat :=
  match l with
  | very_low => 0 | low => 1 | medium => 2 | high => 3 | very_high => 4
  end.

End Confidence.

Inductive Quality : Type := poor | fair | good | excellent.

(** The argument of [assessImageQuality]; [None] is a property left out. *)
Record QualityInput : Type := mkQualityInput {
  q_size : Q;
  q_format : jsstring;
  q_width : option Q;
  q_height : option Q
}.

Record QualityReport : Type := mkQualityReport {
  quality : Quality;
  score : Z;
  issues : list jsstring;
  suggestions : list jsstring
}.

(** Truthiness of an optional number: present and not zero. *)
Definition number_truthy (o : option Q) : bool :=
  match o with
  | Some q => negb (Qeq_bool q 0)
  | None => false
  end.

Definition number_or_zero (o : option Q) : Q :=
  match o with Some q => q | None => 0%Q end.

Section ImageQuality.

Variable toLowerCase : jsstring -> jsstring.

Definition assessImageQuality (metadata' : QualityInput) : QualityReport :=
  let issues := [] in
  let suggestions := [] in
  let score := 100%Z in
  let sizeMB := (q_size metadata' / (1024 * 1024))%Q in
  let '(score, issues, suggestions) :=
    if Qlt_bool sizeMB 0.1 then
      ((score - 20)%Z,
       issues ++ [js "ファイルサイズが小さすぎる可能性"],
       suggestions ++ [js "より高解像度の画像を使用することを推奨"])
    else if Qlt_bool 10 sizeMB then
      ((score - 10)%Z,
       issues ++ [js "ファイルサイズが大きい"],
       suggestions ++ [js "圧縮を検討してください"])
    else (score, issues, suggestions) in
  let '(score, issues, suggestions) :=
    if number_truthy (q_width metadata')
       && number_truthy (q_height metadata')
    then
      let totalPixels :=
        (number_or_zero (q_width metadata')
         * number_or_zero (q_height metadata'))%Q in
      if Qlt_bool totalPixels 100000 then
        ((score - 25)%Z,
         issues ++ [js "解像度が低い"],
         suggestions ++ [js "より高解像度の画像を使用してください"])
      else if Qlt_bool 25000000 totalPixels then
        ((score - 5)%Z,
         issues ++ [js "解像度が非常に高い"],
         suggestions
         ++ [js "処理時間短縮のため適度な解像度に調整を検討"])
      else (score, issues, suggestions)
    else (score, issues, suggestions) in
  let format' := toLowerCase (q_format metadata') in
  let '(score, issues, suggestions) :=
    if jsstring_eqb format' (js "gif") then
      ((score - 15)%Z,
       issues ++ [js "GIF形式は分析に適さない場合がある"],
       suggestions ++ [js "静止画の場合はJPEGまたはPNG形式を推奨"])
    else if jsstring_eqb format' (js "webp") then
      ((score + 5)%Z, issues, suggestions ++ [js "WebP形式は効率的です"])
    else (score, issues, suggestions) in
  let quality' :=
    if (90 <=? score)%Z then excellent
    else if (70 <=? score)%Z then good
    else if (50 <=? score)%Z then fair
    else poor in
  mkQualityReport quality' (Z.max 0 (Z.min 100 score)) issues suggestions.

End ImageQuality.

(** ** Safe file names ([src/utils/file.ts]) *)

(** The class [[\.\/\\:]]: period, slash, backslash, colon. *)
Definition unsafe_char (c : N) : bool :=
  one_of [46; 47; 92; 58]%N c.

Section SafePath.

(** [path.join]. *)
Variable join : jsstring -> jsstring -> jsstring.

Definition createSafeFilePath (basePath fileName : jsstring) : jsstring :=
  let sanitizedFileName :=
    map (fun c => if unsafe_char c then 95%N else c) fileName in
  join basePath sanitizedFileName.

End SafePath.

(** ** Environment variables ([src/utils/env.ts]) *)

Section Environment.

(** [process.env]: [None] is a variable that is not set. *)
Variable process_env : string -> option jsstring.

Definition getEnvString (key : string) (defaultValue : jsstring) : jsstring :=
  match process_env key with
  | Some (c :: v) => c :: v
  | _ => defaultValue
  end.

Definition getEnvEnum (key : string) (allowedValues : list jsstring)
    (defaultValue : jsstring) : jsstring :=
  match process_env key with
  | None => defaultValue
  | Some [] => defaultValue
  | Some value =>
    if Array_includes allowedValues value then value else defaultValue
  end.

End Environment.

Definition AVAILABLE_GEMINI_MODELS : list jsstring :=
  [js "gemini-1.5-pro"; js "gemini-1.5-flash"; js "gemini-2.0-flash-exp";
   js "gemini-2.5-pro"].

(** ** The configuration manager ([src/config/index.ts]) *)

Definition DEFAULT_ANALYSIS_OPTIONS : ImageAnalysisOptions :=
  mkOptions describe standard false false false false false.

(** [Partial<ImageAnalysisOptions>]. *)
Record PartialOptions : Type := mkPartialOptions {
  po_analysisType : option AnalysisType;
  po_detailLevel : option DetailLevel;
  po_includeConfidence : option bool;
  po_extractColors : option bool;
  po_detectFaces : option bool;
  po_readQRCodes : option bool;
  po_includeMetadata : option bool
}.

(** [mergeAnalysisOptions]: [{ ...this.defaultAnalysisOptions, ...options }];
    the default options of the manager are the compiled-in ones. *)
Definition mergeAnalysisOptions (options : PartialOptions)
    : ImageAnalysisOptions :=
  let d := DEFAULT_ANALYSIS_OPTIONS in
  mkOptions
    (spread (analysisType d) (po_analysisType options))
    (spread (detailLevel d) (po_detailLevel options))
    (spread (includeConfidence d) (po_includeConfidence options))
    (spread (extractColors d) (po_extractColors options))
    (spread (detectFaces d) (po_detectFaces options))
    (spread (readQRCodes d) (po_readQRCodes options))
    (spread (includeMetadata d) (po_includeMetadata options)).

(** What a failed [parse] of a zod schema throws; the text of its message
    is not modelled. *)
Definition ZodError : thrown := ThrowError (js "ZodError").

(** The constraints of [GeminiAnalysisConfigSchema] on a configuration
    whose fields have the right types: [temperature] between 0 and 1,
    [maxOutputTokens] positive. *)
Definition temperature_ok (t : Q) : bool := Qle_bool 0 t && Qle_bool t 1.
Definition positive_ok (k : Q) : bool := Qlt_bool 0 k.

Definition GeminiAnalysisConfigSchema_parse (c : GeminiAnalysisConfig)
    : Result thrown GeminiAnalysisConfig :=
  if temperature_ok (temperature c) && positive_ok (maxOutputTokens c)
  then Ok c else Err ZodError.

(** [updateGeminiConfig] of the manager, on its Gemini configuration. *)
Definition updateGeminiConfig (geminiConfig : GeminiAnalysisConfig)
    (newConfig : PartialConfig) : Result thrown GeminiAnalysisConfig :=
  let mergedConfig :=
    mkConfig
      (spread (model geminiConfig) (p_model newConfig))
      (spread (temperature geminiConfig) (p_temperature newConfig))
      (spread (maxOutputTokens geminiConfig) (p_maxOutputTokens newConfig))
      (spread (language geminiConfig) (p_language newConfig)) in
  GeminiAnalysisConfigSchema_parse mergedConfig.

(** ** The server ([src/mcp-server.ts]) *)

(** The state the tool handlers work on: the Gemini configuration and the
    size limit (in MB) of the configuration manager, and the client. *)
Record GeminiMCPServer : Type := mkServer {
  geminiConfig : GeminiAnalysisConfig;
  maxImageSize : Q;
  geminiClient : GeminiClient
}.

(** Arguments of the three tools, with fields of the right types; [None]
    is a property left out.  The schemas wrap the fields of the
    configuration schema in [optional()]: with zod 3 (the version of
    [package.json]) a property left out parses to [undefined], the default
    of the wrapped schema is not applied. *)
Record AnalyzeImageArgs : Type := mkAnalyzeArgs {
  image_path : jsstring;
  analysis_type : option AnalysisType;
  detail_level : option DetailLevel;
  arg_language : option Language;
  arg_model : option jsstring;
  arg_temperature : option Q
}.

Record BatchProcessArgs : Type := mkBatchArgs {
  directory_path : jsstring;
  file_pattern : option jsstring;
  analysis_options : option ImageAnalysisOptions;
  max_files : option Q
}.

Record ConfigureArgs : Type := mkConfigureArgs {
  cfg_model : option jsstring;
  cfg_temperature : option Q;
  cfg_language : option Language;
  cfg_max_tokens : option Q
}.

Definition optional_ok {A : Type} (ok : A -> bool) (o : option A) : bool :=
  match o with Some v => ok v | None => true end.

Definition AnalyzeImageToolSchema_parse (args : AnalyzeImageArgs)
    : Result thrown AnalyzeImageArgs :=
  if optional_ok temperature_ok (arg_temperature args)
  then Ok args else Err ZodError.

Definition BatchProcessImagesToolSchema_parse (args : BatchProcessArgs)
    : Result thrown BatchProcessArgs :=
  if optional_ok positive_ok (max_files args) then Ok args else Err ZodError.

Definition ConfigureGeminiSettingsToolSchema_parse (args : ConfigureArgs)
    : Result thrown ConfigureArgs :=
  if optional_ok temperature_ok (cfg_temperature args)
     && optional_ok positive_ok (cfg_max_tokens args)
  then Ok args else Err ZodError.

(** [x && { key: x }] inside a spread, for a string and for a number: the
    property is there when [x] is given and truthy. *)
Definition truthy_string (o : option jsstring) : option jsstring :=
  match o with
  | Some (c :: s) => Some (c :: s)
  | _ => None
  end.

Definition truthy_number (o : option Q) : option Q :=
  match o with
  | Some q => if Qeq_bool q 0 then None else Some q
  | None => None
  end.

(** [x || fallback]. *)
Definition or_else {A : Type} (o : option A) (fallback : A) : A :=
  match o with Some v => v | None => fallback end.

(** The options both analysis tools build. *)
Definition tool_options (type : option AnalysisType)
    (level : option DetailLevel) : ImageAnalysisOptions :=
  mergeAnalysisOptions
    (mkPartialOptions (Some (or_else type describe))
                      (Some (or_else level standard))
                      None None None None (Some true)).

(** What [batch_process_images] returns. *)
Inductive BatchToolOutput : Type :=
| NoImages (directory pattern : jsstring)
| Processed (processed_count total_found : nat)
            (batch_results : list AnalysisResult).

Section Server.

Variable Number_toString : Q -> jsstring.
Variable toLowerCase : jsstring -> jsstring.

(** [validateImageFile(path, maxSizeBytes)] of the file utilities. *)
Variable validateImageFile : jsstring -> Q -> Result thrown unit.

(** [getDirectoryFiles(directory)] of the file utilities. *)
Variable getDirectoryFiles : jsstring -> Result thrown (list jsstring).

(** The pattern [new RegExp(...)] builds from a file pattern, as the test it
    performs on a file name; building it can throw. *)
Variable pattern_RegExp : jsstring -> Result thrown (jsstring -> bool).

(** The surroundings of the analyses started by one call of a tool. *)
Variable env : nat -> Invocation.

Definition getImageFilesFromDirectory (directoryPath pattern : jsstring)
    (maxFiles : option Q) : Result thrown (list jsstring) :=
  allFiles <- getDirectoryFiles directoryPath ;;
  let imageFiles :=
    filter (fun file =>
              let fileName := getFileNameWithExtension file in
              isImageFile toLowerCase fileName)
           allFiles in
  imageFiles <-
    (if negb (jsstring_eqb pattern (js "*")) then
       test <- pattern_RegExp pattern ;;
       Ok (filter (fun file => test (getFileNameWithExtension file))
                  imageFiles)
     else Ok imageFiles) ;;
  let imageFiles :=
    match truthy_number maxFiles with
    | Some q =>
      if Qlt_bool 0 q then slice_range imageFiles 0 (Qfloor q)
      else imageFiles
    | None => imageFiles
    end in
  Ok imageFiles.

Definition getMaxImageSizeBytes (server : GeminiMCPServer) : Q :=
  (maxImageSize server * 1024 * 1024)%Q.

(** The handler of [analyze_image_with_gemini]: its outcome and the server
    afterwards. *)
Definition analyze_image_handler (server : GeminiMCPServer)
    (args : AnalyzeImageArgs)
    : Result thrown AnalysisResult * GeminiMCPServer :=
  match AnalyzeImageToolSchema_parse args with
  | Err e => (Err e, server)
  | Ok params =>
    let maxSize := getMaxImageSizeBytes server in
    match validateImageFile (image_path params) maxSize with
    | Err e => (Err e, server)
    | Ok _ =>
      let currentConfig := geminiConfig server in
      let tempConfig :=
        mkConfig
          (spread (model currentConfig) (truthy_string (arg_model params)))
          (spread (temperature currentConfig) (arg_temperature params))
          (maxOutputTokens currentConfig)
          (spread (language currentConfig) (arg_language params)) in
      let client := updateConfig (geminiClient server)
                                 (full_update tempConfig) in
      let server := mkServer (geminiConfig server) (maxImageSize server)
                             client in
      let options :=
        tool_options (analysis_type params) (detail_level params) in
      match analyzeImage Number_toString env client 0 (image_path params)
                         options with
      | Ok r => (Ok r, server)
      | Err e => (Err (ThrowGemini e), server)
      end
    end
  end.

(** The handler of [batch_process_images]; [None] stands for a batch that
    does not return. *)
Definition batch_process_images_handler (server : GeminiMCPServer)
    (args : BatchProcessArgs) : option (Result thrown BatchToolOutput) :=
  match BatchProcessImagesToolSchema_parse args with
  | Err e => Some (Err e)
  | Ok params =>
    let pattern :=
      or_else (truthy_string (file_pattern params)) (js "*") in
    match getImageFilesFromDirectory (directory_path params) pattern
            (Some (or_else (truthy_number (max_files params)) 10%Q)) with
    | Err e => Some (Err e)
    | Ok imagePaths =>
      if Nat.eqb (List.length imagePaths) 0 then
        Some (Ok (NoImages (directory_path params) pattern))
      else
        let options :=
          tool_options
            (match analysis_options params with
             | Some o => Some (analysisType o) | None => None end)
            (match analysis_options params with
             | Some o => Some (detailLevel o) | None => None end) in
        match batchAnalyze Number_toString env (geminiClient server)
                           imagePaths options with
        | Some run =>
          Some (Ok (Processed (List.length (results run))
                              (List.length imagePaths) (results run)))
        | None => None
        end
    end
  end.

(** The handler of [configure_gemini_settings]: the new configuration it
    reports and the server afterwards. *)
Definition configure_gemini_settings_handler (server : GeminiMCPServer)
    (args : ConfigureArgs)
    : Result thrown GeminiAnalysisConfig * GeminiMCPServer :=
  match ConfigureGeminiSettingsToolSchema_parse args with
  | Err e => (Err e, server)
  | Ok params =>
    let configUpdate :=
      mkPartial (truthy_string (cfg_model params))
                (cfg_temperature params)
                (truthy_number (cfg_max_tokens params))
                (cfg_language params) in
    match updateGeminiConfig (geminiConfig server) configUpdate with
    | Err e => (Err e, server)
    | Ok newConfig =>
      (Ok newConfig,
       mkServer newConfig (maxImageSize server)
                (updateConfig (geminiClient server) (full_update newConfig)))
    end
  end.

End Server.

(** ** The file system ([src/utils/file.ts]) *)

(** What [fs.stat] tells about a path. *)
Record Stats : Type := mkStats {
  stat_isDirectory : bool;
  stat_size : Q
}.

Section FileSystem.

(** [fs.access], [fs.stat], [fs.readdir] and [path.join]; each of the first
    three can reject. *)
Variable fs_access : jsstring -> Result thrown unit.
Variable fs_stat : jsstring -> Result thrown Stats.
Variable fs_readdir : jsstring -> Result thrown (list jsstring).
Variable join : jsstring -> jsstring -> jsstring.

Definition fileExists (filePath : jsstring) : bool :=
  match fs_access filePath with
  | Ok _ => true
  | Err _ => false
  end.

Definition isDirectory (filePath : jsstring) : bool :=
  match fs_stat filePath with
  | Ok stat => stat_isDirectory stat
  | Err _ => false
  end.

Definition getDirectoryFiles (directoryPath : jsstring)
    : Result GeminiMCPError (list jsstring) :=
  let attempt : Result thrown (list jsstring) :=
    if negb (fileExists directoryPath) then
      Err (ThrowGemini
             (createGeminiErrors_file.fileNotFound directoryPath []))
    else if negb (isDirectory directoryPath) then
      Err (ThrowGemini
             (createGeminiErrors_file.fileNotFound directoryPath
                [("reason"%string, VStr (js "Path is not a directory"))]))
    else
      files <- fs_readdir directoryPath ;;
      Ok (map (fun file => join directoryPath file) files) in
  match attempt with
  | Ok files => Ok files
  | Err error => Err (mapFileSystemError error directoryPath)
  end.

End FileSystem.

(** ** Advice on images ([src/utils/validation.ts]) *)

Record Recommendations : Type := mkRecommendations {
  rec_format : jsstring;
  recommendations : list jsstring;
  optimizations : list jsstring
}.

Section ImageAdvice.

Variable toLowerCase : jsstring -> jsstring.

Definition getImageRecommendations (filePath : jsstring) : Recommendations :=
  let extension := getFileExtension toLowerCase filePath in
  let recommendations := [] in
  let optimizations := [] in
  let '(recommendations, optimizations) :=
    if jsstring_eqb extension (js ".jpg")
       || jsstring_eqb extension (js ".jpeg") then
      (recommendations ++ [js "JPEG形式: 写真に最適"],
       optimizations ++ [js "品質80-90%で圧縮することを推奨"])
    else if jsstring_eqb extension (js ".png") then
      (recommendations ++ [js "PNG形式: 透明度やシンプルな画像に最適"],
       optimizations
       ++ [js "不要な透明度チャンネルがある場合はJPEGへの変換を検討"])
    else if jsstring_eqb extension (js ".webp") then
      (recommendations ++ [js "WebP形式: 高効率圧縮"],
       optimizations ++ [js "最も効率的な形式、そのまま使用推奨"])
    else if jsstring_eqb extension (js ".gif") then
      (recommendations ++ [js "GIF形式: アニメーション画像"],
       optimizations ++ [js "静止画の場合はPNGまたはJPEGへの変換を推奨"])
    else (recommendations ++ [js "不明な形式"], optimizations) in
  mkRecommendations extension recommendations optimizations.

End ImageAdvice.

Module Processing.

Inductive Complexity : Type := low | medium | high.

Record Prediction : Type := mkPrediction {
  estimatedSeconds : Z;
  complexity : Complexity;
  factors : list jsstring
}.

(** [predictProcessingTime(fileSize, analysisType = 'describe')]; [None] is
    an argument left out. *)
Definition predictProcessingTime (fileSize : Q)
    (analysisType : option jsstring) : Prediction :=
  let analysisType := or_else analysisType (js "describe") in
  let factors := [] in
  let baseTime := 2%Q in
  let complexity := low in
  let sizeMB := (fileSize / (1024 * 1024))%Q in
  let '(baseTime, complexity, factors) :=
    if Qlt_bool 5 sizeMB then
      ((baseTime + sizeMB * 0.5)%Q, high,
       factors ++ [js "大きなファイルサイズ"])
    else if Qlt_bool 2 sizeMB then
      ((baseTime + sizeMB * 0.2)%Q, medium,
       factors ++ [js "中程度のファイルサイズ"])
    else (baseTime, complexity, factors) in
  let '(baseTime, complexity, factors) :=
    if jsstring_eqb analysisType (js "ocr") then
      ((baseTime + 3)%Q,
       match complexity with low => medium | _ => high end,
       factors ++ [js "OCR処理（文字認識）"])
    else if jsstring_eqb analysisType (js "detect_objects") then
      ((baseTime + 2)%Q,
       match complexity with low => medium | c => c end,
       factors ++ [js "オブジェクト検出"])
    else if jsstring_eqb analysisType (js "classify") then
      ((baseTime + 1)%Q, complexity, factors ++ [js "画像分類"])
    else (baseTime, complexity, factors ++ [js "基本的な画像分析"]) in
  mkPrediction (Qceiling baseTime) complexity factors.

(** The levels in increasing order. *)
Definition rank (c : Complexity) : nat :=
  match c with low => 0 | medium => 1 | high => 2 end.

(** The seconds an analysis type adds. *)
Definition surcharge (analysisType : option jsstring) : Z :=
  let t := or_else analysisType (js "describe") in
  if jsstring_eqb t (js "ocr") then 3
  else if jsstring_eqb t (js "detect_objects") then 2
  else if jsstring_eqb t (js "classify") then 1
  else 0.

End Processing.

(** * Properties *)

(** ** Batch Orchestrator *)

Lemma fold_settle (outs : list (Result GeminiMCPError AnalysisResult)) :
  forall run,
    fold_left settle outs run
    = mkRun (results run ++ flat_map fulfilled outs)
            (logged run ++ flat_map rejected outs)
            (windows run).
Proof.
  induction outs as [|o outs IH]; intros run; simpl.
  - rewrite !app_nil_r. destruct run; reflexivity.
  - rewrite IH. destruct o; simpl; rewrite <- ?app_assoc; reflexivity.
Qed.

Lemma settled_count {E A : Type} (outs : list (Result E A)) :
  List.length (flat_map fulfilled outs) + List.length (flat_map rejected outs)
  = List.length outs.
Proof.
  induction outs as [|o outs IH]; simpl; [reflexivity|].
  destruct o; simpl; lia.
Qed.

Section BatchProperties.

Variable Number_toString : Q -> jsstring.
Variable env : nat -> Invocation.
Variable this : GeminiClient.
Variable options : ImageAnalysisOptions.

Local Abbreviation outcomes := (outcomesFrom Number_toString env this options).

Lemma outcomes_length (l : list jsstring) :
  forall i, List.length (outcomes i l) = List.length l.
Proof.
  induction l as [|p l IH]; intros i; simpl; [reflexivity|].
  now rewrite IH.
Qed.

Lemma outcomes_combine (l : list jsstring) :
  forall i,
    map (fun '(n, path) => analyzeImage Number_toString env this n path options)
        (combine (seq i (List.length l)) l)
    = outcomes i l.
Proof.
  induction l as [|p l IH]; intros i; simpl; [reflexivity|].
  now rewrite IH.
Qed.

Lemma outcomes_app (a b : list jsstring) :
  forall i, outcomes i (a ++ b) = outcomes i a ++ outcomes (i + List.length a) b.
Proof.
  induction a as [|p a IH]; intros i; simpl.
  - now rewrite Nat.add_0_r.
  - rewrite IH. now rewrite Nat.add_succ_r.
Qed.

(** Splitting off one window. *)
Lemma outcomes_window (c : nat) (l : list jsstring) (i : nat) :
  outcomes i l
  = outcomes i (firstn c l) ++ outcomes (i + c) (skipn c l).
Proof.
  rewrite <- (firstn_skipn c l) at 1.
  rewrite outcomes_app.
  destruct (Nat.le_gt_cases c (List.length l)) as [Hle|Hgt].
  - now rewrite firstn_length_le.
  - rewrite (skipn_all2 l) by lia. reflexivity.
Qed.

Lemma window_shape_cons (c : nat) (l : list jsstring) (ws : list (list jsstring)) :
  0 < c -> l <> [] ->
  List.concat ws = skipn c l -> window_shape c ws ->
  window_shape c (firstn c l :: ws).
Proof.
  intros Hc Hl Hcat Hws.
  destruct ws as [|w ws'].
  - simpl. rewrite length_firstn. destruct l; [congruence|]. simpl. lia.
  - change (List.length (firstn c l) = c /\ window_shape c (w :: ws')).
    split; [|exact Hws].
    assert (Hw : w <> []).
    { simpl in Hws. destruct ws'; destruct w; simpl in *; try lia; congruence. }
    assert (Hs : skipn c l <> []).
    { rewrite <- Hcat. simpl. destruct w; [congruence|discriminate]. }
    apply firstn_length_le.
    destruct (Nat.le_gt_cases c (List.length l)); [assumption|].
    exfalso. apply Hs. apply skipn_all2. lia.
Qed.

(** The loop from index [i], with the inputs not yet dispatched [l]. *)
Lemma batchLoop_spec (c : nat) (paths : list jsstring) :
  0 < c ->
  forall fuel i l run,
    l = skipn i paths -> List.length l <= fuel ->
    exists ws,
      batchLoop Number_toString env fuel c this paths options i run
      = Some (mkRun (results run ++ flat_map fulfilled (outcomes i l))
                    (logged run ++ flat_map rejected (outcomes i l))
                    (windows run ++ ws))
      /\ List.concat ws = l /\ window_shape c ws.
Proof.
  intros Hc fuel.
  induction fuel as [|fuel IH]; intros i l run Hl Hfuel.
  - assert (E : l = []) by (destruct l; simpl in *; [reflexivity|lia]).
    rewrite E in *. clear E.
    exists []. simpl.
    assert (Hi : (i <? List.length paths) = false).
    { apply Nat.ltb_ge.
      assert (Hn : List.length (skipn i paths) = 0) by (rewrite <- Hl; reflexivity).
      rewrite length_skipn in Hn. lia. }
    rewrite Hi. rewrite !app_nil_r. destruct run; auto.
  - simpl. destruct (i <? List.length paths) eqn:Hi.
    + apply Nat.ltb_lt in Hi.
      unfold slice. replace (i + c - i) with c by lia.
      rewrite <- Hl. rewrite outcomes_combine. rewrite fold_settle. simpl.
      assert (Hne : l <> []).
      { intros E. assert (Hn : List.length (skipn i paths) = 0) by (rewrite <- Hl, E; reflexivity).
        rewrite length_skipn in Hn. lia. }
      destruct (IH (i + c) (skipn c l)
                   (mkRun (results run ++ flat_map fulfilled (outcomes i (firstn c l)))
                          (logged run ++ flat_map rejected (outcomes i (firstn c l)))
                          (windows run ++ [firstn c l])))
        as [ws [Hrun [Hcat Hshape]]].
      * rewrite Hl. rewrite skipn_skipn. f_equal. lia.
      * rewrite length_skipn.
        assert (0 < List.length l) by (destruct l; [congruence|simpl; lia]). lia.
      * exists (firstn c l :: ws). rewrite Hrun. simpl.
        rewrite (outcomes_window c l i), !flat_map_app, <- !app_assoc. simpl.
        split; [reflexivity|]. split.
        -- rewrite Hcat. apply firstn_skipn.
        -- apply window_shape_cons; assumption.
    + apply Nat.ltb_ge in Hi.
      assert (E : l = []) by (rewrite Hl; apply skipn_all2; assumption).
      rewrite E. exists []. simpl. rewrite !app_nil_r. destruct run; auto.
Qed.

Lemma fulfilled_In (l : list jsstring) (v : AnalysisResult) :
  forall i,
    In v (flat_map fulfilled (outcomes i l))
    <-> exists n path,
          nth_error l n = Some path
          /\ analyzeImage Number_toString env this (i + n) path options = Ok v.
Proof.
  induction l as [|p l IH]; intros i; simpl.
  - split; [tauto|]. intros [n [path [H _]]]. destruct n; discriminate.
  - rewrite in_app_iff, IH. split.
    + intros [H|[n [path [Hn Ha]]]].
      * exists 0, p. rewrite Nat.add_0_r. split; [reflexivity|].
        destruct (analyzeImage _ _ _ _ _ _); simpl in H; [|tauto].
        destruct H as [<-|[]]. reflexivity.
      * exists (S n), path. rewrite Nat.add_succ_r. auto.
    + intros [[|n] [path [Hn Ha]]]; simpl in Hn.
      * left. injection Hn as <-. rewrite Nat.add_0_r in Ha. rewrite Ha.
        simpl. auto.
      * right. exists n, path. rewrite Nat.add_succ_r in Ha. auto.
Qed.


Lemma batchAnalyzeWith_spec (c : nat) (paths : list jsstring) :
  0 < c ->
  exists ws,
    batchAnalyzeWith Number_toString env c this paths options
    = Some (mkRun (flat_map fulfilled (outcomes 0 paths))
                  (flat_map rejected (outcomes 0 paths)) ws)
    /\ List.concat ws = paths /\ window_shape c ws.
Proof.
  intros Hc. unfold batchAnalyzeWith.
  destruct (batchLoop_spec c paths Hc (List.length paths) 0 paths (mkRun [] [] [])
              eq_refl (le_n _))
    as [ws [H [Hcat Hshape]]].
  exists ws. auto.
Qed.

End BatchProperties.




(** C10.  The array a batch returns lists the values of the successful
    inputs in input order, one value for each of them: it is what is left
    of the sequence of settlements, taken in input order over the whole
    batch, when the failures are dropped.  The window size has no influence
    on it. *)
Theorem batch_preserves_input_order
    (Number_toString : Q -> jsstring) (env : nat -> Invocation)
    (this : GeminiClient) (options : ImageAnalysisOptions)
    (imagePaths : list jsstring) :
  (exists run,
     batchAnalyze Number_toString env this imagePaths options = Some run
     /\ results run
        = flat_map (fun '(n, path) =>
                      fulfilled (analyzeImage Number_toString env this n path
                                              options))
            (combine (seq 0 (List.length imagePaths)) imagePaths))
  /\ (forall c c' run run',
        0 < c -> 0 < c' ->
        batchAnalyzeWith Number_toString env c this imagePaths options
        = Some run ->
        batchAnalyzeWith Number_toString env c' this imagePaths options
        = Some run' ->
        results run = results run').
Proof.
  split.
  - unfold batchAnalyze, getMaxConcurrentRequests,
      DEFAULT_MAX_CONCURRENT_REQUESTS.
    destruct (batchAnalyzeWith_spec Number_toString env this options
                3 imagePaths ltac:(lia)) as [ws [Hrun _]].
    eexists. split; [exact Hrun|]. simpl.
    rewrite <- (outcomes_combine Number_toString env this options imagePaths 0).
    rewrite flat_map_concat_map, map_map, <- flat_map_concat_map.
    apply flat_map_ext. intros [n path]. reflexivity.
  - intros c c' run run' Hc Hc' Hrun Hrun'.
    destruct (batchAnalyzeWith_spec Number_toString env this options
                c imagePaths Hc) as [ws [H _]].
    destruct (batchAnalyzeWith_spec Number_toString env this options
                c' imagePaths Hc') as [ws' [H' _]].
    rewrite H in Hrun. rewrite H' in Hrun'.
    injection Hrun as <-. injection Hrun' as <-. reflexivity.
Qed.

(** ** Strings *)

Lemma cu_eqb_eq (a b : N) : cu_eqb a b = true <-> a = b.
Proof. apply N.eqb_eq. Qed.

Lemma jsstring_eqb_eq (a : jsstring) :
  forall b, jsstring_eqb a b = true <-> a = b.
Proof.
  induction a as [|x a IH]; intros [|y b]; simpl;
    try (split; [discriminate|discriminate]); try tauto.
  rewrite andb_true_iff, cu_eqb_eq, IH.
  split; [intros [-> ->]; reflexivity | intros H; injection H; auto].
Qed.

Lemma starts_with_spec (needle : jsstring) :
  forall s, starts_with needle s = true <-> exists post, s = needle ++ post.
Proof.
  induction needle as [|x needle IH]; intros s; simpl.
  - split; [intros _; exists s; reflexivity | reflexivity].
  - destruct s as [|y s].
    + split; [discriminate | intros [post H]; discriminate].
    + rewrite andb_true_iff, cu_eqb_eq, IH. split.
      * intros [-> [post ->]]. exists post. reflexivity.
      * intros [post H]. injection H as -> ->. eauto.
Qed.

Lemma includes_spec (needle s : jsstring) :
  includes s needle = true <-> contains s needle.
Proof.
  unfold contains. induction s as [|y s IH].
  - simpl. rewrite orb_false_r, starts_with_spec. split.
    + intros [post H]. exists [], post. exact H.
    + intros [pre [post H]]. destruct pre as [|z pre]; [|discriminate].
      exists post. exact H.
  - cbn [includes]. rewrite orb_true_iff, starts_with_spec, IH. split.
    + intros [[post H]|[pre [post H]]].
      * exists [], post. exact H.
      * exists (y :: pre), post. rewrite H. reflexivity.
    + intros [[|z pre] [post H]].
      * left. exists post. exact H.
      * right. injection H as -> ->. eauto.
Qed.

Lemma includes_false (needle s : jsstring) :
  includes s needle = false <-> ~ contains s needle.
Proof.
  rewrite <- includes_spec. destruct (includes s needle); split; intros H;
    try reflexivity; try discriminate; try (intros E; discriminate).
  exfalso. apply H. reflexivity.
Qed.

(** ** Process Runner *)



(** ** Configuration *)

(** C9.  [updateConfig] merges: a field the update names takes the value
    given, a field it leaves out keeps its value; the empty update changes
    nothing, and applying an update twice is the same as applying it once. *)
Theorem updateConfig_partial_merge
    (this : GeminiClient) (newConfig : PartialConfig) :
  let before := getConfig this in
  let after := getConfig (updateConfig this newConfig) in
  ((forall v, p_model newConfig = Some v -> model after = v)
   /\ (p_model newConfig = None -> model after = model before))
  /\ ((forall v, p_temperature newConfig = Some v -> temperature after = v)
      /\ (p_temperature newConfig = None ->
          temperature after = temperature before))
  /\ ((forall v, p_maxOutputTokens newConfig = Some v ->
                 maxOutputTokens after = v)
      /\ (p_maxOutputTokens newConfig = None ->
          maxOutputTokens after = maxOutputTokens before))
  /\ ((forall v, p_language newConfig = Some v -> language after = v)
      /\ (p_language newConfig = None -> language after = language before))
  /\ updateConfig this (mkPartial None None None None) = this
  /\ updateConfig (updateConfig this newConfig) newConfig
     = updateConfig this newConfig.
Proof.
  destruct this as [[m t k l]], newConfig as [[pm|] [pt|] [pk|] [pl|]];
    cbn; repeat split; intros; congruence.
Qed.

(** ** Command Builder *)

Lemma template_distinct (a b : AnalysisType) :
  base_template a = base_template b -> a = b.
Proof.
  destruct a, b; intros H; try reflexivity;
    apply (proj2 (jsstring_eqb_eq _ _)) in H; vm_compute in H; discriminate H.
Qed.

(** C8.  The instruction is the language preamble of the configuration
    followed by the base template of the analysis type, the qualifier of the
    detail level and the clauses of the active flags in the order confidence,
    colours, faces, QR.  The four templates differ from one another; the
    standard level adds nothing and the two other levels add different
    clauses; the preambles of [ja] and [en] are different non-empty sentences
    and [auto] has none. *)
Theorem buildAnalysisPrompt_structure
    (this : GeminiClient) (options : ImageAnalysisOptions) :
  buildAnalysisPrompt this options
  = instruction_as_specified (language (config this)) options
  /\ flag_order = [FConfidence; FColors; FFaces; FQR]
  /\ (forall a b, base_template a = base_template b -> a = b)
  /\ detail_qualifier standard = []
  /\ detail_qualifier brief <> []
  /\ detail_qualifier detailed <> []
  /\ detail_qualifier brief <> detail_qualifier detailed
  /\ language_preamble auto = []
  /\ language_preamble ja <> []
  /\ language_preamble en <> []
  /\ language_preamble ja <> language_preamble en.
Proof.
  split.
  - unfold buildAnalysisPrompt, instruction_as_specified, base_template,
      flag_order.
    destruct this as [[m t k l]], options as [ty lv fc fk ff fq fm].
    cbn [config language analysisType detailLevel includeConfidence
         extractColors detectFaces readQRCodes filter flag_active].
    destruct l, lv, fc, fk, ff, fq;
      cbn [language_preamble detail_qualifier map flag_clause List.concat];
      rewrite ?app_nil_l, ?app_nil_r, <- ?app_assoc; reflexivity.
  - split; [reflexivity|]. split; [exact template_distinct|].
    split; [reflexivity|].
    repeat split; intros H; apply (proj2 (jsstring_eqb_eq _ _)) in H;
      vm_compute in H; discriminate H.
Qed.

Section CommandBuilder.

Variable Number_toString : Q -> jsstring.

(** C3.  With the model, the temperature and the token limit all at their
    compiled-in defaults the argument list is the tool identifier, the
    prompt flag with the instruction and the file flag with the path, and
    nothing else.  In general those five arguments come first and are
    followed by the model flag, the temperature flag and the token flag,
    each with its value and each present exactly when its value differs
    from the default. *)
Theorem buildGeminiCommand_minimal
    (this : GeminiClient) (prompt imagePath : jsstring) :
  let cfg := config this in
  let args := buildGeminiCommand Number_toString this prompt imagePath in
  (model cfg = model DEFAULT_GEMINI_CONFIG ->
   (temperature cfg == temperature DEFAULT_GEMINI_CONFIG)%Q ->
   (maxOutputTokens cfg == maxOutputTokens DEFAULT_GEMINI_CONFIG)%Q ->
   args = [js "@google-ai/generative-ai-cli"; js "--prompt"; prompt;
           js "--file"; imagePath])
  /\ exists m t k,
       args = base_arguments prompt imagePath ++ m ++ t ++ k
       /\ (model cfg = model DEFAULT_GEMINI_CONFIG -> m = [])
       /\ (model cfg <> model DEFAULT_GEMINI_CONFIG ->
           m = [js "--model"; model cfg])
       /\ ((temperature cfg == temperature DEFAULT_GEMINI_CONFIG)%Q ->
           t = [])
       /\ (~ (temperature cfg == temperature DEFAULT_GEMINI_CONFIG)%Q ->
           t = [js "--temperature"; Number_toString (temperature cfg)])
       /\ ((maxOutputTokens cfg == maxOutputTokens DEFAULT_GEMINI_CONFIG)%Q ->
           k = [])
       /\ (~ (maxOutputTokens cfg == maxOutputTokens DEFAULT_GEMINI_CONFIG)%Q ->
           k = [js "--max-tokens"; Number_toString (maxOutputTokens cfg)]).
Proof.
  intros cfg args. subst args. unfold buildGeminiCommand. fold cfg.
  fold (base_arguments prompt imagePath).
  destruct (jsstring_eqb (model cfg) (model DEFAULT_GEMINI_CONFIG)) eqn:Em;
  destruct (Qeq_bool (temperature cfg) (temperature DEFAULT_GEMINI_CONFIG))
    eqn:Et;
  destruct (Qeq_bool (maxOutputTokens cfg)
              (maxOutputTokens DEFAULT_GEMINI_CONFIG)) eqn:Ek;
  cbn [negb];
  try apply jsstring_eqb_eq in Em;
  try apply Qeq_bool_iff in Et; try apply Qeq_bool_iff in Ek;
  try (assert (Em' : model cfg <> model DEFAULT_GEMINI_CONFIG)
         by (intros E; apply jsstring_eqb_eq in E; congruence));
  try (assert (Et' : ~ (temperature cfg == temperature DEFAULT_GEMINI_CONFIG)%Q)
         by (intros E; apply Qeq_bool_iff in E; congruence));
  try (assert (Ek' : ~ (maxOutputTokens cfg
                        == maxOutputTokens DEFAULT_GEMINI_CONFIG)%Q)
         by (intros E; apply Qeq_bool_iff in E; congruence));
  (split; [intros; try reflexivity; tauto|]);
  match goal with
  | |- exists m t k, ?args = _ /\ _ =>
    exists (if jsstring_eqb (model cfg) (model DEFAULT_GEMINI_CONFIG)
            then [] else [js "--model"; model cfg]),
           (if Qeq_bool (temperature cfg) (temperature DEFAULT_GEMINI_CONFIG)
            then [] else [js "--temperature";
                          Number_toString (temperature cfg)]),
           (if Qeq_bool (maxOutputTokens cfg)
                        (maxOutputTokens DEFAULT_GEMINI_CONFIG)
            then [] else [js "--max-tokens";
                          Number_toString (maxOutputTokens cfg)])
  end;
  try (rewrite (proj2 (jsstring_eqb_eq _ _) Em));
  try (rewrite (proj2 (Qeq_bool_iff _ _) Et));
  try (rewrite (proj2 (Qeq_bool_iff _ _) Ek));
  try (destruct (jsstring_eqb (model cfg) (model DEFAULT_GEMINI_CONFIG));
       [congruence|]);
  try (destruct (Qeq_bool (temperature cfg)
                   (temperature DEFAULT_GEMINI_CONFIG)); [congruence|]);
  try (destruct (Qeq_bool (maxOutputTokens cfg)
                   (maxOutputTokens DEFAULT_GEMINI_CONFIG)); [congruence|]);
  rewrite ?app_nil_r, <- ?app_assoc;
  repeat split; intros; try reflexivity; try tauto.
Qed.

End CommandBuilder.

Lemma buildGeminiCommand_minimal_witness :
  model (config Sample.client) = model DEFAULT_GEMINI_CONFIG
  /\ buildGeminiCommand Sample.toString Sample.client (js "p") (js "/img/a.jpg")
     = [js "@google-ai/generative-ai-cli"; js "--prompt"; js "p";
        js "--file"; js "/img/a.jpg"].
Proof.
  split; [reflexivity|].
  apply (buildGeminiCommand_minimal Sample.toString Sample.client (js "p")
           (js "/img/a.jpg")); reflexivity.
Defined.

(** ** The matcher *)

Lemma takeWhile_dropWhile (p : N -> bool) (s : jsstring) :
  takeWhile p s ++ dropWhile p s = s.
Proof.
  induction s as [|c s IH]; simpl; [reflexivity|].
  destruct (p c); simpl; [now rewrite IH | reflexivity].
Qed.

Lemma takeWhile_all (p : N -> bool) (s : jsstring) :
  forallb p (takeWhile p s) = true.
Proof.
  induction s as [|c s IH]; simpl; [reflexivity|].
  destruct (p c) eqn:E; simpl; [now rewrite E, IH | reflexivity].
Qed.

Lemma skipn_takeWhile (p : N -> bool) (s : jsstring) :
  skipn (List.length (takeWhile p s)) s = dropWhile p s.
Proof.
  induction s as [|c s IH]; simpl; [reflexivity|].
  destruct (p c); simpl; [exact IH | reflexivity].
Qed.

Lemma takeWhile_app_stop (p : N -> bool) (w rest : jsstring) :
  forallb p w = true ->
  match rest with [] => True | c :: _ => p c = false end ->
  takeWhile p (w ++ rest) = w /\ dropWhile p (w ++ rest) = rest.
Proof.
  induction w as [|c w IH]; simpl; intros Hw Hrest.
  - destruct rest as [|c rest]; [auto|]. simpl. rewrite Hrest. auto.
  - apply andb_true_iff in Hw. destruct Hw as [Hc Hw]. rewrite Hc.
    destruct (IH Hw Hrest) as [-> ->]. auto.
Qed.

Lemma star_sound (p : N -> bool) (s : jsstring) :
  forall pos caps k x,
    star p pos s caps k = Some x ->
    exists w rest,
      s = w ++ rest /\ forallb p w = true
      /\ k (pos + List.length w) rest caps = Some x.
Proof.
  induction s as [|c s IH]; intros pos caps k x H; simpl in H.
  - exists [], []. simpl. rewrite Nat.add_0_r. auto.
  - destruct (p c) eqn:Ec.
    + destruct (star p (S pos) s caps k) as [y|] eqn:Es.
      * injection H as <-. destruct (IH _ _ _ _ Es) as [w [rest [-> [Hw Hk]]]].
        exists (c :: w), rest. simpl. rewrite Ec, Hw.
        rewrite Nat.add_succ_r. auto.
      * exists [], (c :: s). simpl. rewrite Nat.add_0_r. auto.
    + exists [], (c :: s). simpl. rewrite Nat.add_0_r. auto.
Qed.

(** The repetition takes as many characters as it can when the rest of the
    pattern then succeeds. *)
Lemma star_greedy (p : N -> bool) (s : jsstring) :
  forall pos caps (k : cont) x,
    k (pos + List.length (takeWhile p s)) (dropWhile p s) caps = Some x ->
    star p pos s caps k = Some x.
Proof.
  induction s as [|c s IH]; intros pos caps k x H; simpl in *.
  - now rewrite Nat.add_0_r in H.
  - destruct (p c).
    + simpl in H. rewrite Nat.add_succ_r in H.
      now rewrite (IH (S pos) caps k x H).
    + simpl in H. now rewrite Nat.add_0_r in H.
Qed.

(** When the rest of the pattern cannot start on a character of the class,
    giving characters back never helps. *)
Lemma star_maximal (p : N -> bool) (k : cont) :
  (forall pos c r caps, p c = true -> k pos (c :: r) caps = None) ->
  forall s pos caps,
    star p pos s caps k
    = k (pos + List.length (takeWhile p s)) (dropWhile p s) caps.
Proof.
  intros Hk. induction s as [|c s IH]; intros pos caps; simpl.
  - now rewrite Nat.add_0_r.
  - destruct (p c) eqn:Ec; simpl.
    + rewrite IH, Nat.add_succ_r.
      destruct (k _ _ _) eqn:E; [reflexivity|]. now apply Hk.
    + now rewrite Nat.add_0_r.
Qed.

Lemma star_accept (p : N -> bool) (s : jsstring) (pos : nat)
    (caps : list jsstring) :
  star p pos s caps accept
  = Some (pos + List.length (takeWhile p s), caps).
Proof. now apply star_greedy. Qed.

Lemma firstn_length_app {A : Type} (w rest : list A) :
  firstn (List.length w) (w ++ rest) = w.
Proof.
  induction w as [|c w IH]; simpl; [reflexivity | now rewrite IH].
Qed.

Lemma skipn_length_app {A : Type} (w rest : list A) :
  skipn (List.length w) (w ++ rest) = rest.
Proof.
  induction w as [|c w IH]; simpl; [reflexivity | exact IH].
Qed.

(** Every successful run of the matcher is a match in the sense of [den]. *)
Lemma rx_sound (r : regex) :
  forall pos s caps k x,
    rx r pos s caps k = Some x ->
    exists w rest cs,
      s = w ++ rest /\ den r pos w cs
      /\ k (pos + List.length w) rest (caps ++ cs) = Some x.
Proof.
  induction r as [|p|l|p|p|r IH|r1 IH1 r2 IH2|r IH];
    intros pos s caps k x H; simpl in H.
  - destruct (Nat.eqb pos 0) eqn:E; [|discriminate].
    apply Nat.eqb_eq in E. exists [], s, []. simpl.
    rewrite Nat.add_0_r, app_nil_r. auto.
  - destruct s as [|c s]; [discriminate|].
    destruct (p c) eqn:E; [|discriminate].
    exists [c], s, []. simpl. rewrite Nat.add_1_r, app_nil_r. eauto 6.
  - destruct (starts_with l s) eqn:E; [|discriminate].
    apply starts_with_spec in E. destruct E as [post ->].
    rewrite skipn_length_app in H.
    exists l, post, []. simpl. rewrite app_nil_r. auto.
  - apply star_sound in H. destruct H as [w [rest [-> [Hw Hk]]]].
    exists w, rest, []. simpl. rewrite app_nil_r. auto.
  - destruct s as [|c s]; [discriminate|].
    destruct (p c) eqn:E; [|discriminate].
    apply star_sound in H. destruct H as [w [rest [-> [Hw Hk]]]].
    exists (c :: w), rest, []. simpl. rewrite E, Hw, app_nil_r.
    rewrite Nat.add_succ_r. repeat split; auto. discriminate.
  - destruct (rx r pos s caps k) as [y|] eqn:E.
    + injection H as <-. destruct (IH _ _ _ _ _ E) as [w [rest [cs [-> [Hd Hk]]]]].
      exists w, rest, cs. simpl. auto.
    + exists [], s, []. simpl. rewrite Nat.add_0_r, app_nil_r. auto.
  - destruct (IH1 _ _ _ _ _ H) as [w1 [rest1 [c1 [-> [Hd1 H2]]]]].
    destruct (IH2 _ _ _ _ _ H2) as [w2 [rest2 [c2 [-> [Hd2 Hk]]]]].
    exists (w1 ++ w2), rest2, (c1 ++ c2). simpl.
    rewrite <- app_assoc. split; [reflexivity|]. split.
    + exists w1, w2, c1, c2. auto.
    + rewrite length_app, Nat.add_assoc, app_assoc. exact Hk.
  - destruct (IH _ _ _ _ _ H) as [w [rest [cs [-> [Hd Hk]]]]].
    exists w, rest, (cs ++ [w]). simpl. split; [reflexivity|]. split.
    + exists cs. auto.
    + replace (pos + List.length w - pos) with (List.length w) in Hk by lia.
      rewrite firstn_length_app in Hk. now rewrite app_assoc.
Qed.

(** A successful search reports a match in the sense of [den]. *)
Lemma search_sound (r : regex) (s : jsstring) :
  forall pos m,
    search r pos s = Some m ->
    exists pre rest,
      s = pre ++ matched m ++ rest
      /\ index m = pos + List.length pre
      /\ den r (index m) (matched m) (groups m).
Proof.
  induction s as [|c s IH]; intros pos m H; simpl in H.
  - destruct (rx r pos [] [] accept) as [[e caps]|] eqn:E; [|discriminate].
    injection H as <-. apply rx_sound in E.
    destruct E as [w [rest [cs [Hs [Hd Hk]]]]].
    unfold accept in Hk. injection Hk as <- <-.
    symmetry in Hs. apply app_eq_nil in Hs. destruct Hs as [-> ->].
    exists [], []. simpl. rewrite Nat.add_0_r. rewrite firstn_nil. auto.
  - destruct (rx r pos (c :: s) [] accept) as [[e caps]|] eqn:E.
    + injection H as <-. apply rx_sound in E.
      destruct E as [w [rest [cs [Hs [Hd Hk]]]]].
      unfold accept in Hk. injection Hk as <- <-.
      exists [], rest. cbn [index matched groups]. rewrite Hs.
      replace (pos + List.length w - pos) with (List.length w) by lia.
      rewrite firstn_length_app, Nat.add_0_r. auto.
    + destruct (IH _ _ H) as [pre [rest [Hs [Hi Hd]]]].
      exists (c :: pre), rest. simpl. rewrite <- Hs.
      rewrite Nat.add_succ_r. auto.
Qed.

Lemma match_sound (s : jsstring) (r : regex) (m : MatchResult) :
  String_match s r = Some m ->
  exists pre rest,
    s = pre ++ matched m ++ rest /\ den r (index m) (matched m) (groups m).
Proof.
  intros H. apply search_sound in H.
  destruct H as [pre [rest [Hs [_ Hd]]]]. eauto.
Qed.

Ltac break :=
  repeat match goal with
         | H : exists _, _ |- _ => destruct H
         | H : _ /\ _ |- _ => destruct H
         end.

(** What a match of each pattern captures. *)
Lemma value_capture (label : jsstring) (raw : jsstring) (m : MatchResult) :
  String_match raw
    (Seq (Lit label)
         (Seq (Cls (one_of colon_chars))
              (Seq (Star is_space) (Group (Plus not_LF))))) = Some m ->
  exists g, groups m = [g] /\ g <> [].
Proof.
  intros H. apply match_sound in H. destruct H as [pre [rest [_ Hd]]].
  cbn [den] in Hd. break. subst. simpl in *. eauto.
Qed.

Lemma color_capture (raw : jsstring) (m : MatchResult) :
  String_match raw re_color = Some m ->
  exists g, groups m = [g] /\ g <> [].
Proof.
  intros H. apply match_sound in H. destruct H as [pre [rest [_ Hd]]].
  cbn [den re_color] in Hd. break. subst. simpl in *. eauto.
Qed.

Lemma confidence_capture (raw : jsstring) (m : MatchResult) :
  String_match raw re_confidence = Some m ->
  exists g, groups m = [g] /\ decimal_literal g.
Proof.
  intros H. apply match_sound in H. destruct H as [pre [rest [_ Hd]]].
  cbn [den re_confidence] in Hd. break.
  repeat match goal with
         | H : _ \/ _ |- _ => destruct H
         end; break; subst;
  match goal with
  | H : groups m = _ |- _ => simpl in H
  end;
  match goal with
  | H : groups m = [?ds ++ ?fr] |- _ =>
    exists (ds ++ fr); split; [exact H|]; exists ds, fr
  end;
  (split; [reflexivity|]); (split; [assumption|]); (split; [assumption|]);
  first [ left; reflexivity
        | right; eexists; split; [reflexivity|]; auto ].
Qed.

(** ** Numbers *)

Lemma digits_val_nonneg (ds : jsstring) :
  forallb is_digit ds = true -> (0 <= digits_val ds)%Z.
Proof.
  unfold digits_val.
  assert (G : forall acc, (0 <= acc)%Z -> forallb is_digit ds = true ->
                          (0 <= fold_left (fun a c => 10 * a + digit_val c) ds acc)%Z).
  { induction ds as [|c ds IH]; intros acc Hacc Hds;
      cbn [fold_left forallb] in *; [assumption|].
    apply andb_true_iff in Hds. destruct Hds as [Hc Hds].
    apply IH; [|assumption].
    unfold is_digit in Hc. apply andb_true_iff in Hc. destruct Hc as [Hlo _].
    apply N.leb_le in Hlo. unfold digit_val. lia. }
  intros H. apply G; [lia|assumption].
Qed.

Lemma Q_parts_nonneg (a b : Z) (p : positive) :
  (0 <= a)%Z -> (0 <= b)%Z -> (0 <= inject_Z a + (b # p))%Q.
Proof.
  intros Ha Hb. unfold Qle, Qplus, inject_Z. simpl. nia.
Qed.

(** [parseFloat] never yields a negative number. *)
Lemma parseFloat_nonneg (s : jsstring) :
  forall v, parseFloat s = Num v -> (0 <= v)%Q.
Proof.
  intros v. unfold parseFloat.
  assert (Hi := takeWhile_all is_digit s).
  assert (Hf : forallb is_digit
                 match dropWhile is_digit s with
                 | c :: r' => if cu_eqb c 46 then takeWhile is_digit r' else []
                 | [] => []
                 end = true).
  { destruct (dropWhile is_digit s) as [|c r']; [reflexivity|].
    destruct (cu_eqb c 46); [apply takeWhile_all | reflexivity]. }
  revert Hi Hf.
  generalize (takeWhile is_digit s) as ip.
  generalize (match dropWhile is_digit s with
              | c :: r' => if cu_eqb c 46 then takeWhile is_digit r' else []
              | [] => []
              end) as fp.
  intros fp ip Hi Hf H.
  assert (Hv : v = (inject_Z (digits_val ip)
                    + (digits_val fp # Pos.pow 10 (Pos.of_nat (List.length fp))))%Q).
  { destruct ip, fp; try discriminate; injection H as <-; reflexivity. }
  rewrite Hv. apply Q_parts_nonneg; apply digits_val_nonneg; assumption.
Qed.

(** On a decimal literal [parseFloat] yields a number. *)
Lemma parseFloat_decimal (g : jsstring) :
  decimal_literal g -> exists v, parseFloat g = Num v /\ (0 <= v)%Q.
Proof.
  intros [ds [frac [-> [Hne [Hds _]]]]].
  destruct ds as [|d ds]; [congruence|].
  simpl in Hds. apply andb_true_iff in Hds. destruct Hds as [Hd _].
  assert (E : exists v, parseFloat ((d :: ds) ++ frac) = Num v).
  { unfold parseFloat. simpl. rewrite Hd. eexists. reflexivity. }
  destruct E as [v Hv]. exists v. split; [exact Hv|].
  eapply parseFloat_nonneg. exact Hv.
Qed.

(** ** Result Extractor *)

Lemma confidence_of_match (raw : jsstring) (m : MatchResult) :
  String_match raw re_confidence = Some m ->
  exists g v,
    groups m = [g] /\ decimal_literal g
    /\ parseFloat g = Num v /\ (0 <= v)%Q
    /\ extractConfidenceScore raw
       = if Qle_bool v 1 then Num v else Num (v / 100)%Q.
Proof.
  intros H. destruct (confidence_capture raw m H) as [g [Hg Hlit]].
  destruct (parseFloat_decimal g Hlit) as [v [Hv Hpos]].
  exists g, v. repeat split; try assumption.
  unfold extractConfidenceScore. rewrite H. unfold group. rewrite Hg.
  simpl. rewrite Hv. simpl. destruct (Qle_bool v 1); reflexivity.
Qed.

(** *** Confidence extraction *)






Lemma extractConfidenceScore_range (raw : jsstring) :
  exists q,
    extractConfidenceScore raw = Num q /\ (0 <= q)%Q
    /\ ((q <= 1)%Q
        \/ exists m g v,
             String_match raw re_confidence = Some m /\ groups m = [g]
             /\ parseFloat g = Num v /\ (100 < v)%Q
             /\ q = (v / 100)%Q /\ (1 < q)%Q).
Proof.
  destruct (String_match raw re_confidence) as [m|] eqn:Hm.
  - destruct (confidence_of_match raw m Hm) as [g [v [Hg [_ [Hv [Hpos He]]]]]].
    destruct (Qle_bool v 1) eqn:E.
    + apply Qle_bool_iff in E. exists v. auto.
    + exists (v / 100)%Q. split; [exact He|]. split.
      * apply Qle_shift_div_l; [reflexivity|]. now rewrite Qmult_0_l.
      * destruct (Qlt_le_dec 100 v) as [Hbig|Hsmall].
        -- right. exists m, g, v. repeat split; try assumption.
           apply Qlt_shift_div_l; [reflexivity|]. now rewrite Qmult_1_l.
        -- left. apply Qle_shift_div_r; [reflexivity|]. now rewrite Qmult_1_l.
  - exists 0.8%Q. unfold extractConfidenceScore. rewrite Hm.
    split; [reflexivity|]. split; [|left]; unfold Qle; simpl; lia.
Qed.

Lemma categories_total (raw : jsstring) :
  exists l, extractCategories raw = Ok l.
Proof.
  unfold extractCategories.
  destruct (String_match raw re_category) as [m|] eqn:Hc;
    destruct (String_match raw re_tag) as [m'|] eqn:Ht.
  all: try (destruct (value_capture _ raw m Hc) as [g [Hg _]]).
  all: try (destruct (value_capture _ raw m' Ht) as [g' [Hg' _]]).
  all: unfold receiver, group; rewrite ?Hg, ?Hg'; simpl; eauto.
Qed.

Lemma colors_total (raw : jsstring) :
  exists l, extractColorInfo raw = Ok l.
Proof.
  unfold extractColorInfo.
  destruct (String_match raw re_color) as [m|] eqn:Hc; [|eauto].
  destruct (color_capture raw m Hc) as [g [Hg _]].
  unfold receiver, group. rewrite Hg. simpl. eauto.
Qed.

Lemma filter_none {A : Type} (f : A -> bool) (l : list A) :
  (forall x, In x l -> f x = false) -> filter f l = [].
Proof.
  induction l as [|a l IH]; intros H; simpl; [reflexivity|].
  rewrite (H a (or_introl eq_refl)). apply IH. intros x Hx. apply H. now right.
Qed.

Section Extraction.

Variable env : nat -> Invocation.

Lemma parse_confidence (n : nat) (raw path : jsstring)
    (options : ImageAnalysisOptions) (t : Z) (r : AnalysisResult) :
  parseAnalysisResult env n raw path options t = Ok r ->
  confidence r
  = if includeConfidence options then extractConfidenceScore raw
    else Num 0.8%Q.
Proof.
  unfold parseAnalysisResult.
  destruct (extractImageMetadata env n path) as [md|e]; [|discriminate].
  cbn [bind].
  destruct (analysisType options); cbn [bind];
    repeat match goal with
           | |- context [bind ?c _] => destruct c; cbn [bind]
           | |- context [if extractColors options then _ else _] =>
             destruct (extractColors options)
           end;
    try discriminate; intros H;
    repeat match type of H with
           | context [match ?a with pair _ _ => _ end] => destruct a
           | context [bind ?c _] => destruct c; cbn [bind] in H
           end;
    try discriminate H; injection H as <-; reflexivity.
Qed.

(** C4.  The four extractions give a value on every text.  Category and
    colour extraction, the two that call a method on a capture, never raise;
    confidence extraction gives a number, not [NaN]; list extraction cannot
    raise at all.  A pattern that does not match gives the empty list of
    objects, the empty list of categories, the default confidence and the
    empty list of colours, as does the empty text.  Whatever the options,
    parsing raises only if the metadata collaborator does. *)
Theorem extraction_never_raises (raw : jsstring) :
  (exists l, extractCategories raw = Ok l)
  /\ (exists l, extractColorInfo raw = Ok l)
  /\ (exists q, extractConfidenceScore raw = Num q)
  /\ ((forall line,
         In line (split_on (cu_eqb LF) raw) ->
         String_match line re_bullet = None
         /\ String_match line re_numbered = None) ->
      extractObjectsList raw = [])
  /\ (String_match raw re_category = None ->
      String_match raw re_tag = None ->
      extractCategories raw = Ok [])
  /\ (String_match raw re_confidence = None ->
      extractConfidenceScore raw = DEFAULT_CONFIDENCE_SCORE)
  /\ (String_match raw re_color = None -> extractColorInfo raw = Ok [])
  /\ (extractObjectsList [] = []
      /\ extractCategories [] = Ok []
      /\ extractConfidenceScore [] = DEFAULT_CONFIDENCE_SCORE
      /\ extractColorInfo [] = Ok [])
  /\ (forall n path options t md,
        extractBasicImageMetadata (env n) path = Ok md ->
        exists r, parseAnalysisResult env n raw path options t = Ok r).
Proof.
  split; [apply categories_total|].
  split; [apply colors_total|].
  split.
  { destruct (extractConfidenceScore_range raw) as [q [Hq _]]. eauto. }
  split.
  { intros H. unfold extractObjectsList.
    rewrite (filter_none
               (fun line => truthy (String_match line re_bullet)
                            || truthy (String_match line re_numbered)));
      [reflexivity|].
    intros line Hin. destruct (H line Hin) as [-> ->]. reflexivity. }
  split.
  { intros Hc Ht. unfold extractCategories. now rewrite Hc, Ht. }
  split.
  { intros H. unfold extractConfidenceScore. now rewrite H. }
  split.
  { intros H. unfold extractColorInfo. now rewrite H. }
  split.
  { repeat split; vm_compute; reflexivity. }
  intros n path options t md Hmd.
  unfold parseAnalysisResult, extractImageMetadata. rewrite Hmd. cbn [bind].
  destruct (categories_total raw) as [cs Hcs].
  destruct (colors_total raw) as [cl Hcl].
  destruct (analysisType options); cbn [bind]; rewrite ?Hcs; cbn [bind];
    destruct (extractColors options); rewrite ?Hcl; cbn [bind]; eauto.
Qed.


End Extraction.



(** *** List extraction *)

Lemma search_bos (r : regex) (s : jsstring) :
  forall pos, search (Seq Bos r) (S pos) s = None.
Proof.
  induction s as [|c s IH]; intros pos; simpl; [reflexivity | apply IH].
Qed.

(** An anchored pattern can only match at the start. *)
Lemma match_bos (s : jsstring) (r : regex) :
  String_match s (Seq Bos r)
  = match rx r 0 s [] accept with
    | Some (e, caps) => Some (mkMatch 0 (firstn e s) caps)
    | None => None
    end.
Proof.
  unfold String_match. destruct s as [|c s]; simpl.
  - destruct (rx r 0 [] [] accept) as [[e caps]|]; [|reflexivity].
    now rewrite Nat.sub_0_r.
  - destruct (rx r 0 (c :: s) [] accept) as [[e caps]|].
    + now rewrite Nat.sub_0_r.
    + apply search_bos.
Qed.

Lemma replace_bos (s : jsstring) (r : regex) (e : nat)
    (caps : list jsstring) :
  rx r 0 s [] accept = Some (e, caps) -> e <= List.length s ->
  String_replace s (Seq Bos r) [] = skipn e s.
Proof.
  intros H He. unfold String_replace. rewrite match_bos, H. simpl.
  now rewrite firstn_length_le.
Qed.

Lemma replace_bos_none (s : jsstring) (r : regex) :
  rx r 0 s [] accept = None -> String_replace s (Seq Bos r) [] = s.
Proof.
  intros H. unfold String_replace. now rewrite match_bos, H.
Qed.

Lemma takeWhile_length (p : N -> bool) (s : jsstring) :
  List.length (takeWhile p s) <= List.length s.
Proof.
  induction s as [|c s IH]; simpl; [lia|]. destruct (p c); simpl; lia.
Qed.

(** The bullet pattern on a line. *)
Lemma bullet_run (line : jsstring) :
  rx (Seq (Cls (one_of bullet_chars)) (Plus is_space)) 0 line [] accept
  = if bullet_item line
    then Some (2 + List.length (takeWhile is_space (tl (tl line))), [])
    else None.
Proof.
  destruct line as [|c [|w r]]; cbn [rx bullet_item tl].
  - reflexivity.
  - destruct (one_of bullet_chars c); reflexivity.
  - destruct (one_of bullet_chars c); cbn [andb]; [|reflexivity].
    destruct (is_space w); [|reflexivity].
    apply star_accept.
Qed.

Lemma bullet_match (line : jsstring) :
  truthy (String_match line re_bullet) = bullet_item line.
Proof.
  unfold re_bullet. rewrite match_bos, bullet_run.
  destruct (bullet_item line); reflexivity.
Qed.

Lemma bullet_replace (line : jsstring) :
  String_replace line re_bullet [] = strip_bullet line.
Proof.
  unfold re_bullet, strip_bullet.
  assert (H := bullet_run line).
  destruct (bullet_item line) eqn:E.
  - rewrite (replace_bos _ _ _ _ H).
    + destruct line as [|c [|w r]]; try discriminate.
      cbn [bullet_item] in E. apply andb_true_iff in E. destruct E as [_ Ew].
      cbn [tl skipn Nat.add List.length dropWhile]. rewrite Ew.
      apply skipn_takeWhile.
    + destruct line as [|c [|w r]]; try discriminate.
      cbn [tl List.length].
      pose proof (takeWhile_length is_space r). lia.
  - now apply replace_bos_none.
Qed.

Lemma digit_not_dot (c : N) : is_digit c = true -> cu_eqb 46 c = false.
Proof.
  intros H. unfold cu_eqb. destruct (N.eqb_spec 46 c) as [<-|]; [|reflexivity].
  vm_compute in H. discriminate H.
Qed.

Lemma cu_eqb_sym (a b : N) : cu_eqb a b = cu_eqb b a.
Proof. apply N.eqb_sym. Qed.

Lemma skipn_app_length {A : Type} (a b : list A) (k : nat) :
  skipn (List.length a + k) (a ++ b) = skipn k b.
Proof.
  induction a as [|x a IH]; simpl; [reflexivity | exact IH].
Qed.

(** The numbered pattern on a line. *)
Lemma numbered_run (line : jsstring) :
  rx (Seq (Plus is_digit) (Seq (Lit dot) (Plus is_space))) 0 line [] accept
  = if numbered_item line
    then Some (List.length (takeWhile is_digit line)
               + (2 + List.length
                        (takeWhile is_space
                           (tl (tl (dropWhile is_digit line))))), [])
    else None.
Proof.
  unfold numbered_item.
  destruct line as [|d s1]; cbn [rx takeWhile dropWhile]; [reflexivity|].
  destruct (is_digit d) eqn:Ed; [|reflexivity].
  rewrite star_maximal.
  - cbn [dot starts_with List.length skipn].
    destruct (dropWhile is_digit s1) as [|x [|w r]];
      cbn [starts_with skipn tl]; try reflexivity.
    + rewrite andb_true_r. destruct (cu_eqb 46 x); reflexivity.
    + rewrite andb_true_r, (cu_eqb_sym x 46).
      destruct (cu_eqb 46 x); cbn [andb]; [|reflexivity].
      destruct (is_space w); [|reflexivity].
      rewrite star_accept. f_equal. f_equal. lia.
  - intros pos c r caps Hc. cbn [dot starts_with].
    now rewrite (digit_not_dot c Hc).
Qed.

Lemma numbered_match (line : jsstring) :
  truthy (String_match line re_numbered) = numbered_item line.
Proof.
  unfold re_numbered. rewrite match_bos, numbered_run.
  destruct (numbered_item line); reflexivity.
Qed.

Lemma numbered_replace (line : jsstring) :
  String_replace line re_numbered [] = strip_number line.
Proof.
  unfold re_numbered, strip_number.
  assert (H := numbered_run line).
  destruct (numbered_item line) eqn:E.
  - unfold numbered_item in E.
    assert (Hsplit := takeWhile_dropWhile is_digit line).
    destruct (takeWhile is_digit line) as [|d ds] eqn:Et; [discriminate|].
    destruct (dropWhile is_digit line) as [|x [|w r]] eqn:Ed;
      try discriminate.
    apply andb_true_iff in E. destruct E as [_ Ew].
    cbn [tl] in *.
    rewrite (replace_bos _ _ _ _ H).
    + rewrite <- Hsplit. rewrite skipn_app_length.
      cbn [skipn Nat.add dropWhile]. rewrite Ew. apply skipn_takeWhile.
    + rewrite <- Hsplit. rewrite length_app. cbn [List.length].
      pose proof (takeWhile_length is_space r). lia.
  - now apply replace_bos_none.
Qed.

Lemma extractObjectsList_spec (raw : jsstring) :
  extractObjectsList raw
  = filter (fun item => 0 <? List.length item)
      (map (fun line => trim (strip_number (strip_bullet line)))
         (filter (fun line => bullet_item line || numbered_item line)
            (split_on (cu_eqb LF) raw))).
Proof.
  unfold extractObjectsList. f_equal.
  rewrite (filter_ext _ (fun line => bullet_item line || numbered_item line)).
  - apply map_ext. intros line.
    now rewrite bullet_replace, numbered_replace.
  - intros line. now rewrite bullet_match, numbered_match.
Qed.

Lemma bullet_item_spec (line : jsstring) :
  bullet_item line = true
  <-> exists c w rest,
        line = c :: w :: rest
        /\ (c = 45 \/ c = 42 \/ c = 8226)%N /\ is_space w = true.
Proof.
  split.
  - destruct line as [|c [|w rest]]; try discriminate.
    cbn [bullet_item]. intros H. apply andb_true_iff in H.
    destruct H as [Hc Hw]. exists c, w, rest. split; [reflexivity|].
    split; [|exact Hw].
    unfold one_of, bullet_chars in Hc. cbn [existsb] in Hc.
    rewrite !orb_true_iff in Hc. unfold cu_eqb in Hc.
    rewrite !N.eqb_eq in Hc. intuition discriminate.
  - intros [c [w [rest [-> [Hc Hw]]]]]. cbn [bullet_item]. rewrite Hw.
    destruct Hc as [-> | [-> | ->]]; reflexivity.
Qed.

Lemma numbered_item_spec (line : jsstring) :
  numbered_item line = true
  <-> exists ds w rest,
        line = ds ++ 46%N :: w :: rest
        /\ ds <> [] /\ forallb is_digit ds = true /\ is_space w = true.
Proof.
  unfold numbered_item. split.
  - intros H.
    assert (Hsplit := takeWhile_dropWhile is_digit line).
    assert (Hall := takeWhile_all is_digit line).
    destruct (takeWhile is_digit line) as [|d ds]; [discriminate|].
    destruct (dropWhile is_digit line) as [|x [|w rest]]; try discriminate.
    apply andb_true_iff in H. destruct H as [Hx Hw].
    apply cu_eqb_eq in Hx. subst x.
    exists (d :: ds), w, rest. split; [now rewrite Hsplit|].
    split; [discriminate|]. auto.
  - intros [ds [w [rest [-> [Hne [Hds Hw]]]]]].
    destruct (takeWhile_app_stop is_digit ds (46%N :: w :: rest) Hds eq_refl)
      as [-> ->].
    destruct ds; [congruence|]. now rewrite Hw.
Qed.

(** C7, as the code has it.  List extraction splits the text into lines at
    line feeds and keeps the lines that open with a bullet character (-, *
    or the bullet sign) followed by at least one blank, or with digits, a
    period and at least one blank; a marker that is not followed by a blank
    does not count.  From a kept line it removes the opening bullet with its
    blanks, then an opening number with its period and blanks, then the
    blanks at both ends, and it drops the entry if nothing is left.  Entries
    stay in line order and repeated entries stay repeated. *)
Theorem extractObjectsList_markers (raw : jsstring) :
  extractObjectsList raw
  = filter (fun item => 0 <? List.length item)
      (map (fun line => trim (strip_number (strip_bullet line)))
         (filter (fun line => bullet_item line || numbered_item line)
            (split_on (cu_eqb LF) raw)))
  /\ (forall line,
        bullet_item line = true
        <-> exists c w rest,
              line = c :: w :: rest
              /\ (c = 45 \/ c = 42 \/ c = 8226)%N /\ is_space w = true)
  /\ (forall line,
        numbered_item line = true
        <-> exists ds w rest,
              line = ds ++ 46%N :: w :: rest
              /\ ds <> [] /\ forallb is_digit ds = true
              /\ is_space w = true)
  /\ extractObjectsList
       (js "- apple" ++ [LF] ++ js "* banana" ++ [LF] ++ js "1. cherry"
        ++ [LF] ++ js "notaitem")
     = [js "apple"; js "banana"; js "cherry"]
  /\ extractObjectsList (js "• pear" ++ [LF] ++ js "-" ++ [LF] ++ js "• pear")
     = [js "pear"; js "pear"]
  /\ extractObjectsList (js "- 1. plum") = [js "plum"].
Proof.
  split; [apply extractObjectsList_spec|].
  split; [apply bullet_item_spec|].
  split; [apply numbered_item_spec|].
  repeat split; vm_compute; reflexivity.
Qed.

(** C7 as stated fails: a line that begins with a bullet character but has
    no blank after it is not kept. *)
Lemma marker_without_blank_is_dropped :
  begins_with_marker (js "-apple") = true
  /\ listExtraction_as_stated (js "-apple") = [js "apple"]
  /\ extractObjectsList (js "-apple") = [].
Proof.
  repeat split; vm_compute; reflexivity.
Qed.

(** * Further properties of the client *)

Section SingleAnalysis.

Variable Number_toString : Q -> jsstring.
Variable env : nat -> Invocation.
Variable this : GeminiClient.
Variable n : nat.
Variable imagePath : jsstring.
Variable options : ImageAnalysisOptions.

Local Abbreviation command :=
  (buildGeminiCommand Number_toString this
     (buildAnalysisPrompt this options) imagePath).

Lemma parse_fields (raw : jsstring) (t : Z) (md : ImageMetadata) :
  extractBasicImageMetadata (env n) imagePath = Ok md ->
  exists objs cols,
    parseAnalysisResult env n raw imagePath options t
    = Ok (mkResult raw objs
            (match analysisType options with ocr => raw | _ => [] end)
            md
            (if includeConfidence options then extractConfidenceScore raw
             else Num 0.8%Q)
            cols t)
    /\ Ok objs
       = match analysisType options with
         | classify => extractCategories raw
         | detect_objects => Ok (extractObjectsList raw)
         | _ => Ok []
         end
    /\ Ok cols
       = (if extractColors options then extractColorInfo raw else Ok []).
Proof.
  intros Hmd. unfold parseAnalysisResult, extractImageMetadata.
  rewrite Hmd. cbn [bind].
  destruct (categories_total raw) as [cs Hcs].
  destruct (colors_total raw) as [cl Hcl].
  destruct (analysisType options); cbn [bind]; rewrite ?Hcs; cbn [bind];
    destruct (extractColors options); rewrite ?Hcl; cbn [bind];
    eexists; eexists; (split; [reflexivity|]); split; reflexivity.
Qed.

(** X1.  A single analysis succeeds exactly when the child closes with exit
    code 0 and the metadata can be read; what the child wrote to standard
    error plays no part.  The result then has the trimmed standard output as
    its description, the metadata as read and the measured time; the text is
    filled for [ocr] only, the objects for [detect_objects] and [classify]
    only, and confidence and colours keep 0.8 and the empty list unless
    their flags are set. *)
Theorem analyzeImage_success :
  ((exists r,
      analyzeImage Number_toString env this n imagePath options = Ok r)
   <-> exists stdout stderr md,
         spawn_npx (env n) command = Closed stdout stderr (Some 0%Z)
         /\ extractBasicImageMetadata (env n) imagePath = Ok md)
  /\ (forall stdout stderr md,
        spawn_npx (env n) command = Closed stdout stderr (Some 0%Z) ->
        extractBasicImageMetadata (env n) imagePath = Ok md ->
        exists r,
          analyzeImage Number_toString env this n imagePath options = Ok r
          /\ description r = trim stdout
          /\ metadata r = md
          /\ processingTime r = elapsed (env n)
          /\ text r
             = match analysisType options with
               | ocr => trim stdout
               | _ => []
               end
          /\ Ok (objects r)
             = match analysisType options with
               | classify => extractCategories (trim stdout)
               | detect_objects => Ok (extractObjectsList (trim stdout))
               | _ => Ok []
               end
          /\ confidence r
             = (if includeConfidence options
                then extractConfidenceScore (trim stdout)
                else Num 0.8%Q)
          /\ Ok (colors r)
             = (if extractColors options
                then extractColorInfo (trim stdout)
                else Ok [])).
Proof.
  assert (Hgood : forall stdout stderr md,
    spawn_npx (env n) command = Closed stdout stderr (Some 0%Z) ->
    extractBasicImageMetadata (env n) imagePath = Ok md ->
    exists objs cols,
      analyzeImage Number_toString env this n imagePath options
      = Ok (mkResult (trim stdout) objs
              (match analysisType options with ocr => trim stdout | _ => [] end)
              md
              (if includeConfidence options
               then extractConfidenceScore (trim stdout) else Num 0.8%Q)
              cols (elapsed (env n)))
      /\ Ok objs
         = match analysisType options with
           | classify => extractCategories (trim stdout)
           | detect_objects => Ok (extractObjectsList (trim stdout))
           | _ => Ok []
           end
      /\ Ok cols
         = (if extractColors options
            then extractColorInfo (trim stdout) else Ok [])).
  { intros stdout stderr md Hs Hmd.
    destruct (parse_fields (trim stdout) (elapsed (env n)) md Hmd)
      as [objs [cols [Hp [Ho Hc]]]].
    exists objs, cols. split; [|auto].
    unfold analyzeImage, executeGeminiCommand. rewrite Hs.
    cbn [onClose bind]. rewrite Hp. reflexivity. }
  split.
  - split.
    + intros [r Hr]. unfold analyzeImage, executeGeminiCommand in Hr.
      destruct (spawn_npx (env n) command) as [stdout stderr c|msg] eqn:Hs;
        [|discriminate].
      destruct c as [[|p|p]|]; try discriminate.
      exists stdout, stderr. cbn [onClose bind] in Hr.
      unfold parseAnalysisResult, extractImageMetadata in Hr.
      destruct (extractBasicImageMetadata (env n) imagePath) as [md|[e|m]];
        [eauto | discriminate | discriminate].
    + intros [stdout [stderr [md [Hs Hmd]]]].
      destruct (Hgood stdout stderr md Hs Hmd) as [objs [cols [H _]]]. eauto.
  - intros stdout stderr md Hs Hmd.
    destruct (Hgood stdout stderr md Hs Hmd) as [objs [cols [H [Ho Hc]]]].
    eexists. split; [exact H|]. cbn. auto 10.
Qed.

(** X2.  A single analysis that fails reports one classified error.  A child
    that closes with another code than 0 gives the error of the close
    handler, and the metadata is not looked at; a child that cannot be run
    gives the error of the process mapping; an error of the metadata
    collaborator is passed on unchanged when it is already classified and
    goes through the process mapping otherwise.  So the kind of a failure is
    authentication, rate limit, timeout or network unless the metadata
    collaborator supplied it. *)
Theorem analyzeImage_failure :
  (forall stdout stderr c,
     spawn_npx (env n) command = Closed stdout stderr c -> c <> Some 0%Z ->
     analyzeImage Number_toString env this n imagePath options
     = Err (mapChildProcessError stderr stdout c))
  /\ (forall msg,
        spawn_npx (env n) command = Errored msg ->
        analyzeImage Number_toString env this n imagePath options
        = Err (mapProcessError msg))
  /\ (forall stdout stderr e,
        spawn_npx (env n) command = Closed stdout stderr (Some 0%Z) ->
        extractBasicImageMetadata (env n) imagePath = Err (ThrowGemini e) ->
        analyzeImage Number_toString env this n imagePath options = Err e)
  /\ (forall stdout stderr msg,
        spawn_npx (env n) command = Closed stdout stderr (Some 0%Z) ->
        extractBasicImageMetadata (env n) imagePath = Err (ThrowError msg) ->
        analyzeImage Number_toString env this n imagePath options
        = Err (mapProcessError msg))
  /\ (forall e,
        analyzeImage Number_toString env this n imagePath options = Err e ->
        code e = GEMINI_AUTH_ERROR \/ code e = RATE_LIMIT_EXCEEDED
        \/ code e = ANALYSIS_TIMEOUT \/ code e = NETWORK_ERROR
        \/ extractBasicImageMetadata (env n) imagePath
           = Err (ThrowGemini e)).
Proof.
  assert (Hchild : forall stderr stdout c,
    code (mapChildProcessError stderr stdout c) = GEMINI_AUTH_ERROR
    \/ code (mapChildProcessError stderr stdout c) = RATE_LIMIT_EXCEEDED
    \/ code (mapChildProcessError stderr stdout c) = NETWORK_ERROR).
  { intros. unfold mapChildProcessError.
    destruct (_ || _); [auto|]. destruct (_ || _); auto. }
  assert (Hproc : forall msg,
    code (mapProcessError msg) = ANALYSIS_TIMEOUT
    \/ code (mapProcessError msg) = NETWORK_ERROR).
  { intros. unfold mapProcessError. destruct (includes _ _); auto. }
  split.
  { intros stdout stderr c Hs Hc. unfold analyzeImage, executeGeminiCommand.
    rewrite Hs. destruct c as [[|p|p]|]; try reflexivity. congruence. }
  split.
  { intros msg Hs. unfold analyzeImage, executeGeminiCommand.
    now rewrite Hs. }
  split.
  { intros stdout stderr e Hs Hmd.
    unfold analyzeImage, executeGeminiCommand. rewrite Hs.
    cbn [onClose bind]. unfold parseAnalysisResult, extractImageMetadata.
    now rewrite Hmd. }
  split.
  { intros stdout stderr msg Hs Hmd.
    unfold analyzeImage, executeGeminiCommand. rewrite Hs.
    cbn [onClose bind]. unfold parseAnalysisResult, extractImageMetadata.
    now rewrite Hmd. }
  intros e He. unfold analyzeImage, executeGeminiCommand in He.
  destruct (spawn_npx (env n) command) as [stdout stderr c|msg] eqn:Hs.
  - destruct c as [[|p|p]|]; cbn [onClose bind] in He;
      try (injection He as <-;
           destruct (Hchild stderr stdout (Some (Z.pos p))) as [H|[H|H]];
           tauto);
      try (injection He as <-;
           destruct (Hchild stderr stdout (Some (Z.neg p))) as [H|[H|H]];
           tauto);
      try (injection He as <-;
           destruct (Hchild stderr stdout None) as [H|[H|H]]; tauto).
    destruct (extractBasicImageMetadata (env n) imagePath) as [md|[e'|m]] eqn:Hmd.
    + destruct (parse_fields (trim stdout) (elapsed (env n)) md Hmd)
        as [objs [cols [Hp _]]].
      rewrite Hp in He. discriminate.
    + unfold parseAnalysisResult, extractImageMetadata in He.
      rewrite Hmd in He. cbn [bind] in He. injection He as <-. auto 6.
    + unfold parseAnalysisResult, extractImageMetadata in He.
      rewrite Hmd in He. cbn [bind] in He. injection He as <-.
      destruct (Hproc m); tauto.
  - cbn [bind] in He. injection He as <-. destruct (Hproc msg); tauto.
Qed.

End SingleAnalysis.

(** ** Categories and colours *)

Lemma dropWhile_head (p : N -> bool) (s : jsstring) :
  match dropWhile p s with [] => True | c :: _ => p c = false end.
Proof.
  induction s as [|c s IH]; simpl; [exact I|].
  destruct (p c) eqn:E; [exact IH | exact E].
Qed.

Lemma dropWhile_keeps_last (p : N -> bool) (c : N) (a : jsstring) :
  p c = false -> exists w, dropWhile p (a ++ [c]) = w ++ [c].
Proof.
  intros Hc. induction a as [|x a IH]; simpl.
  - rewrite Hc. exists []. reflexivity.
  - destruct (p x); [exact IH|]. exists (x :: a). reflexivity.
Qed.

Lemma forallb_dropWhile (q p : N -> bool) (s : jsstring) :
  forallb q s = true -> forallb q (dropWhile p s) = true.
Proof.
  induction s as [|c s IH]; simpl; [auto|]. intros H.
  apply andb_true_iff in H. destruct H as [Hc Hs].
  destruct (p c); [auto|]. simpl. now rewrite Hc, Hs.
Qed.

Lemma forallb_rev (q : N -> bool) (s : jsstring) :
  forallb q s = true -> forallb q (rev s) = true.
Proof.
  intros H. apply forallb_forall. intros x Hx.
  apply in_rev in Hx. rewrite forallb_forall in H. auto.
Qed.

Lemma forallb_trim (q : N -> bool) (s : jsstring) :
  forallb q s = true -> forallb q (trim s) = true.
Proof.
  intros H. unfold trim.
  apply forallb_rev, forallb_dropWhile, forallb_rev, forallb_dropWhile, H.
Qed.

(** [trim] leaves no blank at either end. *)
Lemma trim_ends (s : jsstring) :
  match trim s with [] => True | c :: _ => is_space c = false end
  /\ match rev (trim s) with [] => True | c :: _ => is_space c = false end.
Proof.
  unfold trim. split.
  - assert (Hu := dropWhile_head is_space s).
    destruct (dropWhile is_space s) as [|c u]; [exact I|].
    simpl rev.
    destruct (dropWhile_keeps_last is_space c (rev u) Hu) as [w ->].
    rewrite rev_app_distr. simpl. exact Hu.
  - rewrite rev_involutive. apply dropWhile_head.
Qed.

Lemma split_on_pieces (sep q : N -> bool) (s : jsstring) :
  forallb q s = true ->
  forall x, In x (split_on sep s) ->
            forallb (fun c => negb (sep c)) x = true /\ forallb q x = true.
Proof.
  induction s as [|c s IH]; simpl; intros Hq x Hx.
  - destruct Hx as [<-|[]]. auto.
  - apply andb_true_iff in Hq. destruct Hq as [Hc Hs].
    destruct (sep c) eqn:E.
    + destruct Hx as [<-|Hx]; [auto | now apply IH].
    + destruct (split_on sep s) as [|cur more] eqn:Es.
      * destruct Hx as [<-|[]]. simpl. now rewrite E, Hc.
      * destruct Hx as [<-|Hx].
        -- destruct (IH Hs cur (or_introl eq_refl)) as [H1 H2].
           simpl. now rewrite E, Hc, H1, H2.
        -- apply IH; [assumption | now right].
Qed.

Lemma split_on_nonempty (sep : N -> bool) (s : jsstring) :
  split_on sep s <> [].
Proof.
  destruct s as [|c s]; simpl; [discriminate|].
  destruct (sep c); [discriminate|].
  destruct (split_on sep s); discriminate.
Qed.

Lemma split_trim_clean (g : jsstring) :
  forallb not_LF g = true ->
  split_trim g <> [] /\ Forall clean_piece (split_trim g).
Proof.
  intros Hg. unfold split_trim. split.
  - pose proof (split_on_nonempty (one_of comma_chars) g) as H.
    destruct (split_on (one_of comma_chars) g); [congruence|discriminate].
  - apply Forall_forall. intros x Hx. apply in_map_iff in Hx.
    destruct Hx as [y [<- Hy]].
    destruct (split_on_pieces (one_of comma_chars) not_LF g Hg y Hy)
      as [H1 H2].
    destruct (trim_ends y) as [Ha Hb].
    unfold clean_piece. repeat split; try assumption.
    + now apply forallb_trim.
    + now apply forallb_trim.
Qed.

Lemma value_capture_chars (label raw : jsstring) (m : MatchResult) :
  String_match raw
    (Seq (Lit label)
         (Seq (Cls (one_of colon_chars))
              (Seq (Star is_space) (Group (Plus not_LF))))) = Some m ->
  exists g, groups m = [g] /\ forallb not_LF g = true.
Proof.
  intros H. apply match_sound in H. destruct H as [pre [rest [_ Hd]]].
  cbn [den] in Hd. break. subst. simpl in *. eauto.
Qed.

(** X3.  Category extraction returns the pieces of the category field
    followed by the pieces of the tag field.  A field that is present
    contributes at least one piece (its value split at commas of either
    kind, each piece trimmed, empty pieces kept); a field that is absent
    contributes nothing.  No piece begins or ends with a blank or contains a
    comma or a line feed. *)
Theorem extractCategories_pieces (raw : jsstring) :
  exists cs ts,
    extractCategories raw = Ok (cs ++ ts)
    /\ match String_match raw re_category with
       | None => cs = []
       | Some m => exists g, groups m = [g] /\ cs = split_trim g /\ cs <> []
       end
    /\ match String_match raw re_tag with
       | None => ts = []
       | Some m => exists g, groups m = [g] /\ ts = split_trim g /\ ts <> []
       end
    /\ Forall clean_piece (cs ++ ts).
Proof.
  unfold extractCategories.
  destruct (String_match raw re_category) as [m|] eqn:Hc;
    destruct (String_match raw re_tag) as [m'|] eqn:Ht.
  all: try (destruct (value_capture_chars _ raw m Hc) as [g [Hg Hq]];
            destruct (split_trim_clean g Hq) as [Hne Hcl]).
  all: try (destruct (value_capture_chars _ raw m' Ht) as [g' [Hg' Hq']];
            destruct (split_trim_clean g' Hq') as [Hne' Hcl']).
  all: unfold receiver, group; rewrite ?Hg, ?Hg'; cbn [nth_error Nat.sub bind app].
  - exists (split_trim g), (split_trim g'). split; [reflexivity|].
    split; [eauto|]. split; [eauto|]. apply Forall_app. auto.
  - exists (split_trim g), []. rewrite app_nil_r. split; [reflexivity|].
    split; [eauto|]. split; [reflexivity|]. exact Hcl.
  - exists [], (split_trim g'). split; [reflexivity|].
    split; [reflexivity|]. split; [eauto|]. exact Hcl'.
  - exists [], []. repeat split. constructor.
Qed.

Lemma fold_left_push {A B : Type} (f : A -> bool) (g : A -> B) (l : list A) :
  forall init,
    fold_left (fun acc x => if f x then acc ++ [g x] else acc) l init
    = init ++ map g (filter f l).
Proof.
  induction l as [|x l IH]; intros init; simpl.
  - now rewrite app_nil_r.
  - rewrite IH. destruct (f x); simpl; [now rewrite <- app_assoc | reflexivity].
Qed.

Lemma basicColors_NoDup : NoDup basicColors.
Proof.
  unfold basicColors.
  repeat (constructor;
          [ intros H; repeat (destruct H as [H|H];
                              [ apply (proj2 (jsstring_eqb_eq _ _)) in H;
                                vm_compute in H; discriminate H | ]);
            exact H | ]).
  constructor.
Qed.

Lemma NoDup_filter {A : Type} (f : A -> bool) (l : list A) :
  NoDup l -> NoDup (filter f l).
Proof.
  induction 1 as [|x l Hx Hl IH]; simpl; [constructor|].
  destruct (f x); [|exact IH]. constructor; [|exact IH].
  intros H. apply filter_In in H. tauto.
Qed.

(** X4.  Colour extraction lists the names of the fixed vocabulary that
    occur in the value of the colour field, in the order of the vocabulary
    and not of the text, each once and each with the same placeholder
    share and RGB triple; without a colour field the list is empty.  So it
    never has more than nine entries. *)
Theorem extractColorInfo_vocabulary (raw : jsstring) :
  exists l,
    extractColorInfo raw = Ok l
    /\ match String_match raw re_color with
       | None => l = []
       | Some m =>
         exists value,
           groups m = [value]
           /\ l = map placeholder_color
                    (filter (includes value) basicColors)
       end
    /\ (forall c, In c l ->
                  In (color c) basicColors
                  /\ percentage c = Num 0.1%Q /\ rgb c = (0, 0, 0)%Z)
    /\ NoDup (map color l)
    /\ List.length l <= 9.
Proof.
  assert (Hgen : forall value,
    let l := map placeholder_color (filter (includes value) basicColors) in
    (forall c, In c l ->
               In (color c) basicColors
               /\ percentage c = Num 0.1%Q /\ rgb c = (0, 0, 0)%Z)
    /\ NoDup (map color l) /\ List.length l <= 9).
  { intros value l. subst l. split; [|split].
    - intros c Hc. apply in_map_iff in Hc. destruct Hc as [x [<- Hx]].
      apply filter_In in Hx.
      cbn [placeholder_color color percentage rgb]. tauto.
    - rewrite map_map.
      rewrite (map_ext _ (fun x => x)) by reflexivity. rewrite map_id.
      apply NoDup_filter, basicColors_NoDup.
    - rewrite length_map.
      pose proof (filter_length_le (includes value) basicColors) as H.
      exact H. }
  unfold extractColorInfo.
  destruct (String_match raw re_color) as [m|] eqn:Hm.
  - destruct (color_capture raw m Hm) as [g [Hg _]].
    unfold receiver, group. rewrite Hg. cbn [nth_error Nat.sub bind].
    rewrite (fold_left_push (includes g) placeholder_color). cbn [app].
    eexists. split; [reflexivity|]. split; [eauto|]. apply Hgen.
  - exists []. split; [reflexivity|]. split; [reflexivity|].
    split; [intros c []|]. split; [constructor|]. simpl. lia.
Qed.

(** ** Windows of the source's batch *)



(** ** Configuration updates in sequence *)

(** X6.  Two updates in a row amount to one update with the spread of the
    two partial objects, the later one winning on a field both name; and an
    update that names every field replaces the configuration whatever it was
    before. *)
Theorem updateConfig_compose
    (this : GeminiClient) (first second : PartialConfig) :
  updateConfig (updateConfig this first) second
  = updateConfig this (partial_spread first second)
  /\ (forall c, getConfig (updateConfig this (full_update c)) = c).
Proof.
  split.
  - destruct this as [[m t k l]], first as [[m1|] [t1|] [k1|] [l1|]],
      second as [[m2|] [t2|] [k2|] [l2|]]; reflexivity.
  - intros [m t k l]. reflexivity.
Qed.

(** ** Error mapping and severity *)

(** X7.  A process error is a timeout exactly when its message contains
    "timeout" in lower case, and a network error otherwise; a message such as
    "spawn npx ETIMEDOUT" is therefore a network error.  The timeout error
    always reports 0 ms.  Both kinds keep the original message in their
    details, and both have severity medium. *)
Theorem mapProcessError_classification (msg : jsstring) :
  let e := mapProcessError msg in
  (contains msg (js "timeout") ->
   code e = ANALYSIS_TIMEOUT
   /\ message e = js "分析がタイムアウトしました (0ms)"
   /\ details e = [("timeout"%string, VNum 0);
                   ("originalError"%string, VStr msg)])
  /\ (~ contains msg (js "timeout") ->
      code e = NETWORK_ERROR
      /\ message e = js "ネットワークエラー: プロセス実行エラー: " ++ msg
      /\ details e = [("originalError"%string, VStr msg)])
  /\ getErrorSeverity (ThrowGemini e) = medium
  /\ code (mapProcessError (js "spawn npx ETIMEDOUT")) = NETWORK_ERROR.
Proof.
  intros e. subst e. unfold mapProcessError.
  destruct (includes msg (js "timeout")) eqn:E.
  - apply includes_spec in E. split.
    + intros _. split; [reflexivity|]. split; [|reflexivity].
      vm_compute. reflexivity.
    + split; [tauto|]. split; [reflexivity | vm_compute; reflexivity].
  - apply includes_false in E. split; [tauto|]. split.
    + intros _. split; [reflexivity|]. split; [|reflexivity].
      cbn [createGeminiErrors.networkError message].
      replace (js "ネットワークエラー: プロセス実行エラー: ")
        with (js "ネットワークエラー: " ++ js "プロセス実行エラー: ")
        by (vm_compute; reflexivity).
      now rewrite <- app_assoc.
    + split; [reflexivity | vm_compute; reflexivity].
Qed.

(** X8.  The severity of a child-process failure follows its
    classification: critical when the standard-error text has an
    authentication phrase, high when it has none but has a rate-limit or
    quota phrase, medium otherwise, and never low. *)
Theorem child_failure_severity (stderr stdout : jsstring) (c : option Z) :
  let s := getErrorSeverity
             (ThrowGemini (mapChildProcessError stderr stdout c)) in
  (s = critical <-> auth_phrase stderr)
  /\ (s = high <-> ~ auth_phrase stderr /\ rate_phrase stderr)
  /\ (s = medium <-> ~ auth_phrase stderr /\ ~ rate_phrase stderr)
  /\ s <> low.
Proof.
  intros s. subst s. unfold mapChildProcessError, auth_phrase, rate_phrase.
  destruct (includes stderr (js "Authentication failed")) eqn:A1;
  destruct (includes stderr (js "Unauthorized")) eqn:A2;
  destruct (includes stderr (js "Rate limit")) eqn:R1;
  destruct (includes stderr (js "quota")) eqn:R2;
  cbn [orb getErrorSeverity code createGeminiErrors.authenticationFailed
       createGeminiErrors.rateLimitExceeded createGeminiErrors.networkError];
  repeat match goal with
         | H : includes _ _ = true |- _ => apply includes_spec in H
         | H : includes _ _ = false |- _ => apply includes_false in H
         end;
  repeat split; intros; try discriminate; try tauto;
  try (exfalso; tauto).
Qed.

(** X9.  The file-system mapping passes a classified error through
    untouched, so mapping twice is mapping once.  Any other error becomes
    "file not found" for the given path when its message mentions ENOENT or
    "no such file", with severity low, and a network error of severity
    medium otherwise; in both cases the details keep the path and the
    original message. *)
Theorem mapFileSystemError_classification
    (error : thrown) (filePath other : jsstring) :
  let e := mapFileSystemError error filePath in
  mapFileSystemError (ThrowGemini e) other = e
  /\ (forall g, error = ThrowGemini g -> e = g)
  /\ (forall msg,
        error = ThrowError msg ->
        (contains msg (js "ENOENT") \/ contains msg (js "no such file") ->
         code e = FILE_NOT_FOUND
         /\ message e = js "ファイルが見つかりません: " ++ filePath
         /\ getErrorSeverity (ThrowGemini e) = low)
        /\ (~ (contains msg (js "ENOENT")
               \/ contains msg (js "no such file")) ->
            code e = NETWORK_ERROR
            /\ getErrorSeverity (ThrowGemini e) = medium)
        /\ In ("filePath"%string, VStr filePath) (details e)
        /\ In ("originalError"%string, VStr msg) (details e)).
Proof.
  intros e. subst e. split; [reflexivity|]. split.
  - intros g ->. reflexivity.
  - intros msg ->. unfold mapFileSystemError.
    destruct (includes msg (js "ENOENT")) eqn:E1;
    destruct (includes msg (js "no such file")) eqn:E2;
    cbn [orb];
    repeat match goal with
           | H : includes _ _ = true |- _ => apply includes_spec in H
           | H : includes _ _ = false |- _ => apply includes_false in H
           end;
    (split; [intros; try (exfalso; tauto); repeat split; reflexivity|]);
    (split; [intros; try (exfalso; tauto); repeat split; reflexivity|]);
    cbn; auto.
Qed.

(** * File names and image validation *)

Lemma lastIndexOf_from_absent (c : N) (s : jsstring) :
  forall i found,
    forallb (fun x => negb (cu_eqb x c)) s = true ->
    lastIndexOf_from s c i found = found.
Proof.
  induction s as [|x s IH]; intros i found H; simpl in *; [reflexivity|].
  apply andb_true_iff in H. destruct H as [Hx Hs].
  apply negb_true_iff in Hx. rewrite Hx. now apply IH.
Qed.

Lemma lastIndexOf_from_last (c : N) (suf pre : jsstring) :
  forallb (fun x => negb (cu_eqb x c)) suf = true ->
  forall i found,
    lastIndexOf_from (pre ++ c :: suf) c i found
    = (i + Z.of_nat (List.length pre))%Z.
Proof.
  intros Hs. induction pre as [|x pre IH]; intros i found.
  - cbn [app lastIndexOf_from List.length].
    rewrite (proj2 (cu_eqb_eq c c) eq_refl).
    rewrite lastIndexOf_from_absent by assumption. simpl. lia.
  - cbn [app lastIndexOf_from]. rewrite IH. cbn [List.length]. lia.
Qed.

(** A string either lacks [c] or splits at the last [c]. *)
Lemma last_occurrence (c : N) (s : jsstring) :
  forallb (fun x => negb (cu_eqb x c)) s = true
  \/ exists pre suf,
       s = pre ++ c :: suf
       /\ forallb (fun x => negb (cu_eqb x c)) suf = true.
Proof.
  induction s as [|x s IH]; [left; reflexivity|].
  destruct IH as [Hs|[pre [suf [-> Hsuf]]]].
  - destruct (cu_eqb x c) eqn:E.
    + right. apply cu_eqb_eq in E. subst x. exists [], s. auto.
    + left. simpl. now rewrite E, Hs.
  - right. exists (x :: pre), suf. auto.
Qed.

Lemma relative_index_inside (len : nat) (k : nat) :
  k <= len -> relative_index (Z.of_nat len) (Z.of_nat k) = k.
Proof.
  intros H. unfold relative_index.
  destruct (Z.ltb_spec (Z.of_nat k) 0); lia.
Qed.

Lemma relative_index_last (len : nat) :
  relative_index (Z.of_nat len) (-1) = len - 1.
Proof.
  unfold relative_index. simpl. lia.
Qed.

Lemma ascii_lower_dot (c : N) : ascii_lower c = 46%N <-> c = 46%N.
Proof.
  unfold ascii_lower.
  destruct (N.leb_spec 65 c); destruct (N.leb_spec c 90); simpl; lia.
Qed.

Lemma lower_keeps_dots (s : jsstring) :
  forallb (fun x => negb (cu_eqb x 46)) (map ascii_lower s)
  = forallb (fun x => negb (cu_eqb x 46)) s.
Proof.
  induction s as [|x s IH]; simpl; [reflexivity|]. rewrite IH. f_equal.
  f_equal. unfold cu_eqb.
  destruct (N.eqb_spec (ascii_lower x) 46) as [E|E];
    destruct (N.eqb_spec x 46) as [E'|E']; try reflexivity.
  - exfalso. apply E'. now apply ascii_lower_dot.
  - exfalso. apply E. now apply ascii_lower_dot.
Qed.

Lemma supported_shape (ext : jsstring) :
  In ext SUPPORTED_IMAGE_FORMATS ->
  exists rest,
    ext = 46%N :: rest /\ rest <> []
    /\ forallb (fun x => negb (cu_eqb x 46)) rest = true.
Proof.
  intros H. unfold SUPPORTED_IMAGE_FORMATS in H.
  repeat (destruct H as [<-|H];
          [eexists; split; [vm_compute; reflexivity|];
           split; [discriminate | vm_compute; reflexivity]|]).
  destruct H.
Qed.

Lemma Array_includes_In (a : list jsstring) (x : jsstring) :
  Array_includes a x = true <-> In x a.
Proof.
  unfold Array_includes. rewrite existsb_exists. split.
  - intros [y [Hy E]]. apply jsstring_eqb_eq in E. now subst.
  - intros H. exists x. split; [assumption|]. now apply jsstring_eqb_eq.
Qed.

Section FileNameProperties.

Variable toLowerCase : jsstring -> jsstring.
Hypothesis toLowerCase_ascii : lowers_ascii toLowerCase.

Lemma extension_without_dot (filePath : jsstring) :
  ascii_only filePath ->
  forallb (fun x => negb (cu_eqb x 46)) filePath = true ->
  getFileExtension toLowerCase filePath
  = match rev filePath with
    | [] => []
    | c :: _ => [ascii_lower c]
    end.
Proof.
  intros Ha Hd. unfold getFileExtension, lastIndexOf.
  rewrite lastIndexOf_from_absent by assumption.
  rewrite (toLowerCase_ascii _ Ha). unfold slice_from.
  rewrite relative_index_last, length_map.
  destruct (rev filePath) as [|c r] eqn:E.
  - apply (f_equal (@rev N)) in E. rewrite rev_involutive in E.
    subst filePath. reflexivity.
  - apply (f_equal (@rev N)) in E. rewrite rev_involutive in E.
    subst filePath. cbn [rev]. rewrite map_app, length_app.
    cbn [List.length map].
    replace (List.length (rev r) + 1 - 1)
      with (List.length (map ascii_lower (rev r)))
      by (rewrite length_map; lia).
    apply skipn_length_app.
Qed.

Lemma extension_from_last_dot (pre suf : jsstring) :
  ascii_only (pre ++ 46%N :: suf) ->
  forallb (fun x => negb (cu_eqb x 46)) suf = true ->
  getFileExtension toLowerCase (pre ++ 46%N :: suf)
  = 46%N :: map ascii_lower suf.
Proof.
  intros Ha Hd. unfold getFileExtension, lastIndexOf.
  rewrite lastIndexOf_from_last by assumption.
  rewrite (toLowerCase_ascii _ Ha). unfold slice_from.
  rewrite Z.add_0_l, relative_index_inside
    by (rewrite length_map, length_app; lia).
  rewrite map_app.
  replace (List.length pre) with (List.length (map ascii_lower pre))
    by apply length_map.
  rewrite skipn_length_app. reflexivity.
Qed.

Lemma extension_nonempty (filePath : jsstring) :
  ascii_only filePath -> filePath <> [] ->
  getFileExtension toLowerCase filePath <> [].
Proof.
  intros Ha Hne He.
  destruct (last_occurrence 46 filePath) as [Hd|[pre [suf [-> Hs]]]].
  - rewrite (extension_without_dot _ Ha Hd) in He.
    destruct (rev filePath) as [|c r] eqn:E; [|discriminate].
    apply (f_equal (@rev N)) in E. now rewrite rev_involutive in E.
  - rewrite (extension_from_last_dot _ _ Ha Hs) in He. discriminate.
Qed.

(** X10.  On an ASCII path the extension is the lower-cased text from the
    last period on, whatever stands after that period, a slash included.
    Without any period the negative index selects the last character: the
    "extension" of such a path is its last character in lower case.  So only
    the empty path has an empty extension. *)
Theorem getFileExtension_cases (filePath : jsstring) :
  ascii_only filePath ->
  (forallb (fun x => negb (cu_eqb x 46)) filePath = true ->
   getFileExtension toLowerCase filePath
   = match rev filePath with
     | [] => []
     | c :: _ => [ascii_lower c]
     end)
  /\ (forall pre suf,
        filePath = pre ++ 46%N :: suf ->
        forallb (fun x => negb (cu_eqb x 46)) suf = true ->
        getFileExtension toLowerCase filePath = 46%N :: map ascii_lower suf)
  /\ (getFileExtension toLowerCase filePath = [] <-> filePath = []).
Proof.
  intros Ha. split; [now apply extension_without_dot|]. split.
  - intros pre suf -> Hs. now apply extension_from_last_dot.
  - split.
    + intros He. destruct (last_occurrence 46 filePath)
        as [Hd|[pre [suf [-> Hs]]]].
      * rewrite (extension_without_dot _ Ha Hd) in He.
        destruct (rev filePath) as [|c r] eqn:E; [|discriminate].
        apply (f_equal (@rev N)) in E. now rewrite rev_involutive in E.
      * rewrite (extension_from_last_dot _ _ Ha Hs) in He. discriminate.
    + intros ->. now rewrite (extension_without_dot [] Ha eq_refl).
Qed.

Lemma isImageFile_iff (filePath : jsstring) :
  ascii_only filePath ->
  (isImageFile toLowerCase filePath = true
   <-> exists pre ext,
         In ext SUPPORTED_IMAGE_FORMATS
         /\ map ascii_lower filePath = pre ++ ext).
Proof.
  intros Ha. unfold isImageFile. rewrite Array_includes_In. split.
  - intros Hin. exists (firstn (relative_index
                                 (Z.of_nat (List.length (toLowerCase filePath)))
                                 (lastIndexOf filePath 46))
                          (toLowerCase filePath)),
                       (getFileExtension toLowerCase filePath).
    split; [exact Hin|].
    rewrite <- (toLowerCase_ascii _ Ha). unfold getFileExtension, slice_from.
    now rewrite firstn_skipn.
  - intros [pre [ext [Hin Heq]]].
    destruct (supported_shape ext Hin) as [rest [-> [_ Hrest]]].
    apply map_eq_app in Heq. destruct Heq as [p0 [e0 [-> [Hp He]]]].
    destruct e0 as [|d r0]; [discriminate|].
    cbn [map] in He. injection He as Hd Hr.
    apply (proj1 (ascii_lower_dot d)) in Hd. subst d.
    assert (Hr0 : forallb (fun x => negb (cu_eqb x 46)) r0 = true).
    { rewrite <- lower_keeps_dots, Hr. exact Hrest. }
    rewrite (extension_from_last_dot _ _ Ha Hr0), Hr. exact Hin.
Qed.

(** X11.  On an ASCII path [isImageFile] is a case-insensitive test of the
    end of the path: it holds exactly when the lower-cased path ends with
    one of the five supported extensions. *)
Theorem isImageFile_suffix (filePath : jsstring) :
  ascii_only filePath ->
  (isImageFile toLowerCase filePath = true
   <-> exists pre ext,
         In ext SUPPORTED_IMAGE_FORMATS
         /\ map ascii_lower filePath = pre ++ ext).
Proof. apply isImageFile_iff. Qed.

End FileNameProperties.

Lemma sample_lowers_ascii : lowers_ascii SampleFiles.toLowerCase.
Proof. intros s _. reflexivity. Qed.

Lemma getFileExtension_cases_witness :
  lowers_ascii SampleFiles.toLowerCase
  /\ ascii_only (js "/photos.old/README")
  /\ getFileExtension SampleFiles.toLowerCase (js "/photos.old/README")
     = js ".old/readme".
Proof.
  split; [exact sample_lowers_ascii|]. split; [reflexivity|].
  apply (proj1 (proj2 (getFileExtension_cases SampleFiles.toLowerCase
                         sample_lowers_ascii (js "/photos.old/README")
                         eq_refl))
           (js "/photos") (js "old/README")); reflexivity.
Defined.

Lemma isImageFile_suffix_witness :
  lowers_ascii SampleFiles.toLowerCase
  /\ ascii_only (js "/photos/Cat.JPG")
  /\ isImageFile SampleFiles.toLowerCase (js "/photos/Cat.JPG") = true.
Proof.
  split; [exact sample_lowers_ascii|]. split; [reflexivity|].
  apply (proj2 (isImageFile_suffix SampleFiles.toLowerCase
                  sample_lowers_ascii (js "/photos/Cat.JPG") eq_refl)).
  exists (js "/photos/cat"), (js ".jpg").
  split; [left; reflexivity | reflexivity].
Defined.

(** The last piece of a split, and what stands before it. *)
Lemma last_segment (sep : N -> bool) (s : jsstring) :
  exists dir,
    s = dir ++ last (split_on sep s) []
    /\ forallb (fun c => negb (sep c)) (last (split_on sep s) []) = true
    /\ ((tl (split_on sep s) = [] /\ dir = [])
        \/ (tl (split_on sep s) <> []
            /\ exists d x, dir = d ++ [x] /\ sep x = true)).
Proof.
  induction s as [|c s IH].
  - exists []. simpl. auto.
  - destruct IH as [dir [Hs [Hname Hdir]]]. cbn [split_on].
    destruct (sep c) eqn:E.
    + pose proof (split_on_nonempty sep s) as Hne.
      destruct (split_on sep s) as [|cur more] eqn:Es; [congruence|].
      exists (c :: dir). cbn [last tl app].
      split; [now rewrite Hs at 1|]. split; [exact Hname|].
      right. split; [discriminate|].
      destruct Hdir as [[_ ->]|[_ [d [x [-> Hx]]]]].
      * exists [], c. auto.
      * exists (c :: d), x. auto.
    + destruct (split_on sep s) as [|cur more] eqn:Es.
      * exfalso. exact (split_on_nonempty sep s Es).
      * destruct more as [|m more'].
        -- cbn [last tl] in *. destruct Hdir as [[_ ->]|[Hn _]];
             [|congruence].
           exists []. cbn [app] in *. subst s. cbn [forallb].
           rewrite E, Hname. auto.
        -- exists (c :: dir). cbn [last tl app] in *.
           split; [now rewrite Hs at 1|]. split; [exact Hname|].
           right. split; [discriminate|].
           destruct Hdir as [[Hn _]|[_ [d [x [-> Hx]]]]]; [discriminate|].
           exists (c :: d), x. auto.
Qed.

(** X12.  The file name of a path is what follows its last slash: it has no
    slash, and the path is the name preceded by nothing or by a text ending
    in a slash.  [getFileName] removes from the name the last period and
    what follows it, unless the name has no period or only a leading one, in
    which case the name is returned whole. *)
Theorem file_name_parts (filePath : jsstring) :
  let name := getFileNameWithExtension filePath in
  (exists dir,
     filePath = dir ++ name /\ (dir = [] \/ exists d, dir = d ++ [47%N]))
  /\ forallb (fun c => negb (cu_eqb 47 c)) name = true
  /\ (forallb (fun x => negb (cu_eqb x 46)) name = true ->
      getFileName filePath = name)
  /\ (forall suf,
        name = 46%N :: suf ->
        forallb (fun x => negb (cu_eqb x 46)) suf = true ->
        getFileName filePath = name)
  /\ (forall stem suf,
        name = stem ++ 46%N :: suf -> stem <> [] ->
        forallb (fun x => negb (cu_eqb x 46)) suf = true ->
        getFileName filePath = stem).
Proof.
  intros name. subst name. unfold getFileName, getFileNameWithExtension.
  destruct (last_segment (cu_eqb 47) filePath) as [dir [Hs [Hname Hdir]]].
  split.
  { exists dir. split; [exact Hs|].
    destruct Hdir as [[_ ->]|[_ [d [x [-> Hx]]]]]; [auto|].
    right. exists d. apply cu_eqb_eq in Hx. now subst x. }
  split; [exact Hname|].
  generalize (last (split_on (cu_eqb 47) filePath) []) as name.
  intros name. split; [|split].
  - intros Hd. unfold lastIndexOf.
    now rewrite lastIndexOf_from_absent.
  - intros suf -> Hd. unfold lastIndexOf.
    now rewrite (lastIndexOf_from_last 46 suf [] Hd).
  - intros stem suf -> Hne Hd. unfold lastIndexOf.
    rewrite (lastIndexOf_from_last 46 suf stem Hd). rewrite Z.add_0_l.
    destruct stem as [|c stem]; [congruence|].
    replace (0 <? Z.of_nat (List.length (c :: stem)))%Z with true
      by (symmetry; apply Z.ltb_lt; simpl; lia).
    unfold slice_range.
    rewrite relative_index_inside by (rewrite length_app; lia).
    replace 0%Z with (Z.of_nat 0) by reflexivity.
    rewrite relative_index_inside by lia.
    rewrite Nat.sub_0_r. cbn [skipn]. apply firstn_length_app.
Qed.

Lemma supported_nonempty : Array_includes SUPPORTED_IMAGE_FORMATS [] = false.
Proof. vm_compute. reflexivity. Qed.

Lemma slice_from_one (c : N) (rest : jsstring) :
  slice_from (c :: rest) 1 = rest.
Proof.
  unfold slice_from. replace 1%Z with (Z.of_nat 1) by reflexivity.
  rewrite relative_index_inside by (simpl; lia). reflexivity.
Qed.

Section ValidationProperties.

Variable toLowerCase : jsstring -> jsstring.

(** What [validateImageBasic] returns, by cases on the path and its
    extension. *)
Lemma validateImageBasic_cases (filePath : jsstring) :
  let r := validateImageBasic toLowerCase filePath in
  match filePath with
  | [] =>
    isValid r = false /\ v_format r = None
    /\ v_errors r = [js "ファイルパスが無効です"]
  | _ :: _ =>
    match getFileExtension toLowerCase filePath with
    | [] =>
      isValid r = false /\ v_format r = None
      /\ v_errors r = [js "ファイル拡張子がありません"]
    | c :: ext =>
      if Array_includes SUPPORTED_IMAGE_FORMATS (c :: ext)
      then isValid r = true /\ v_format r = Some ext /\ v_errors r = []
      else isValid r = false /\ v_format r = None
           /\ v_errors r
              = [js "サポートされていない画像形式: " ++ c :: ext]
    end
  end.
Proof.
  intros r. subst r. unfold validateImageBasic.
  destruct filePath as [|x p]; [auto|].
  destruct (getFileExtension toLowerCase (x :: p)) as [|c ext];
    [cbn; auto|].
  destruct (Array_includes SUPPORTED_IMAGE_FORMATS (c :: ext)) eqn:E;
    cbn [negb]; rewrite ?slice_from_one; cbn; auto.
Qed.

Lemma valid_iff_image (filePath : jsstring) :
  lowers_ascii toLowerCase ->
  isValid (validateImageBasic toLowerCase filePath)
  = isImageFile toLowerCase filePath.
Proof.
  intros Hl. pose proof (validateImageBasic_cases filePath) as H.
  cbv zeta in H. unfold isImageFile.
  destruct filePath as [|x p].
  - destruct H as [-> _]. unfold getFileExtension.
    rewrite (Hl [] eq_refl). reflexivity.
  - destruct (getFileExtension toLowerCase (x :: p)) as [|c ext].
    + destruct H as [-> _]. now rewrite supported_nonempty.
    + destruct (Array_includes SUPPORTED_IMAGE_FORMATS (c :: ext));
        destruct H as [-> _]; reflexivity.
Qed.

Lemma valid_format (filePath : jsstring) :
  isValid (validateImageBasic toLowerCase filePath) = true ->
  exists c f,
    v_format (validateImageBasic toLowerCase filePath) = Some (c :: f)
    /\ In (46%N :: c :: f) SUPPORTED_IMAGE_FORMATS.
Proof.
  intros Hv. pose proof (validateImageBasic_cases filePath) as H.
  cbv zeta in H.
  destruct filePath as [|x p]; [destruct H; congruence|].
  destruct (getFileExtension toLowerCase (x :: p)) as [|c ext];
    [destruct H; congruence|].
  destruct (Array_includes SUPPORTED_IMAGE_FORMATS (c :: ext)) eqn:E;
    [|destruct H; congruence].
  destruct H as [_ [Hf _]]. apply Array_includes_In in E.
  destruct (supported_shape _ E) as [rest [Heq [Hne _]]].
  injection Heq as -> ->. destruct rest as [|c' f]; [congruence|].
  exists c', f. auto.
Qed.

(** X13.  Basic validation accepts a path exactly when [isImageFile] does.
    An accepted path has no error and its format is the supported extension
    without the period; a rejected one has exactly one error and no format.
    On a non-empty ASCII path the error is never the "no extension" one: a
    path without a period is reported as having its last character as
    unsupported format. *)
Theorem validateImageBasic_verdict (filePath : jsstring) :
  lowers_ascii toLowerCase ->
  let r := validateImageBasic toLowerCase filePath in
  isValid r = isImageFile toLowerCase filePath
  /\ (isValid r = true ->
      v_errors r = []
      /\ exists f, v_format r = Some f
                   /\ In (46%N :: f) SUPPORTED_IMAGE_FORMATS)
  /\ (isValid r = false ->
      List.length (v_errors r) = 1 /\ v_format r = None)
  /\ (ascii_only filePath -> filePath <> [] ->
      ~ In (js "ファイル拡張子がありません") (v_errors r))
  /\ (ascii_only filePath -> filePath <> [] ->
      forallb (fun x => negb (cu_eqb x 46)) filePath = true ->
      v_errors r
      = [js "サポートされていない画像形式: "
         ++ [ascii_lower (last filePath 0%N)]]).
Proof.
  intros Hl r. subst r.
  pose proof (validateImageBasic_cases filePath) as H. cbv zeta in H.
  split; [now apply valid_iff_image|]. split; [|split; [|split]].
  - intros Hv. destruct (valid_format filePath Hv) as [c [f [Hf Hin]]].
    split; [|eauto].
    destruct filePath as [|x p]; [destruct H; congruence|].
    destruct (getFileExtension toLowerCase (x :: p)) as [|c' ext];
      [destruct H; congruence|].
    destruct (Array_includes SUPPORTED_IMAGE_FORMATS (c' :: ext));
      destruct H as [H1 [H2 H3]]; congruence.
  - intros Hv.
    destruct filePath as [|x p]; [destruct H as [_ [-> ->]]; auto|].
    destruct (getFileExtension toLowerCase (x :: p)) as [|c' ext];
      [destruct H as [_ [-> ->]]; auto|].
    destruct (Array_includes SUPPORTED_IMAGE_FORMATS (c' :: ext));
      destruct H as [H1 [-> ->]]; [congruence | auto].
  - intros Ha Hne Hin.
    pose proof (extension_nonempty toLowerCase Hl filePath Ha Hne) as Hext.
    destruct filePath as [|x p]; [congruence|].
    destruct (getFileExtension toLowerCase (x :: p)) as [|c' ext];
      [congruence|].
    destruct (Array_includes SUPPORTED_IMAGE_FORMATS (c' :: ext));
      destruct H as [_ [_ He]]; rewrite He in Hin; [destruct Hin|].
    destruct Hin as [Hin|[]].
    apply (f_equal (fun s => hd 0%N s)) in Hin.
    vm_compute in Hin. discriminate Hin.
  - intros Ha Hne Hd.
    pose proof (extension_without_dot toLowerCase Hl filePath Ha Hd) as Hext.
    destruct filePath as [|x p]; [congruence|].
    assert (Hlast : rev (x :: p) = last (x :: p) 0%N :: rev (removelast (x :: p))).
    { rewrite (app_removelast_last 0%N (l := x :: p)) at 1 by discriminate.
      rewrite rev_app_distr. reflexivity. }
    rewrite Hlast in Hext. rewrite Hext in H.
    assert (E : Array_includes SUPPORTED_IMAGE_FORMATS
                  [ascii_lower (last (x :: p) 0%N)] = false).
    { generalize (ascii_lower (last (x :: p) 0%N)). intros c.
      unfold Array_includes, SUPPORTED_IMAGE_FORMATS.
      replace (js ".jpg") with [46;106;112;103]%N by (vm_compute; reflexivity).
      replace (js ".jpeg") with [46;106;112;101;103]%N by (vm_compute; reflexivity).
      replace (js ".png") with [46;112;110;103]%N by (vm_compute; reflexivity).
      replace (js ".webp") with [46;119;101;98;112]%N by (vm_compute; reflexivity).
      replace (js ".gif") with [46;103;105;102]%N by (vm_compute; reflexivity).
      cbn [existsb jsstring_eqb]. rewrite !andb_false_r. reflexivity. }
    rewrite E in H. destruct H as [_ [_ He]]. exact He.
Qed.

End ValidationProperties.

Lemma validateImageBasic_verdict_witness :
  lowers_ascii SampleFiles.toLowerCase
  /\ isValid (validateImageBasic SampleFiles.toLowerCase
                (js "/photos/Cat.JPG")) = true
  /\ v_errors (validateImageBasic SampleFiles.toLowerCase
                 (js "/photos/README"))
     = [js "サポートされていない画像形式: e"].
Proof.
  split; [exact sample_lowers_ascii|].
  destruct (validateImageBasic_verdict SampleFiles.toLowerCase
              (js "/photos/Cat.JPG") sample_lowers_ascii) as [H1 _].
  destruct (validateImageBasic_verdict SampleFiles.toLowerCase
              (js "/photos/README") sample_lowers_ascii)
    as [_ [_ [_ [_ H5]]]].
  split.
  - rewrite H1. reflexivity.
  - rewrite (H5 eq_refl ltac:(discriminate) eq_refl).
    vm_compute. reflexivity.
Defined.

(** ** Counting maps *)

Lemma Map_get_none (m : CountMap) (k : jsstring) :
  Map_get m k = None <-> ~ In k (map fst m).
Proof.
  induction m as [|[k' v] m IH]; simpl; [tauto|].
  destruct (jsstring_eqb k' k) eqn:E.
  - apply jsstring_eqb_eq in E. subst k'. split; [discriminate|tauto].
  - rewrite IH. split.
    + intros H [Hk|Hk]; [|tauto]. subst k'.
      rewrite (proj2 (jsstring_eqb_eq k k) eq_refl) in E. discriminate.
    + tauto.
Qed.

Lemma Map_set_keys (m : CountMap) (k : jsstring) (v : nat) :
  map fst (Map_set m k v)
  = match Map_get m k with
    | Some _ => map fst m
    | None => map fst m ++ [k]
    end.
Proof.
  induction m as [|[k' v'] m IH]; simpl; [reflexivity|].
  destruct (jsstring_eqb k' k); simpl; [reflexivity|].
  rewrite IH. destruct (Map_get m k); reflexivity.
Qed.

Lemma Map_set_total (m : CountMap) (k : jsstring) :
  Map_total (Map_set m k
               (match Map_get m k with Some n => n | None => 0 end + 1))
  = Map_total m + 1.
Proof.
  induction m as [|[k' v'] m IH]; [reflexivity|].
  cbn [Map_get Map_set].
  destruct (jsstring_eqb k' k).
  - unfold Map_total. cbn [fold_right snd]. lia.
  - change (Map_total ((k', v') :: Map_set m k
              (match Map_get m k with Some n => n | None => 0 end + 1)))
      with (v' + Map_total (Map_set m k
              (match Map_get m k with Some n => n | None => 0 end + 1))).
    rewrite IH. unfold Map_total. cbn [fold_right snd]. lia.
Qed.

Lemma Map_set_values (m : CountMap) (k : jsstring) (v : nat) (P : jsstring -> Prop) :
  P k -> 1 <= v ->
  Forall (fun kv => P (fst kv) /\ 1 <= snd kv) m ->
  Forall (fun kv => P (fst kv) /\ 1 <= snd kv) (Map_set m k v).
Proof.
  intros Hk Hv. induction 1 as [|[k' v'] m Hkv Hm IH]; simpl.
  - constructor; [auto | constructor].
  - destruct (jsstring_eqb k' k) eqn:E.
    + constructor; [|assumption]. simpl in *. tauto.
    + constructor; assumption.
Qed.

Section FilesValidationProperties.

Variable toLowerCase : jsstring -> jsstring.

Local Abbreviation valid_path :=
  (fun p => isValid (validateImageBasic toLowerCase p)).

Lemma validateImageFiles_step_valid
    (valid : list jsstring)
    (invalid : list (jsstring * ImageValidationResult)) (formats : CountMap)
    (p c : jsstring) :
  isValid (validateImageBasic toLowerCase p) = true ->
  v_format (validateImageBasic toLowerCase p) = Some c -> c <> [] ->
  validateImageFiles_step toLowerCase (valid, invalid, formats) p
  = (valid ++ [p], invalid,
     Map_set formats c
       (match Map_get formats c with Some n => n | None => 0 end + 1)).
Proof.
  intros Hv Hf Hc. unfold validateImageFiles_step. rewrite Hv, Hf.
  destruct c; [congruence | reflexivity].
Qed.

Lemma validateImageFiles_step_invalid
    (valid : list jsstring)
    (invalid : list (jsstring * ImageValidationResult)) (formats : CountMap)
    (p : jsstring) :
  isValid (validateImageBasic toLowerCase p) = false ->
  validateImageFiles_step toLowerCase (valid, invalid, formats) p
  = (valid, invalid ++ [(p, validateImageBasic toLowerCase p)], formats).
Proof.
  intros Hv. unfold validateImageFiles_step. now rewrite Hv.
Qed.

(** The state of the loop of [validateImageFiles] after a list of paths. *)
Lemma validateImageFiles_loop (filePaths : list jsstring) :
  forall (valid : list jsstring)
         (invalid : list (jsstring * ImageValidationResult))
         (formats : CountMap),
    NoDup (map fst formats) ->
    Forall (fun kv => In (46%N :: fst kv) SUPPORTED_IMAGE_FORMATS
                      /\ 1 <= snd kv) formats ->
    exists formats',
      fold_left (validateImageFiles_step toLowerCase) filePaths
                (valid, invalid, formats)
      = (valid ++ filter valid_path filePaths,
         invalid ++ map (fun p => (p, validateImageBasic toLowerCase p))
                        (filter (fun p => negb (valid_path p)) filePaths),
         formats')
      /\ NoDup (map fst formats')
      /\ Forall (fun kv => In (46%N :: fst kv) SUPPORTED_IMAGE_FORMATS
                           /\ 1 <= snd kv) formats'
      /\ Map_total formats'
         = Map_total formats + List.length (filter valid_path filePaths).
Proof.
  induction filePaths as [|p ps IH]; intros valid invalid formats Hnd Hall.
  - exists formats. simpl. rewrite !app_nil_r. auto.
  - cbn [fold_left filter map].
    destruct (isValid (validateImageBasic toLowerCase p)) eqn:Hv.
    + destruct (valid_format toLowerCase p Hv) as [c [f [Hf Hin]]].
      rewrite (validateImageFiles_step_valid valid invalid formats p
                 (c :: f) Hv Hf) by discriminate.
      cbn [negb].
      destruct (IH (valid ++ [p]) invalid
                  (Map_set formats (c :: f)
                     (match Map_get formats (c :: f) with
                      | Some n => n | None => 0 end + 1)))
        as [formats' [Hfold [Hnd' [Hall' Htot]]]].
      * rewrite Map_set_keys.
        destruct (Map_get formats (c :: f)) eqn:Hg; [exact Hnd|].
        apply NoDup_app; [exact Hnd | repeat constructor; intros [] | ].
        intros x Hx [<-|[]]. now apply Map_get_none in Hg.
      * apply (Map_set_values formats (c :: f) _
                 (fun k => In (46%N :: k) SUPPORTED_IMAGE_FORMATS));
          [exact Hin | lia | exact Hall].
      * exists formats'. rewrite Hfold, <- app_assoc.
        split; [reflexivity|]. split; [exact Hnd'|]. split; [exact Hall'|].
        rewrite Htot, Map_set_total. cbn [List.length]. lia.
    + rewrite (validateImageFiles_step_invalid valid invalid formats p Hv).
      cbn [negb map].
      destruct (IH valid
                  (invalid ++ [(p, validateImageBasic toLowerCase p)])
                  formats Hnd Hall)
        as [formats' [Hfold [Hnd' [Hall' Htot]]]].
      exists formats'. rewrite Hfold, <- app_assoc.
      split; [reflexivity|]. auto.
Qed.

Lemma filter_partition_length {A : Type} (f : A -> bool) (l : list A) :
  List.length (filter f l) + List.length (filter (fun x => negb (f x)) l)
  = List.length l.
Proof.
  induction l as [|x l IH]; simpl; [reflexivity|].
  destruct (f x); simpl; lia.
Qed.

(** X14.  Validation of a list of paths sorts every path into exactly one
    of the two lists, keeping the order of the input: the accepted paths are
    those basic validation accepts, the others are listed with their result.
    In the statistics the total is the sum of the two counts, the counts per
    format add up to the number of accepted paths, and the formats counted
    are distinct supported formats, each counted at least once. *)
Theorem validateImageFiles_statistics (filePaths : list jsstring) :
  let r := validateImageFiles toLowerCase filePaths in
  fv_valid r = filter valid_path filePaths
  /\ fv_invalid r
     = map (fun p => (p, validateImageBasic toLowerCase p))
           (filter (fun p => negb (valid_path p)) filePaths)
  /\ st_total (fv_statistics r) = List.length filePaths
  /\ st_valid (fv_statistics r) = List.length (fv_valid r)
  /\ st_invalid (fv_statistics r) = List.length (fv_invalid r)
  /\ st_total (fv_statistics r)
     = st_valid (fv_statistics r) + st_invalid (fv_statistics r)
  /\ Map_total (st_formats (fv_statistics r)) = st_valid (fv_statistics r)
  /\ NoDup (map fst (st_formats (fv_statistics r)))
  /\ Forall (fun kv => In (46%N :: fst kv) SUPPORTED_IMAGE_FORMATS
                       /\ 1 <= snd kv)
            (st_formats (fv_statistics r)).
Proof.
  intros r. subst r. unfold validateImageFiles.
  destruct (validateImageFiles_loop filePaths [] [] [])
    as [formats [Hfold [Hnd [Hall Htot]]]]; [constructor | constructor |].
  match goal with
  | |- context [fold_left ?f ?l ?i] =>
    match type of Hfold with
    | _ = ?rhs => replace (fold_left f l i) with rhs by (symmetry; exact Hfold)
    end
  end.
  cbn [app fv_valid fv_invalid fv_statistics st_total st_valid
       st_invalid st_formats].
  repeat split; try assumption.
  - rewrite length_map. symmetry. apply filter_partition_length.
Qed.

Lemma filterValidImageFiles_loop (filePaths : list jsstring) :
  lowers_ascii toLowerCase ->
  forall validFiles rejectedFiles,
    fold_left (filterValidImageFiles_step toLowerCase) filePaths
              (validFiles, rejectedFiles)
    = (validFiles ++ filter (isImageFile toLowerCase) filePaths,
       rejectedFiles
       ++ map (fun p => (p, js "サポートされていない画像形式"))
              (filter (fun p => negb (isImageFile toLowerCase p))
                      filePaths)).
Proof.
  intros Hl. induction filePaths as [|p ps IH]; intros validFiles rejected.
  - simpl. now rewrite !app_nil_r.
  - cbn [fold_left filter map]. unfold filterValidImageFiles_step at 2.
    rewrite (valid_iff_image toLowerCase p Hl).
    destruct (isImageFile toLowerCase p); cbn [negb map];
      rewrite IH, <- app_assoc; reflexivity.
Qed.

(** X15.  The filter for batch processing accepts exactly the paths for
    which [isImageFile] holds, in input order, and rejects every other path
    with one and the same reason: the branch that would report the errors of
    basic validation is never taken. *)
Theorem filterValidImageFiles_partition (filePaths : list jsstring) :
  lowers_ascii toLowerCase ->
  filterValidImageFiles toLowerCase filePaths
  = (filter (isImageFile toLowerCase) filePaths,
     map (fun p => (p, js "サポートされていない画像形式"))
         (filter (fun p => negb (isImageFile toLowerCase p)) filePaths)).
Proof.
  intros Hl. unfold filterValidImageFiles.
  now rewrite (filterValidImageFiles_loop filePaths Hl).
Qed.

End FilesValidationProperties.

Lemma filterValidImageFiles_partition_witness :
  lowers_ascii SampleFiles.toLowerCase
  /\ fst (filterValidImageFiles SampleFiles.toLowerCase SampleFiles.paths)
     = [js "/photos/Cat.JPG"; js "/photos/dog.png"; js "/photos/fish.jpg"].
Proof.
  split; [exact sample_lowers_ascii|].
  rewrite (filterValidImageFiles_partition SampleFiles.toLowerCase
             SampleFiles.paths sample_lowers_ascii).
  vm_compute. reflexivity.
Defined.

(** * Judging results and images *)

Lemma num_ge_spec (q b : Q) : num_ge (Num q) b = true <-> (b <= q)%Q.
Proof. apply Qle_bool_iff. Qed.

Lemma Qle_bool_false (a b : Q) : Qle_bool a b = false <-> (b < a)%Q.
Proof.
  split.
  - intros H. apply Qnot_le_lt. intros Hle.
    apply Qle_bool_iff in Hle. congruence.
  - intros H. destruct (Qle_bool a b) eqn:E; [|reflexivity].
    apply Qle_bool_iff in E. exfalso. exact (Qlt_not_le _ _ H E).
Qed.

Ltac thresholds :=
  repeat match goal with
         | H : Qle_bool _ _ = true |- _ => apply Qle_bool_iff in H
         | H : Qle_bool _ _ = false |- _ => apply Qle_bool_false in H
         end.

(** X16.  The verdict on a confidence value is reliable exactly from 0.5
    upwards, and the level never decreases when the value increases; the
    levels change at 0.3, 0.5, 0.7 and 0.9, a value above 1 still counts as
    the highest level, and [NaN] gets the lowest.  A result whose text has no
    confidence field carries the default 0.8 and is judged high. *)
Theorem validateAnalysisConfidence_thresholds :
  (forall q,
     Confidence.isReliable (Confidence.validateAnalysisConfidence (Num q))
     = true <-> (0.5 <= q)%Q)
  /\ (forall q1 q2,
        (q1 <= q2)%Q ->
        Confidence.rank
          (Confidence.level (Confidence.validateAnalysisConfidence (Num q1)))
        <= Confidence.rank
             (Confidence.level
                (Confidence.validateAnalysisConfidence (Num q2))))
  /\ (forall q,
        Confidence.level (Confidence.validateAnalysisConfidence (Num q))
        = Confidence.very_high <-> (0.9 <= q)%Q)
  /\ (forall q,
        Confidence.level (Confidence.validateAnalysisConfidence (Num q))
        = Confidence.very_low <-> (q < 0.3)%Q)
  /\ Confidence.validateAnalysisConfidence NaN
     = Confidence.mkVerdict false Confidence.very_low
         (js "結果の信頼度が非常に低いため、他の方法を試してください")
  /\ (forall raw,
        String_match raw re_confidence = None ->
        Confidence.level
          (Confidence.validateAnalysisConfidence
             (extractConfidenceScore raw)) = Confidence.high).
Proof.
  split; [|split; [|split; [|split; [|split]]]].
  - intros q. unfold Confidence.validateAnalysisConfidence, num_ge.
    destruct (Qle_bool 0.9 q) eqn:E9; destruct (Qle_bool 0.7 q) eqn:E7;
    destruct (Qle_bool 0.5 q) eqn:E5; destruct (Qle_bool 0.3 q) eqn:E3;
    thresholds; cbn [Confidence.isReliable];
    split; intros H; try reflexivity; try discriminate; try assumption;
    try lra.
  - intros q1 q2 Hle. unfold Confidence.validateAnalysisConfidence, num_ge.
    destruct (Qle_bool 0.9 q1) eqn:A9; destruct (Qle_bool 0.7 q1) eqn:A7;
    destruct (Qle_bool 0.5 q1) eqn:A5; destruct (Qle_bool 0.3 q1) eqn:A3;
    destruct (Qle_bool 0.9 q2) eqn:B9; destruct (Qle_bool 0.7 q2) eqn:B7;
    destruct (Qle_bool 0.5 q2) eqn:B5; destruct (Qle_bool 0.3 q2) eqn:B3;
    thresholds; cbn [Confidence.level Confidence.rank];
    try lia; exfalso; lra.
  - intros q. unfold Confidence.validateAnalysisConfidence, num_ge.
    destruct (Qle_bool 0.9 q) eqn:E9; destruct (Qle_bool 0.7 q) eqn:E7;
    destruct (Qle_bool 0.5 q) eqn:E5; destruct (Qle_bool 0.3 q) eqn:E3;
    thresholds; cbn [Confidence.level];
    split; intros H; try reflexivity; try discriminate; try assumption;
    try lra.
  - intros q. unfold Confidence.validateAnalysisConfidence, num_ge.
    destruct (Qle_bool 0.9 q) eqn:E9; destruct (Qle_bool 0.7 q) eqn:E7;
    destruct (Qle_bool 0.5 q) eqn:E5; destruct (Qle_bool 0.3 q) eqn:E3;
    thresholds; cbn [Confidence.level];
    split; intros H; try reflexivity; try discriminate; try assumption;
    try lra.
  - reflexivity.
  - intros raw H. unfold extractConfidenceScore. rewrite H. reflexivity.
Qed.

Section QualityProperties.

Variable toLowerCase : jsstring -> jsstring.

(** X17.  The quality score of an image lies between 40 and 100 whatever the
    metadata.  The quality label agrees with the score returned: excellent
    from 90, good from 70, fair from 50, poor below.  Every issue comes with
    a suggestion, there are at most three of each, and an image without
    issues is excellent. *)
Theorem assessImageQuality_range (m : QualityInput) :
  let r := assessImageQuality toLowerCase m in
  (40 <= score r <= 100)%Z
  /\ quality r
     = (if (90 <=? score r)%Z then excellent
        else if (70 <=? score r)%Z then good
        else if (50 <=? score r)%Z then fair
        else poor)
  /\ List.length (issues r) <= List.length (suggestions r) <= 3
  /\ (issues r = [] -> quality r = excellent).
Proof.
  intros r. subst r. unfold assessImageQuality.
  destruct (Qlt_bool (q_size m / (1024 * 1024)) 0.1);
    [|destruct (Qlt_bool 10 (q_size m / (1024 * 1024)))];
  (destruct (number_truthy (q_width m) && number_truthy (q_height m));
   [destruct (Qlt_bool (number_or_zero (q_width m)
                        * number_or_zero (q_height m)) 100000);
    [|destruct (Qlt_bool 25000000
                  (number_or_zero (q_width m)
                   * number_or_zero (q_height m)))]|]);
  (destruct (jsstring_eqb (toLowerCase (q_format m)) (js "gif"));
   [|destruct (jsstring_eqb (toLowerCase (q_format m)) (js "webp"))]);
  cbn [score quality issues suggestions app List.length];
  (split; [vm_compute; split; discriminate|]);
  (split; [reflexivity|]);
  (split; [split; lia|]);
  intros H; try discriminate H; reflexivity.
Qed.

End QualityProperties.

Section SafePathProperties.

Variable join : jsstring -> jsstring -> jsstring.

(** X18.  The safe path is the base joined with a component that has the
    length of the given name and contains no period, slash, backslash or
    colon: each of these is replaced by an underscore and every other
    character stays in place.  A name that is already free of them is used
    as it is. *)
Theorem createSafeFilePath_component (basePath fileName : jsstring) :
  exists component,
    createSafeFilePath join basePath fileName = join basePath component
    /\ List.length component = List.length fileName
    /\ forallb (fun c => negb (unsafe_char c)) component = true
    /\ (forall i c,
          nth_error fileName i = Some c ->
          nth_error component i
          = Some (if unsafe_char c then 95%N else c))
    /\ (forallb (fun c => negb (unsafe_char c)) fileName = true ->
        component = fileName).
Proof.
  eexists. split; [reflexivity|]. split; [apply length_map|]. split.
  - induction fileName as [|c s IH]; simpl; [reflexivity|].
    rewrite IH, andb_true_r. destruct (unsafe_char c) eqn:E.
    + vm_compute. reflexivity.
    + now rewrite E.
  - split.
    + intros i c H. now rewrite nth_error_map, H.
    + induction fileName as [|c s IH]; simpl; [reflexivity|].
      intros H. apply andb_true_iff in H. destruct H as [Hc Hs].
      apply negb_true_iff in Hc. rewrite Hc. now rewrite IH.
Qed.

End SafePathProperties.

(** * The tools of the server *)

Lemma tool_options_flags (type : option AnalysisType)
    (level : option DetailLevel) :
  tool_options type level
  = mkOptions (or_else type describe) (or_else level standard)
              false false false false true.
Proof. reflexivity. Qed.

Lemma Qlt_bool_iff (a b : Q) : Qlt_bool a b = true <-> (a < b)%Q.
Proof.
  unfold Qlt_bool. rewrite negb_true_iff. apply Qle_bool_false.
Qed.

Lemma slice_range_head {A : Type} (l : list A) (z : Z) :
  (0 <= z)%Z ->
  slice_range l 0 z = firstn (Z.to_nat z) l.
Proof.
  intros Hz. unfold slice_range, relative_index.
  replace (0 <? 0)%Z with false by reflexivity.
  destruct (Z.ltb_spec z 0); [lia|].
  replace (Z.to_nat (Z.min 0 (Z.of_nat (List.length l)))) with 0 by lia.
  rewrite Nat.sub_0_r. cbn [skipn].
  destruct (Z.le_gt_cases z (Z.of_nat (List.length l))) as [Hle|Hgt].
  - now rewrite Z.min_l by lia.
  - rewrite Z.min_r by lia. rewrite Nat2Z.id.
    rewrite !firstn_all2 by lia. reflexivity.
Qed.

Section ServerProperties.

Variable Number_toString : Q -> jsstring.
Variable toLowerCase : jsstring -> jsstring.
Variable validateImageFile : jsstring -> Q -> Result thrown unit.
Variable getDirectoryFiles : jsstring -> Result thrown (list jsstring).
Variable pattern_RegExp : jsstring -> Result thrown (jsstring -> bool).
Variable env : nat -> Invocation.

Local Abbreviation image_name :=
  (fun file => isImageFile toLowerCase (getFileNameWithExtension file)).

Lemma listing_shape (directoryPath pattern : jsstring) (maxFiles : option Q)
    (files : list jsstring) :
  getImageFilesFromDirectory toLowerCase getDirectoryFiles pattern_RegExp
    directoryPath pattern maxFiles = Ok files ->
  exists allFiles keep k,
    getDirectoryFiles directoryPath = Ok allFiles
    /\ files = firstn k (filter keep allFiles)
    /\ (forall p, keep p = true -> image_name p = true)
    /\ (forall q, maxFiles = Some q -> (0 < q)%Q ->
                  List.length files <= Z.to_nat (Qfloor q))
    /\ (pattern = js "*" -> keep = image_name)
    /\ (maxFiles = None -> files = filter keep allFiles).
Proof using toLowerCase getDirectoryFiles pattern_RegExp.
  unfold getImageFilesFromDirectory. intros H.
  destruct (getDirectoryFiles directoryPath) as [allFiles|e];
    [|discriminate]. cbn [bind] in H.
  assert (Hcut : forall (l : list jsstring),
    let out := match truthy_number maxFiles with
               | Some q => if Qlt_bool 0 q
                           then slice_range l 0 (Qfloor q) else l
               | None => l
               end in
    (exists k, out = firstn k l)
    /\ (forall q, maxFiles = Some q -> (0 < q)%Q ->
                  List.length out <= Z.to_nat (Qfloor q))
    /\ (maxFiles = None -> out = l)).
  { intros l out. subst out. destruct maxFiles as [q|]; cbn [truthy_number].
    - destruct (Qeq_bool q 0) eqn:Ez.
      + split; [exists (List.length l); now rewrite firstn_all|].
        split; [|discriminate]. intros q' Hq Hpos. injection Hq as <-.
        apply Qeq_bool_iff in Ez. rewrite Ez in Hpos.
        exfalso. exact (Qlt_irrefl 0 Hpos).
      + destruct (Qlt_bool 0 q) eqn:Ep.
        * apply Qlt_bool_iff in Ep.
          assert (Hf : (0 <= Qfloor q)%Z).
          { change 0%Z with (Qfloor 0). apply Qfloor_resp_le.
            now apply Qlt_le_weak. }
          rewrite slice_range_head by exact Hf.
          split; [eauto|]. split; [|discriminate].
          intros q' Hq _. injection Hq as <-. rewrite length_firstn. lia.
        * split; [exists (List.length l); now rewrite firstn_all|].
          split; [|discriminate]. intros q' Hq Hpos. injection Hq as <-.
          apply Qlt_bool_iff in Hpos. rewrite Ep in Hpos. discriminate Hpos.
    - split; [exists (List.length l); now rewrite firstn_all|].
      split; [discriminate | reflexivity]. }
  destruct (negb (jsstring_eqb pattern (js "*"))) eqn:Ep.
  - destruct (pattern_RegExp pattern) as [test|e]; [|discriminate].
    cbn [bind] in H. injection H as <-.
    match goal with
    | |- context [filter ?g (filter ?f allFiles)] =>
      destruct (Hcut (filter g (filter f allFiles))) as [[k Hk] [Hlen Hnone]];
      exists allFiles, (fun p => f p && g p), k
    end.
    split; [reflexivity|].
    assert (Hff : forall (f g : jsstring -> bool) (l : list jsstring),
              filter g (filter f l) = filter (fun p => f p && g p) l).
    { intros f g l. induction l as [|x l IH]; simpl; [reflexivity|].
      destruct (f x); simpl; [destruct (g x); now rewrite IH | exact IH]. }
    rewrite <- Hff. split; [exact Hk|].
    split; [intros p Hp; apply andb_true_iff in Hp; exact (proj1 Hp)|].
    split; [exact Hlen|]. split.
    + intros ->. rewrite (proj2 (jsstring_eqb_eq _ _) eq_refl) in Ep.
      discriminate.
    + exact Hnone.
  - cbn [bind] in H. injection H as <-.
    match goal with
    | |- context [filter ?f allFiles] =>
      destruct (Hcut (filter f allFiles)) as [[k Hk] [Hlen Hnone]];
      exists allFiles, f, k
    end.
    split; [reflexivity|]. split; [exact Hk|]. split; [auto|].
    split; [exact Hlen|]. split; [reflexivity | exact Hnone].
Qed.

(** X19.  The image files of a directory are taken from its listing in
    listing order: they are the first so many entries that pass the filter,
    every one of them has a file name [isImageFile] accepts, and with a
    positive limit there are at most as many as its integral part.  With the
    pattern "*" the filter is the test on the file name alone, and without a
    limit nothing is cut.  An error of the listing or of the pattern is the
    error of the whole. *)
Theorem getImageFilesFromDirectory_listing
    (directoryPath pattern : jsstring) (maxFiles : option Q) :
  (forall files,
     getImageFilesFromDirectory toLowerCase getDirectoryFiles pattern_RegExp
       directoryPath pattern maxFiles = Ok files ->
     exists allFiles keep k,
       getDirectoryFiles directoryPath = Ok allFiles
       /\ files = firstn k (filter keep allFiles)
       /\ (forall p, keep p = true -> image_name p = true)
       /\ (forall q, maxFiles = Some q -> (0 < q)%Q ->
                     List.length files <= Z.to_nat (Qfloor q))
       /\ (pattern = js "*" -> keep = image_name)
       /\ (maxFiles = None -> files = filter keep allFiles))
  /\ (forall e,
        getDirectoryFiles directoryPath = Err e ->
        getImageFilesFromDirectory toLowerCase getDirectoryFiles
          pattern_RegExp directoryPath pattern maxFiles = Err e)
  /\ (forall allFiles e,
        getDirectoryFiles directoryPath = Ok allFiles ->
        pattern <> js "*" -> pattern_RegExp pattern = Err e ->
        getImageFilesFromDirectory toLowerCase getDirectoryFiles
          pattern_RegExp directoryPath pattern maxFiles = Err e).
Proof.
  split; [intros files; apply listing_shape|]. split.
  - intros e He. unfold getImageFilesFromDirectory. now rewrite He.
  - intros allFiles e Hl Hp He. unfold getImageFilesFromDirectory.
    rewrite Hl. cbn [bind].
    destruct (jsstring_eqb pattern (js "*")) eqn:E.
    + apply jsstring_eqb_eq in E. contradiction.
    + cbn [negb]. now rewrite He.
Qed.


Lemma analyzeImage_ok_parse (this : GeminiClient) (n : nat)
    (path : jsstring) (options : ImageAnalysisOptions) (r : AnalysisResult) :
  analyzeImage Number_toString env this n path options = Ok r ->
  exists raw,
    parseAnalysisResult env n raw path options (elapsed (env n)) = Ok r.
Proof.
  unfold analyzeImage, executeGeminiCommand. intros H.
  destruct (spawn_npx (env n) _) as [stdout stderr c|msg]; [|discriminate].
  destruct c as [[|p|p]|]; try discriminate. cbn [onClose bind] in H.
  exists (trim stdout).
  destruct (parseAnalysisResult env n (trim stdout) path options
              (elapsed (env n))) as [r'|[e|m]]; congruence.
Qed.

Lemma parse_colors_off (n : nat) (raw path : jsstring)
    (options : ImageAnalysisOptions) (t : Z) (r : AnalysisResult) :
  extractColors options = false ->
  parseAnalysisResult env n raw path options t = Ok r -> colors r = [].
Proof.
  intros Hoff. unfold parseAnalysisResult. rewrite Hoff.
  destruct (extractImageMetadata env n path) as [md|e]; [|discriminate].
  cbn [bind].
  destruct (analysisType options); cbn [bind];
    try (destruct (extractCategories raw) as [cs|e]; cbn [bind];
         [|discriminate]);
    intros H; injection H as <-; reflexivity.
Qed.

(** What an analysis yields under the options the tools build. *)
Lemma tool_result_defaults (this : GeminiClient) (n : nat) (path : jsstring)
    (type : option AnalysisType) (level : option DetailLevel)
    (r : AnalysisResult) :
  analyzeImage Number_toString env this n path (tool_options type level)
  = Ok r ->
  confidence r = Num 0.8%Q /\ colors r = [].
Proof.
  intros H. destruct (analyzeImage_ok_parse _ _ _ _ _ H) as [raw Hp].
  split.
  - now rewrite (parse_confidence env _ _ _ _ _ _ Hp).
  - apply (parse_colors_off n raw path (tool_options type level)
             (elapsed (env n)) r); [reflexivity | exact Hp].
Qed.

Lemma batch_results (this : GeminiClient) (paths : list jsstring)
    (options : ImageAnalysisOptions) :
  exists run,
    batchAnalyze Number_toString env this paths options = Some run
    /\ List.length (results run) <= List.length paths
    /\ (forall r, In r (results run) ->
                  exists n path,
                    analyzeImage Number_toString env this n path options
                    = Ok r).
Proof.
  unfold batchAnalyze, getMaxConcurrentRequests,
    DEFAULT_MAX_CONCURRENT_REQUESTS.
  destruct (batchAnalyzeWith_spec Number_toString env this options
              3 paths ltac:(lia)) as [ws [Hrun _]].
  eexists. split; [exact Hrun|]. cbn [results]. split.
  - pose proof (settled_count
                  (outcomesFrom Number_toString env this options 0 paths)) as H.
    rewrite outcomes_length in H. lia.
  - intros r Hr.
    apply (fulfilled_In Number_toString env this options paths r 0) in Hr.
    destruct Hr as [n [path [_ Ha]]]. eauto.
Qed.

(** X20.  The batch tool always returns.  When it reports results, the
    number processed is the number of results and is at most the number of
    files found, which is at least one and at most the integral part of
    [max_files], or at most ten when [max_files] is left out.  Every result
    has the default confidence and no colours, since the tool passes none of
    the flags on, whatever [analysis_options] says. *)
Theorem batch_tool_counts (server : GeminiMCPServer)
    (args : BatchProcessArgs) :
  exists out,
    batch_process_images_handler Number_toString toLowerCase
      getDirectoryFiles pattern_RegExp env server args = Some out
    /\ (forall pc tf rs,
          out = Ok (Processed pc tf rs) ->
          pc = List.length rs /\ pc <= tf /\ 1 <= tf
          /\ (forall q, max_files args = Some q ->
                        tf <= Z.to_nat (Qfloor q))
          /\ (max_files args = None -> tf <= 10)
          /\ (forall r, In r rs ->
                        confidence r = Num 0.8%Q /\ colors r = []))
    /\ (optional_ok positive_ok (max_files args) = false ->
        out = Err ZodError).
Proof.
  unfold batch_process_images_handler, BatchProcessImagesToolSchema_parse.
  destruct (optional_ok positive_ok (max_files args)) eqn:Hok.
  2:{ eexists. split; [reflexivity|]. split; [discriminate | reflexivity]. }
  set (limit := or_else (truthy_number (max_files args)) 10%Q).
  assert (Hlimit : (0 < limit)%Q
                   /\ (forall q, max_files args = Some q -> limit = q)
                   /\ (max_files args = None -> limit = 10%Q)).
  { subst limit. destruct (max_files args) as [q|]; cbn in *.
    - apply Qlt_bool_iff in Hok.
      destruct (Qeq_bool q 0) eqn:Ez.
      + apply Qeq_bool_iff in Ez. rewrite Ez in Hok.
        exfalso. exact (Qlt_irrefl 0 Hok).
      + split; [exact Hok|].
        split; [intros q0 Hq; injection Hq as <-; reflexivity | discriminate].
    - split; [reflexivity|]. split; [discriminate | reflexivity]. }
  destruct Hlimit as [Hpos [Hsome Hnone]].
  destruct (getImageFilesFromDirectory toLowerCase getDirectoryFiles
              pattern_RegExp (directory_path args)
              (or_else (truthy_string (file_pattern args)) (js "*"))
              (Some limit)) as [imagePaths|e] eqn:Hfiles.
  2:{ eexists. split; [reflexivity|]. split; [discriminate | discriminate]. }
  destruct (listing_shape _ _ _ _ Hfiles)
    as [allFiles [keep [k [_ [_ [_ [Hlen _]]]]]]].
  specialize (Hlen limit eq_refl Hpos).
  destruct (Nat.eqb (List.length imagePaths) 0) eqn:Hz.
  { eexists. split; [reflexivity|]. split; [discriminate | discriminate]. }
  apply Nat.eqb_neq in Hz.
  match goal with
  | |- context [batchAnalyze _ _ ?c ?p ?o] =>
    destruct (batch_results c p o) as [run [Hrun [Hle Hres]]]
  end.
  rewrite Hrun. eexists. split; [reflexivity|].
  split; [|discriminate].
  intros pc tf rs H. injection H as <- <- <-.
  split; [reflexivity|]. split; [exact Hle|]. split; [lia|].
  split; [intros q Hq; rewrite (Hsome q Hq) in Hlen; exact Hlen|].
  split.
  - intros Hn. rewrite (Hnone Hn) in Hlen. exact Hlen.
  - intros r Hr. destruct (Hres r Hr) as [n [path Ha]].
    eapply tool_result_defaults. exact Ha.
Qed.

(** X21.  The analysis tool never changes the configuration of the manager.
    When the arguments pass the schema and the image passes validation, the
    client is given the manager's configuration with the model (when given
    and not empty), the temperature (when given, 0 included) and the
    language (when given) of the call, and keeps it afterwards, whatever the
    analysis yields; what the client held before has no influence.  When the
    schema or the validation rejects the call, the server is unchanged and
    no analysis is started. *)
Theorem analyze_tool_configuration (server : GeminiMCPServer)
    (args : AnalyzeImageArgs) :
  let out := analyze_image_handler Number_toString validateImageFile env
               server args in
  geminiConfig (snd out) = geminiConfig server
  /\ maxImageSize (snd out) = maxImageSize server
  /\ (optional_ok temperature_ok (arg_temperature args) = true ->
      validateImageFile (image_path args) (getMaxImageSizeBytes server)
      = Ok tt ->
      let used :=
        mkConfig
          (match arg_model args with
           | Some (c :: m) => c :: m
           | _ => model (geminiConfig server)
           end)
          (match arg_temperature args with
           | Some t => t
           | None => temperature (geminiConfig server)
           end)
          (maxOutputTokens (geminiConfig server))
          (match arg_language args with
           | Some l => l
           | None => language (geminiConfig server)
           end) in
      getConfig (geminiClient (snd out)) = used
      /\ match fst out with
         | Ok r =>
           analyzeImage Number_toString env (mkClient used) 0
             (image_path args)
             (tool_options (analysis_type args) (detail_level args)) = Ok r
         | Err e =>
           exists g,
             e = ThrowGemini g
             /\ analyzeImage Number_toString env (mkClient used) 0
                  (image_path args)
                  (tool_options (analysis_type args) (detail_level args))
                = Err g
         end)
  /\ (optional_ok temperature_ok (arg_temperature args) = false ->
      out = (Err ZodError, server))
  /\ (forall e,
        optional_ok temperature_ok (arg_temperature args) = true ->
        validateImageFile (image_path args) (getMaxImageSizeBytes server)
        = Err e ->
        out = (Err e, server)).
Proof.
  intros out. subst out.
  unfold analyze_image_handler, AnalyzeImageToolSchema_parse.
  destruct (optional_ok temperature_ok (arg_temperature args)) eqn:Hok.
  2:{ cbn. repeat split; try discriminate; try reflexivity. }
  destruct (validateImageFile (image_path args) (getMaxImageSizeBytes server))
    as [[]|e] eqn:Hv.
  2:{ cbn. repeat split; try discriminate; try reflexivity.
      intros e' _ He. congruence. }
  match goal with
  | |- context [analyzeImage _ _ ?cl 0 _ _] =>
    assert (Hc : cl = mkClient
      (mkConfig
         (match arg_model args with
          | Some (x :: m) => x :: m
          | _ => model (geminiConfig server)
          end)
         (match arg_temperature args with
          | Some t => t
          | None => temperature (geminiConfig server)
          end)
         (maxOutputTokens (geminiConfig server))
         (match arg_language args with
          | Some l => l
          | None => language (geminiConfig server)
          end)))
      by (destruct (arg_model args) as [[|? ?]|],
                   (arg_temperature args), (arg_language args);
          reflexivity);
    rewrite Hc
  end.
  destruct (analyzeImage _ _ _ 0 _ _) as [r|g] eqn:Ha;
    cbn [fst snd geminiConfig maxImageSize geminiClient];
    (split; [reflexivity|]); (split; [reflexivity|]);
    (split; [|split; [discriminate | discriminate]]);
    intros _ _; cbv zeta; (split; [reflexivity|]); eauto.
Qed.

(** X22.  Through the analysis tool none of the optional flags is ever set:
    the instruction is the language preamble, the base template and the
    detail qualifier and nothing more, and a result has the default
    confidence 0.8 and an empty colour list whatever the tool wrote. *)
Theorem analyze_tool_defaults (server : GeminiMCPServer)
    (args : AnalyzeImageArgs) :
  (forall this type level,
     buildAnalysisPrompt this (tool_options type level)
     = language_preamble (language (config this))
       ++ base_template (or_else type describe)
       ++ detail_qualifier (or_else level standard))
  /\ (forall r,
        fst (analyze_image_handler Number_toString validateImageFile env
               server args) = Ok r ->
        confidence r = Num 0.8%Q /\ colors r = []).
Proof.
  split.
  - intros [[m t k l]] type level. rewrite tool_options_flags.
    unfold buildAnalysisPrompt.
    cbn [config language analysisType detailLevel includeConfidence
         extractColors detectFaces readQRCodes].
    unfold base_template.
    destruct l, (or_else level standard);
      cbn [language_preamble detail_qualifier];
      rewrite ?app_nil_l, ?app_nil_r, <- ?app_assoc; reflexivity.
  - intros r. unfold analyze_image_handler.
    destruct (AnalyzeImageToolSchema_parse args) as [params|e];
      [|discriminate].
    destruct (validateImageFile _ _) as [u|e]; [|discriminate].
    destruct (analyzeImage _ _ _ 0 _ _) as [r'|g] eqn:Ha; [|discriminate].
    cbn [fst]. intros H. injection H as <-.
    eapply tool_result_defaults. exact Ha.
Qed.

End ServerProperties.

Lemma merged_valid (c : GeminiAnalysisConfig) (args : ConfigureArgs) :
  temperature_ok (temperature c) && positive_ok (maxOutputTokens c) = true ->
  optional_ok temperature_ok (cfg_temperature args)
  && optional_ok positive_ok (cfg_max_tokens args) = true ->
  temperature_ok (spread (temperature c) (cfg_temperature args))
  && positive_ok (spread (maxOutputTokens c)
                         (truthy_number (cfg_max_tokens args))) = true.
Proof.
  intros Hc Ha. apply andb_true_iff in Hc. destruct Hc as [Ht Hk].
  apply andb_true_iff in Ha. destruct Ha as [Hat Hak].
  apply andb_true_iff. split.
  - destruct (cfg_temperature args); [exact Hat | exact Ht].
  - destruct (cfg_max_tokens args) as [q|]; cbn [truthy_number spread];
      [|exact Hk].
    destruct (Qeq_bool q 0); [exact Hk | exact Hak].
Qed.

(** X23.  The configuration tool keeps the manager's configuration within
    the schema and the client in step with it.  Arguments the schema accepts,
    applied to a configuration that satisfies the schema, always succeed:
    the model is replaced when one is given and not empty, the temperature
    when one is given (0 included), the language when one is given and the
    token limit when one is given; the result satisfies the schema again and
    becomes the configuration of both the manager and the client.  Arguments
    the schema rejects leave the server as it was. *)
Theorem configure_tool_keeps_schema (server : GeminiMCPServer)
    (args : ConfigureArgs) :
  let out := configure_gemini_settings_handler server args in
  let accepted :=
    optional_ok temperature_ok (cfg_temperature args)
    && optional_ok positive_ok (cfg_max_tokens args) in
  (accepted = true ->
   GeminiAnalysisConfigSchema_parse (geminiConfig server)
   = Ok (geminiConfig server) ->
   exists c,
     out = (Ok c, mkServer c (maxImageSize server) (mkClient c))
     /\ GeminiAnalysisConfigSchema_parse c = Ok c
     /\ model c = match cfg_model args with
                  | Some (x :: m) => x :: m
                  | _ => model (geminiConfig server)
                  end
     /\ temperature c = or_else (cfg_temperature args)
                                (temperature (geminiConfig server))
     /\ language c = or_else (cfg_language args)
                             (language (geminiConfig server))
     /\ maxOutputTokens c = or_else (cfg_max_tokens args)
                                    (maxOutputTokens (geminiConfig server)))
  /\ (accepted = false -> out = (Err ZodError, server))
  /\ (forall e, fst out = Err e -> snd out = server).
Proof.
  intros out accepted. subst out accepted.
  unfold configure_gemini_settings_handler,
    ConfigureGeminiSettingsToolSchema_parse.
  destruct (optional_ok temperature_ok (cfg_temperature args)
            && optional_ok positive_ok (cfg_max_tokens args)) eqn:Ha.
  2:{ split; [discriminate|]. split; [reflexivity|]. reflexivity. }
  split; [|split; [discriminate|]].
  - intros _ Hvalid.
    unfold GeminiAnalysisConfigSchema_parse in Hvalid.
    destruct (temperature_ok (temperature (geminiConfig server))
              && positive_ok (maxOutputTokens (geminiConfig server))) eqn:Hc;
      [|discriminate].
    pose proof (merged_valid _ _ Hc Ha) as Hm.
    unfold updateGeminiConfig, GeminiAnalysisConfigSchema_parse.
    cbn [p_model p_temperature p_maxOutputTokens p_language
         temperature maxOutputTokens].
    rewrite Hm.
    exists (mkConfig
              (spread (model (geminiConfig server))
                      (truthy_string (cfg_model args)))
              (spread (temperature (geminiConfig server))
                      (cfg_temperature args))
              (spread (maxOutputTokens (geminiConfig server))
                      (truthy_number (cfg_max_tokens args)))
              (spread (language (geminiConfig server)) (cfg_language args))).
    split; [reflexivity|].
    split.
    { unfold GeminiAnalysisConfigSchema_parse.
      cbn [temperature maxOutputTokens p_temperature p_maxOutputTokens].
      now rewrite Hm. }
    cbn [temperature maxOutputTokens model language
         p_model p_temperature p_maxOutputTokens p_language].
    split; [destruct (cfg_model args) as [[|? ?]|]; reflexivity|].
    split; [destruct (cfg_temperature args); reflexivity|].
    split; [destruct (cfg_language args); reflexivity|].
    destruct (cfg_max_tokens args) as [q|]; cbn [truthy_number spread or_else];
      [|reflexivity].
    destruct (Qeq_bool q 0) eqn:Ez; [|reflexivity].
    exfalso. apply andb_true_iff in Ha. destruct Ha as [_ Hk].
    cbn [optional_ok] in Hk. apply Qlt_bool_iff in Hk.
    apply Qeq_bool_iff in Ez. rewrite Ez in Hk. exact (Qlt_irrefl 0 Hk).
  - intros e. destruct (updateGeminiConfig _ _); cbn [fst snd];
      [discriminate | reflexivity].
Qed.

Section EnvironmentProperties.

Variable process_env : string -> option jsstring.

(** X24.  A value read from the environment as an enumeration is always one
    of the allowed values or the default: a variable that is not set, is
    empty or holds anything else gives the default.  So the model taken from
    GEMINI_MODEL is always one of the available models. *)
Theorem getEnvEnum_fallback (key : string) (allowedValues : list jsstring)
    (defaultValue : jsstring) :
  let v := getEnvEnum process_env key allowedValues defaultValue in
  (In v allowedValues \/ v = defaultValue)
  /\ (forall value,
        process_env key = Some value -> value <> [] ->
        In value allowedValues -> v = value)
  /\ (forall value,
        process_env key = Some value -> ~ In value allowedValues ->
        v = defaultValue)
  /\ (process_env key = None \/ process_env key = Some [] ->
      v = defaultValue)
  /\ In (getEnvEnum process_env "GEMINI_MODEL" AVAILABLE_GEMINI_MODELS
           (model DEFAULT_GEMINI_CONFIG)) AVAILABLE_GEMINI_MODELS.
Proof.
  assert (Hgen : forall k allowed dflt,
    let v := getEnvEnum process_env k allowed dflt in
    (In v allowed \/ v = dflt)
    /\ (forall value, process_env k = Some value -> value <> [] ->
                      In value allowed -> v = value)
    /\ (forall value, process_env k = Some value -> ~ In value allowed ->
                      v = dflt)
    /\ (process_env k = None \/ process_env k = Some [] -> v = dflt)).
  { intros k allowed dflt v. subst v. unfold getEnvEnum.
    destruct (process_env k) as [[|c value]|].
    - split; [auto|]. split; [intros v Hv; injection Hv as <-; congruence|].
      split; auto.
    - destruct (Array_includes allowed (c :: value)) eqn:E.
      + apply Array_includes_In in E. split; [auto|].
        split; [intros v Hv; injection Hv as <-; auto|].
        split; [intros v Hv; injection Hv as <-; tauto|].
        intros [H|H]; discriminate.
      + split; [auto|]. split.
        * intros v Hv _ Hin. injection Hv as <-.
          apply Array_includes_In in Hin. congruence.
        * split; auto.
    - split; [auto|]. split; [discriminate|]. split; [discriminate | auto]. }
  intros v. subst v.
  destruct (Hgen key allowedValues defaultValue) as [H1 [H2 [H3 H4]]].
  split; [exact H1|]. split; [exact H2|]. split; [exact H3|].
  split; [exact H4|].
  destruct (Hgen "GEMINI_MODEL"%string AVAILABLE_GEMINI_MODELS
              (model DEFAULT_GEMINI_CONFIG)) as [[H|H] _]; [exact H|].
  rewrite H. right. right. right. left. reflexivity.
Qed.

End EnvironmentProperties.

(** ** Predicting the processing time *)

Lemma Qceiling_between (x : Q) (z : Z) :
  (inject_Z z - 1 < x)%Q -> (x <= inject_Z z)%Q -> Qceiling x = z.
Proof.
  intros Hlo Hhi.
  apply Z.le_antisymm.
  - rewrite <- (Qceiling_Z z). now apply Qceiling_resp_le.
  - assert (H : (inject_Z (z - 1) < inject_Z (Qceiling x))%Q).
    { apply Qlt_le_trans with x; [|apply Qle_ceiling].
      unfold Z.sub. rewrite inject_Z_plus. exact Hlo. }
    rewrite <- Zlt_Qlt in H. lia.
Qed.

Lemma Qceiling_plus_Z (x : Q) (z : Z) :
  Qceiling (x + inject_Z z) = (Qceiling x + z)%Z.
Proof.
  apply Qceiling_between.
  - rewrite inject_Z_plus. pose proof (Qceiling_lt x) as H.
    unfold Z.sub in H. rewrite inject_Z_plus in H.
    replace (inject_Z (- (1))) with (-1 # 1)%Q in H by reflexivity. lra.
  - rewrite inject_Z_plus. pose proof (Qle_ceiling x). lra.
Qed.

Lemma Qlt_bool_false (a b : Q) : Qlt_bool a b = false <-> (b <= a)%Q.
Proof.
  unfold Qlt_bool. rewrite negb_false_iff. apply Qle_bool_iff.
Qed.

(** The seconds the size of the file accounts for. *)
Lemma estimatedSeconds_split (fileSize : Q) (analysisType : option jsstring) :
  let sizeMB := (fileSize / (1024 * 1024))%Q in
  Processing.estimatedSeconds
    (Processing.predictProcessingTime fileSize analysisType)
  = (Qceiling (if Qlt_bool 5 sizeMB then 2 + sizeMB * 0.5
               else if Qlt_bool 2 sizeMB then 2 + sizeMB * 0.2
               else 2)%Q
     + Processing.surcharge analysisType)%Z.
Proof.
  cbv zeta. unfold Processing.predictProcessingTime, Processing.surcharge.
  set (t := or_else analysisType (js "describe")).
  set (s := (fileSize / (1024 * 1024))%Q).
  destruct (Qlt_bool 5 s); [|destruct (Qlt_bool 2 s)];
    destruct (jsstring_eqb t (js "ocr"));
    try destruct (jsstring_eqb t (js "detect_objects"));
    try destruct (jsstring_eqb t (js "classify"));
    cbn [Processing.estimatedSeconds];
    try (rewrite Z.add_0_r; reflexivity);
    apply (Qceiling_plus_Z _ _).
Qed.

Lemma sizeMB_gt (fileSize k : Q) :
  (k < fileSize / (1024 * 1024) <-> k * (1024 * 1024) < fileSize)%Q.
Proof.
  split; intros H.
  - apply (Qmult_lt_r _ _ (1024 * 1024)) in H; [|reflexivity].
    assert (E : (fileSize / (1024 * 1024) * (1024 * 1024) == fileSize)%Q)
      by (field; discriminate).
    now rewrite E in H.
  - apply Qlt_shift_div_l; [reflexivity|exact H].
Qed.

Lemma sizeMB_le (fileSize k : Q) :
  (fileSize / (1024 * 1024) <= k <-> fileSize <= k * (1024 * 1024))%Q.
Proof.
  pose proof (sizeMB_gt fileSize k) as H.
  split; intros L; apply Qnot_lt_le; intros G; apply H in G;
    apply (Qlt_not_le _ _ G); exact L.
Qed.

Lemma predict_complexity (fileSize : Q) (analysisType : option jsstring) :
  let sizeMB := (fileSize / (1024 * 1024))%Q in
  let type := or_else analysisType (js "describe") in
  let p := Processing.predictProcessingTime fileSize analysisType in
  Processing.complexity p
  = (let c := if Qlt_bool 5 sizeMB then Processing.high
              else if Qlt_bool 2 sizeMB then Processing.medium
              else Processing.low in
     if jsstring_eqb type (js "ocr") then
       match c with
       | Processing.low => Processing.medium
       | _ => Processing.high
       end
     else if jsstring_eqb type (js "detect_objects") then
       match c with Processing.low => Processing.medium | _ => c end
     else c)
  /\ List.length (Processing.factors p)
     = (if Qlt_bool 5 sizeMB || Qlt_bool 2 sizeMB then 2 else 1).
Proof.
  cbv zeta. unfold Processing.predictProcessingTime.
  set (t := or_else analysisType (js "describe")).
  set (s := (fileSize / (1024 * 1024))%Q).
  destruct (Qlt_bool 5 s); [|destruct (Qlt_bool 2 s)];
    destruct (jsstring_eqb t (js "ocr"));
    try destruct (jsstring_eqb t (js "detect_objects"));
    try destruct (jsstring_eqb t (js "classify"));
    split; reflexivity.
Qed.

Lemma size_rank_monotone (s s' : Q) :
  (s <= s')%Q ->
  Processing.rank (if Qlt_bool 5 s then Processing.high
                   else if Qlt_bool 2 s then Processing.medium
                   else Processing.low)
  <= Processing.rank (if Qlt_bool 5 s' then Processing.high
                      else if Qlt_bool 2 s' then Processing.medium
                      else Processing.low).
Proof.
  intros L.
  destruct (Qlt_bool 5 s) eqn:A; destruct (Qlt_bool 2 s) eqn:B;
    destruct (Qlt_bool 5 s') eqn:A'; destruct (Qlt_bool 2 s') eqn:B';
    cbn [Processing.rank]; try lia; exfalso;
    rewrite ?Qlt_bool_iff, ?Qlt_bool_false in *; lra.
Qed.

Lemma size_seconds_monotone (s s' : Q) :
  (s <= s')%Q ->
  ((if Qlt_bool 5 s then 2 + s * 0.5
    else if Qlt_bool 2 s then 2 + s * 0.2 else 2)
   <= (if Qlt_bool 5 s' then 2 + s' * 0.5
       else if Qlt_bool 2 s' then 2 + s' * 0.2 else 2))%Q.
Proof.
  intros L.
  destruct (Qlt_bool 5 s) eqn:A; destruct (Qlt_bool 2 s) eqn:B;
    destruct (Qlt_bool 5 s') eqn:A'; destruct (Qlt_bool 2 s') eqn:B';
    rewrite ?Qlt_bool_iff, ?Qlt_bool_false in *; lra.
Qed.

(** X25.  The estimate of the processing time is two seconds plus a
    surcharge for the analysis type (3 for ocr, 2 for detect_objects, 1 for
    classify) up to 2 MB, exactly one second more between 2 MB and 5 MB, and
    at least three seconds more above 5 MB; it never decreases when the file
    grows, and neither does the complexity.  The complexity is high exactly
    above 5 MB or for ocr above 2 MB, and low exactly up to 2 MB for types
    other than ocr and detect_objects.  One factor is reported up to 2 MB
    and two above. *)
Theorem predictProcessingTime_estimate
    (fileSize : Q) (analysisType : option jsstring) :
  let p := Processing.predictProcessingTime fileSize analysisType in
  let type := or_else analysisType (js "describe") in
  let extra := Processing.surcharge analysisType in
  ((fileSize <= 2 * (1024 * 1024))%Q ->
   Processing.estimatedSeconds p = (2 + extra)%Z
   /\ List.length (Processing.factors p) = 1)
  /\ ((2 * (1024 * 1024) < fileSize)%Q ->
      (fileSize <= 5 * (1024 * 1024))%Q ->
      Processing.estimatedSeconds p = (3 + extra)%Z
      /\ List.length (Processing.factors p) = 2)
  /\ ((5 * (1024 * 1024) < fileSize)%Q ->
      (5 + extra <= Processing.estimatedSeconds p)%Z
      /\ List.length (Processing.factors p) = 2)
  /\ (Processing.complexity p = Processing.high
      <-> (5 * (1024 * 1024) < fileSize)%Q
          \/ ((2 * (1024 * 1024) < fileSize)%Q /\ type = js "ocr"))
  /\ (Processing.complexity p = Processing.low
      <-> (fileSize <= 2 * (1024 * 1024))%Q
          /\ type <> js "ocr" /\ type <> js "detect_objects")
  /\ (forall larger,
        (fileSize <= larger)%Q ->
        let p' := Processing.predictProcessingTime larger analysisType in
        (Processing.estimatedSeconds p <= Processing.estimatedSeconds p')%Z
        /\ Processing.rank (Processing.complexity p)
           <= Processing.rank (Processing.complexity p')).
Proof.
  cbv zeta.
  destruct (predict_complexity fileSize analysisType) as [Hc Hf].
  cbv zeta in Hc, Hf. rewrite Hc, Hf, estimatedSeconds_split. cbv zeta.
  set (t := or_else analysisType (js "describe")) in *.
  set (s := (fileSize / (1024 * 1024))%Q) in *.
  assert (G5 : Qlt_bool 5 s = true <-> (5 * (1024 * 1024) < fileSize)%Q)
    by (rewrite Qlt_bool_iff; apply sizeMB_gt).
  assert (G2 : Qlt_bool 2 s = true <-> (2 * (1024 * 1024) < fileSize)%Q)
    by (rewrite Qlt_bool_iff; apply sizeMB_gt).
  assert (Hs5 : Qlt_bool 5 s = true -> (5 < s)%Q) by apply Qlt_bool_iff.
  assert (Hs2 : Qlt_bool 2 s = true -> (2 < s)%Q) by apply Qlt_bool_iff.
  assert (Hn5 : Qlt_bool 5 s = false -> (s <= 5)%Q) by apply Qlt_bool_false.
  assert (Eo : jsstring_eqb t (js "ocr") = true <-> t = js "ocr")
    by apply jsstring_eqb_eq.
  assert (Ed : jsstring_eqb t (js "detect_objects") = true
               <-> t = js "detect_objects") by apply jsstring_eqb_eq.
  split; [|split; [|split; [|split; [|split]]]].
  - intros L.
    destruct (Qlt_bool 5 s);
      [pose proof (proj1 G5 eq_refl); exfalso; lra|].
    destruct (Qlt_bool 2 s);
      [pose proof (proj1 G2 eq_refl); exfalso; lra|].
    split; reflexivity.
  - intros L U.
    destruct (Qlt_bool 5 s);
      [pose proof (proj1 G5 eq_refl); exfalso; lra|].
    destruct (Qlt_bool 2 s);
      [|apply G2 in L; discriminate L].
    split; [|reflexivity].
    f_equal. apply (Qceiling_between _ 3).
    + specialize (Hs2 eq_refl). change (inject_Z 3) with 3%Q. lra.
    + specialize (Hn5 eq_refl). change (inject_Z 3) with 3%Q. lra.
  - intros L. apply G5 in L. rewrite L in *. split; [|reflexivity].
    specialize (Hs5 eq_refl).
    assert (H : (5 <= Qceiling (2 + s * 0.5))%Z).
    { assert (K : (inject_Z 4 < inject_Z (Qceiling (2 + s * 0.5)))%Q).
      { apply Qlt_le_trans with (2 + s * 0.5)%Q; [|apply Qle_ceiling].
        change (inject_Z 4) with 4%Q. lra. }
      rewrite <- Zlt_Qlt in K. lia. }
    lia.
  - rewrite <- G5, <- G2, <- Eo.
    clear.
    destruct (Qlt_bool 5 s); destruct (Qlt_bool 2 s);
      destruct (jsstring_eqb t (js "ocr"));
      destruct (jsstring_eqb t (js "detect_objects"));
      cbn; intuition discriminate.
  - assert (L2 : Qlt_bool 2 s = false <-> (fileSize <= 2 * (1024 * 1024))%Q).
    { rewrite Qlt_bool_false. apply sizeMB_le. }
    rewrite <- L2, <- Eo, <- Ed.
    assert (K : Qlt_bool 5 s = true -> Qlt_bool 2 s = true).
    { intros A. apply Qlt_bool_iff. specialize (Hs5 A). lra. }
    clear - K.
    destruct (Qlt_bool 5 s); destruct (Qlt_bool 2 s);
      try (specialize (K eq_refl); discriminate K);
      destruct (jsstring_eqb t (js "ocr"));
      destruct (jsstring_eqb t (js "detect_objects"));
      cbn; intuition discriminate.
  - intros larger L.
    destruct (predict_complexity larger analysisType) as [Hc' _].
    cbv zeta in Hc'. rewrite Hc', estimatedSeconds_split. cbv zeta.
    fold t.
    set (s' := (larger / (1024 * 1024))%Q) in *.
    assert (Ls : (s <= s')%Q).
    { apply sizeMB_le.
      assert (E : (s' * (1024 * 1024) == larger)%Q)
        by (unfold s'; field; discriminate).
      rewrite E. exact L. }
    split.
    + apply Z.add_le_mono_r, Qceiling_resp_le.
      now apply size_seconds_monotone.
    + pose proof (size_rank_monotone s s' Ls) as R.
      destruct (jsstring_eqb t (js "ocr"));
        [|destruct (jsstring_eqb t (js "detect_objects"))];
        revert R;
        destruct (Qlt_bool 5 s); destruct (Qlt_bool 2 s);
        destruct (Qlt_bool 5 s'); destruct (Qlt_bool 2 s');
        cbn [Processing.rank]; lia.
Qed.

(** ** Advice on images *)

Section AdviceProperties.

Variable toLowerCase : jsstring -> jsstring.

(** X26.  The advice on an image reports the extension of the path as its
    format and always exactly one recommendation.  The formats it knows are
    the supported ones: a path [isImageFile] accepts gets exactly one
    optimization and a recommendation other than "unknown format", any
    other path gets the recommendation "unknown format" and no
    optimization. *)
Theorem getImageRecommendations_supported (filePath : jsstring) :
  let r := getImageRecommendations toLowerCase filePath in
  rec_format r = getFileExtension toLowerCase filePath
  /\ List.length (recommendations r) = 1
  /\ (isImageFile toLowerCase filePath = true ->
      List.length (optimizations r) = 1
      /\ recommendations r <> [js "不明な形式"])
  /\ (isImageFile toLowerCase filePath = false ->
      optimizations r = [] /\ recommendations r = [js "不明な形式"]).
Proof.
  cbv zeta.
  unfold getImageRecommendations, isImageFile, Array_includes,
    SUPPORTED_IMAGE_FORMATS.
  cbn [existsb].
  set (extension := getFileExtension toLowerCase filePath).
  assert (D : forall a b : jsstring,
             jsstring_eqb a b = false -> [a] <> [b]).
  { intros a b E H. injection H as H.
    apply jsstring_eqb_eq in H. congruence. }
  destruct (jsstring_eqb extension (js ".jpg"));
    [|destruct (jsstring_eqb extension (js ".jpeg"));
      [|destruct (jsstring_eqb extension (js ".png"));
        [|destruct (jsstring_eqb extension (js ".webp"));
          [|destruct (jsstring_eqb extension (js ".gif"))]]]];
    cbn [orb rec_format recommendations optimizations app List.length];
    (split; [reflexivity|]); (split; [reflexivity|]);
    (split;
     [intros H;
      first [discriminate H
            |split; [reflexivity|apply D; vm_compute; reflexivity]]
     |intros H; first [discriminate H|split; reflexivity]]).
Qed.

End AdviceProperties.

(** ** The directory listing *)

Section FileSystemProperties.

Variable fs_access : jsstring -> Result thrown unit.
Variable fs_stat : jsstring -> Result thrown Stats.
Variable fs_readdir : jsstring -> Result thrown (list jsstring).
Variable join : jsstring -> jsstring -> jsstring.
Variable toLowerCase : jsstring -> jsstring.
Variable pattern_RegExp : jsstring -> Result thrown (jsstring -> bool).

(** The listing as [getImageFilesFromDirectory] awaits it. *)
Local Abbreviation listing :=
  (fun directory =>
     match getDirectoryFiles fs_access fs_stat fs_readdir join directory with
     | Ok files => Ok files
     | Err e => Err (ThrowGemini e)
     end).

(** X27.  The listing of a directory succeeds exactly when the path can be
    accessed, is a directory and can be read, and then consists of the
    entries in the order read, each joined to the directory path.  A path
    that cannot be accessed or is no directory is reported as "file not
    found" for that path; the error thrown inside the [try] block passes the
    mapping of the [catch] block unchanged, and only the second case carries
    a reason.  An error of reading the directory goes through the
    file-system mapping.  So every image path found in a directory is the
    directory path joined with one of its entries. *)
Theorem getDirectoryFiles_classified (directoryPath : jsstring) :
  let r := getDirectoryFiles fs_access fs_stat fs_readdir join
             directoryPath in
  (forall files,
     r = Ok files
     <-> fileExists fs_access directoryPath = true
         /\ isDirectory fs_stat directoryPath = true
         /\ exists names,
              fs_readdir directoryPath = Ok names
              /\ files = map (join directoryPath) names)
  /\ (fileExists fs_access directoryPath = false ->
      r = Err (createGeminiErrors_file.fileNotFound directoryPath []))
  /\ (fileExists fs_access directoryPath = true ->
      isDirectory fs_stat directoryPath = false ->
      r = Err (createGeminiErrors_file.fileNotFound directoryPath
                 [("reason"%string, VStr (js "Path is not a directory"))]))
  /\ (forall error,
        fileExists fs_access directoryPath = true ->
        isDirectory fs_stat directoryPath = true ->
        fs_readdir directoryPath = Err error ->
        r = Err (mapFileSystemError error directoryPath))
  /\ (forall e,
        r = Err e ->
        fileExists fs_access directoryPath = false
        \/ isDirectory fs_stat directoryPath = false ->
        code e = FILE_NOT_FOUND
        /\ message e = js "ファイルが見つかりません: " ++ directoryPath
        /\ getErrorSeverity (ThrowGemini e) = low)
  /\ (forall pattern maxFiles images,
        getImageFilesFromDirectory toLowerCase listing pattern_RegExp
          directoryPath pattern maxFiles = Ok images ->
        exists names,
          fs_readdir directoryPath = Ok names
          /\ forall p, In p images ->
                       exists name,
                         In name names /\ p = join directoryPath name).
Proof.
  cbv zeta.
  assert (Hok : forall files,
    getDirectoryFiles fs_access fs_stat fs_readdir join directoryPath
    = Ok files
    <-> fileExists fs_access directoryPath = true
        /\ isDirectory fs_stat directoryPath = true
        /\ exists names,
             fs_readdir directoryPath = Ok names
             /\ files = map (join directoryPath) names).
  { intros files. unfold getDirectoryFiles.
    destruct (fileExists fs_access directoryPath); cbn [negb];
      [|split; [discriminate|intros [H _]; discriminate H]].
    destruct (isDirectory fs_stat directoryPath); cbn [negb];
      [|split; [discriminate|intros [_ [H _]]; discriminate H]].
    destruct (fs_readdir directoryPath) as [names|error]; cbn [bind].
    - split.
      + intros H. injection H as <-. eauto.
      + intros [_ [_ [names' [H ->]]]]. injection H as <-. reflexivity.
    - split; [discriminate|].
      intros [_ [_ [names' [H _]]]]. discriminate H. }
  split; [exact Hok|].
  split; [|split; [|split; [|split]]].
  - intros E. unfold getDirectoryFiles. rewrite E. reflexivity.
  - intros E D. unfold getDirectoryFiles. rewrite E, D. reflexivity.
  - intros error E D R. unfold getDirectoryFiles.
    rewrite E, D, R. reflexivity.
  - intros e He Hc. unfold getDirectoryFiles in He.
    destruct (fileExists fs_access directoryPath); cbn [negb] in He.
    + destruct (isDirectory fs_stat directoryPath); cbn [negb] in He.
      * destruct Hc as [Hc|Hc]; discriminate Hc.
      * injection He as <-. repeat split.
    + injection He as <-. repeat split.
  - intros pattern maxFiles images H.
    apply listing_shape in H.
    destruct H as [allFiles [keep [k [Hl [Hi _]]]]].
    assert (Hd : getDirectoryFiles fs_access fs_stat fs_readdir join
                   directoryPath = Ok allFiles).
    { clear Hok.
      destruct (getDirectoryFiles fs_access fs_stat fs_readdir join
                  directoryPath) as [files|e]; [|discriminate Hl].
      injection Hl as ->. reflexivity. }
    apply Hok in Hd. destruct Hd as [_ [_ [names [Hr ->]]]].
    exists names. split; [exact Hr|].
    intros p Hp. subst images.
    assert (Hin : In p (filter keep (map (join directoryPath) names))).
    { rewrite <- (firstn_skipn k). apply in_or_app. now left. }
    apply filter_In in Hin. destruct Hin as [Hin _].
    apply in_map_iff in Hin. destruct Hin as [name [<- Hn]].
    exists name. split; [exact Hn|reflexivity].
Qed.

End FileSystemProperties.
